(** * Radiosonde BUFR helpers ([eurec4a_snd/_helpers.py]): model and properties

    The helpers turn a flattened BUFR dump into a [Sounding], normalise its
    units, and sort and filter it by flight time.  Each Python function is
    embedded below under its own name.

    Conventions of the embedding:
    - a JSON leaf is a [pyval]; a Python list of leaves is a [pylist];
    - a NumPy float array is an [ndarray], a list of [pyfloat];
    - a [pyfloat] is NaN, a signed infinity or a finite value, held as the
      rational it denotes.  Addition, subtraction and division round their
      exact result to binary64 ([round64]); NaN propagation, infinities and
      ordering follow IEEE 754 as NumPy exposes it.  The sign of a zero is
      not represented;
    - a Python exception is a [Raise] result;
    - [np.argsort] is taken by its documented contract (section [Sorting]). *)

From Stdlib Require Import ZArith NArith Nnat QArith Qcanon String Ascii List Bool Lia.
From Stdlib Require Import Permutation Sorted DecimalString DecimalZ.
Import ListNotations.

Set Implicit Arguments.
Open Scope string_scope.
Open Scope nat_scope.
Open Scope list_scope.

(* ================================================================= *)
(** ** Python values *)

Inductive pyfloat : Type :=
| FNaN
| FInf (neg : bool)
| FFin (q : Qc).

Definition Qz (z : Z) : Qc := Q2Qc (inject_Z z).

Definition isnan (f : pyfloat) : bool :=
  match f with FNaN => true | _ => false end.

(** [a == b] on floats: NaN equals nothing. *)
Definition feq (a b : pyfloat) : bool :=
  match a, b with
  | FInf s, FInf t => Bool.eqb s t
  | FFin p, FFin q => Qc_eq_bool p q
  | _, _ => false
  end.

(** A leaf of the decoded JSON document. *)
Inductive pyval : Type :=
| PNone
| PBool (b : bool)
| PInt (z : Z)
| PFloat (f : pyfloat)
| PStr (s : string).

Definition as_number (v : pyval) : option pyfloat :=
  match v with
  | PBool b => Some (FFin (Qz (if b then 1 else 0)%Z))
  | PInt z => Some (FFin (Qz z))
  | PFloat f => Some f
  | PNone | PStr _ => None
  end.

(** Python's [==] on leaves: numbers compare by value across [bool], [int]
    and [float]; strings compare with strings; [None] only equals [None]. *)
Definition py_eq (a b : pyval) : bool :=
  match a, b with
  | PNone, PNone => true
  | PStr s, PStr t => String.eqb s t
  | _, _ =>
      match as_number a, as_number b with
      | Some x, Some y => feq x y
      | _, _ => false
      end
  end.

Definition is_None (v : pyval) : bool :=
  match v with PNone => true | _ => false end.

Abbreviation pylist := (list pyval) (only parsing).
Abbreviation ndarray := (list pyfloat) (only parsing).

(* ================================================================= *)
(** ** Exceptions *)

Inductive exn : Type :=
| KeyError (key : string)
| UnitChangedError (recorded new : pyval)
| UnexpectedUnit (expected : string) (actual : pyval)
| NotImplementedError (msg : string)
| TypeError
| ValueError
| IndexError
| AttributeError (attr : string)
| OverflowError
| UnboundLocalError (var : string).

Inductive result (A : Type) : Type :=
| Ok (a : A)
| Raise (e : exn).
Arguments Raise {A} e.

Definition bind {A B : Type} (m : result A) (k : A -> result B) : result B :=
  match m with
  | Ok a => k a
  | Raise e => Raise e
  end.

Notation "x <- m ;; k" := (bind m (fun x => k))
  (at level 61, m at next level, right associativity).

Definition is_Ok {A : Type} (m : result A) : bool :=
  match m with Ok _ => true | Raise _ => false end.

(* ================================================================= *)
(** ** The Sounding object

    One record stands for the Python class through the whole pipeline.  [S] is
    the type of a measurement series: [pylist] while the extractor appends to
    Python lists, [ndarray] once [convert_list_to_array] has run.  The last six
    fields are the attributes the pipeline attaches to the instance after its
    construction; [None] means the attribute has not been set. *)

Record datetime : Type := mkDatetime {
  dt_year : Z; dt_month : Z; dt_day : Z;
  dt_hour : Z; dt_minute : Z; dt_second : Z
}.

(** A value of the metadata mapping.  [MStrCat v u] is [str(v) + u], kept
    unevaluated. *)
Inductive metaval : Type :=
| MVal (v : pyval)
| MStrCat (v : pyval) (u : string).

Record Sounding (S : Type) : Type := mkSounding {
  station_lat : pyval;
  station_lon : pyval;
  sounding_start_time : option datetime;
  time : S;
  time_unit : pyval;
  pressure : S;
  pressure_unit : pyval;
  temperature : S;
  temperature_unit : pyval;
  dewpoint : S;
  dewpoint_unit : pyval;
  windspeed : S;
  windspeed_unit : pyval;
  winddirection : S;
  winddirection_unit : pyval;
  gpm : S;
  gpm_unit : pyval;
  displacement_lat : S;
  displacement_lat_unit : pyval;
  displacement_lon : S;
  displacement_lon_unit : pyval;
  meta_data : list (string * metaval);
  ascentrate : option S;
  relativehumidity : option S;
  mixingratio : option S;
  latitude : option S;
  longitude : option S;
  direction : option Z
}.

(** The names iterated over by the per-variable loops
    ([sounding.__dict__[var]] and [sounding.__dict__[var+'_unit']]). *)
Inductive variable : Type :=
| v_displacement_lat | v_displacement_lon | v_pressure | v_windspeed
| v_winddirection | v_temperature | v_dewpoint | v_gpm | v_time.

Definition variables : list variable :=
  [v_displacement_lat; v_displacement_lon; v_pressure; v_windspeed;
   v_winddirection; v_temperature; v_dewpoint; v_gpm; v_time].

Definition variable_eqb (a b : variable) : bool :=
  match a, b with
  | v_displacement_lat, v_displacement_lat
  | v_displacement_lon, v_displacement_lon
  | v_pressure, v_pressure
  | v_windspeed, v_windspeed
  | v_winddirection, v_winddirection
  | v_temperature, v_temperature
  | v_dewpoint, v_dewpoint
  | v_gpm, v_gpm
  | v_time, v_time => true
  | _, _ => false
  end.

Section Attributes.
Context {S : Type}.

Definition get_var (v : variable) (s : Sounding S) : S :=
  match v with
  | v_displacement_lat => displacement_lat s
  | v_displacement_lon => displacement_lon s
  | v_pressure => pressure s
  | v_windspeed => windspeed s
  | v_winddirection => winddirection s
  | v_temperature => temperature s
  | v_dewpoint => dewpoint s
  | v_gpm => gpm s
  | v_time => time s
  end.

Definition get_unit (v : variable) (s : Sounding S) : pyval :=
  match v with
  | v_displacement_lat => displacement_lat_unit s
  | v_displacement_lon => displacement_lon_unit s
  | v_pressure => pressure_unit s
  | v_windspeed => windspeed_unit s
  | v_winddirection => winddirection_unit s
  | v_temperature => temperature_unit s
  | v_dewpoint => dewpoint_unit s
  | v_gpm => gpm_unit s
  | v_time => time_unit s
  end.

(** [sounding.__dict__[var] = x] and [sounding.__dict__[var+'_unit'] = u]:
    every other attribute keeps its value. *)
Definition set_attr (v : variable) (x : S) (u : pyval) (s : Sounding S)
  : Sounding S :=
  let pick (w : variable) := if variable_eqb v w then x else get_var w s in
  let unit (w : variable) := if variable_eqb v w then u else get_unit w s in
  {| station_lat := station_lat s;
     station_lon := station_lon s;
     sounding_start_time := sounding_start_time s;
     time := pick v_time; time_unit := unit v_time;
     pressure := pick v_pressure; pressure_unit := unit v_pressure;
     temperature := pick v_temperature;
     temperature_unit := unit v_temperature;
     dewpoint := pick v_dewpoint; dewpoint_unit := unit v_dewpoint;
     windspeed := pick v_windspeed; windspeed_unit := unit v_windspeed;
     winddirection := pick v_winddirection;
     winddirection_unit := unit v_winddirection;
     gpm := pick v_gpm; gpm_unit := unit v_gpm;
     displacement_lat := pick v_displacement_lat;
     displacement_lat_unit := unit v_displacement_lat;
     displacement_lon := pick v_displacement_lon;
     displacement_lon_unit := unit v_displacement_lon;
     meta_data := meta_data s;
     ascentrate := ascentrate s;
     relativehumidity := relativehumidity s;
     mixingratio := mixingratio s;
     latitude := latitude s;
     longitude := longitude s;
     direction := direction s |}.

Definition set_var (v : variable) (x : S) (s : Sounding S) : Sounding S :=
  set_attr v x (get_unit v s) s.

Definition set_unit (v : variable) (u : pyval) (s : Sounding S) : Sounding S :=
  set_attr v (get_var v s) u s.

(** The part of a Sounding that no per-variable loop writes. *)
Definition same_frame (s s' : Sounding S) : Prop :=
  station_lat s' = station_lat s /\
  station_lon s' = station_lon s /\
  sounding_start_time s' = sounding_start_time s /\
  meta_data s' = meta_data s /\
  ascentrate s' = ascentrate s /\
  relativehumidity s' = relativehumidity s /\
  mixingratio s' = mixingratio s /\
  latitude s' = latitude s /\
  longitude s' = longitude s /\
  direction s' = direction s.
End Attributes.

(* ================================================================= *)
(** ** [replace_missing_data] *)

(** [replace_none]: [np.nan] for [None], the entry itself otherwise. *)
Definition replace_none (entry : pyval) : pyval :=
  if py_eq entry PNone then PFloat FNaN else entry.

Definition replace_missing_data (sounding : Sounding pylist) : Sounding pylist :=
  fold_left
    (fun s var => set_var var (map replace_none (get_var var s)) s)
    variables sounding.

(* ================================================================= *)
(** ** Python dicts

    A dict is an association list in insertion order.  Assigning to a key
    already present replaces its value in place; otherwise the entry is
    added at the end. *)

Abbreviation dict V := (list (string * V)) (only parsing).

Fixpoint dict_get {V : Type} (d : dict V) (k : string) : option V :=
  match d with
  | [] => None
  | (k', v) :: d' => if String.eqb k' k then Some v else dict_get d' k
  end.

Fixpoint dict_set {V : Type} (d : dict V) (k : string) (v : V) : dict V :=
  match d with
  | [] => [(k, v)]
  | (k', v') :: d' =>
      if String.eqb k' k then (k', v) :: d' else (k', v') :: dict_set d' k v
  end.

Definition dict_keys {V : Type} (d : dict V) : list string := map fst d.

(** [d[k]] *)
Definition getitem {V : Type} (d : dict V) (k : string) : result V :=
  match dict_get d k with
  | Some v => Ok v
  | None => Raise (KeyError k)
  end.

(* ================================================================= *)
(** ** [convert_json_to_arrays] *)

Definition new_Sounding : Sounding pylist :=
  {| station_lat := PNone; station_lon := PNone;
     sounding_start_time := None;
     time := []; time_unit := PNone;
     pressure := []; pressure_unit := PNone;
     temperature := []; temperature_unit := PNone;
     dewpoint := []; dewpoint_unit := PNone;
     windspeed := []; windspeed_unit := PNone;
     winddirection := []; winddirection_unit := PNone;
     gpm := []; gpm_unit := PNone;
     displacement_lat := []; displacement_lat_unit := PNone;
     displacement_lon := []; displacement_lon_unit := PNone;
     meta_data := [];
     ascentrate := None; relativehumidity := None; mixingratio := None;
     latitude := None; longitude := None; direction := None |}.

(** One [if len(self.time) > len(self.x): self.x.append(np.nan)]. *)
Definition pad_series (v : variable) (s : Sounding pylist) : Sounding pylist :=
  if (length (get_var v s) <? length (time s))%nat
  then set_var v (get_var v s ++ [PFloat FNaN]) s
  else s.

Definition _ensure_measurement_integrity (s : Sounding pylist) : Sounding pylist :=
  let s := pad_series v_temperature s in
  let s := pad_series v_gpm s in
  let s := pad_series v_dewpoint s in
  let s := pad_series v_pressure s in
  let s := pad_series v_windspeed s in
  let s := pad_series v_winddirection s in
  let s := pad_series v_displacement_lat s in
  s.

(** The body shared by the branches of the tracked variables: append the
    value, then record the unit or compare it with the recorded one. *)
Definition record_sample (v : variable) (json_flat : dict pyval)
    (key_key : string) (s : Sounding pylist) : result (Sounding pylist) :=
  value <- getitem json_flat (key_key ++ "_value")%string ;;
  let s := set_var v (get_var v s ++ [value]) s in
  units <- getitem json_flat (key_key ++ "_units")%string ;;
  if is_None (get_unit v s) then Ok (set_unit v units s)
  else if negb (py_eq (get_unit v s) units)
       then Raise (UnitChangedError (get_unit v s) units)
       else Ok s.

Definition set_station_lat (x : pyval) (s : Sounding pylist) : Sounding pylist :=
  mkSounding x (station_lon s) (sounding_start_time s)
    (time s) (time_unit s) (pressure s) (pressure_unit s)
    (temperature s) (temperature_unit s) (dewpoint s) (dewpoint_unit s)
    (windspeed s) (windspeed_unit s) (winddirection s) (winddirection_unit s)
    (gpm s) (gpm_unit s) (displacement_lat s) (displacement_lat_unit s)
    (displacement_lon s) (displacement_lon_unit s) (meta_data s)
    (ascentrate s) (relativehumidity s) (mixingratio s)
    (latitude s) (longitude s) (direction s).

Definition set_station_lon (x : pyval) (s : Sounding pylist) : Sounding pylist :=
  mkSounding (station_lat s) x (sounding_start_time s)
    (time s) (time_unit s) (pressure s) (pressure_unit s)
    (temperature s) (temperature_unit s) (dewpoint s) (dewpoint_unit s)
    (windspeed s) (windspeed_unit s) (winddirection s) (winddirection_unit s)
    (gpm s) (gpm_unit s) (displacement_lat s) (displacement_lat_unit s)
    (displacement_lon s) (displacement_lon_unit s) (meta_data s)
    (ascentrate s) (relativehumidity s) (mixingratio s)
    (latitude s) (longitude s) (direction s).

Definition set_sounding_start_time (t : datetime) (s : Sounding pylist)
  : Sounding pylist :=
  mkSounding (station_lat s) (station_lon s) (Some t)
    (time s) (time_unit s) (pressure s) (pressure_unit s)
    (temperature s) (temperature_unit s) (dewpoint s) (dewpoint_unit s)
    (windspeed s) (windspeed_unit s) (winddirection s) (winddirection_unit s)
    (gpm s) (gpm_unit s) (displacement_lat s) (displacement_lat_unit s)
    (displacement_lon s) (displacement_lon_unit s) (meta_data s)
    (ascentrate s) (relativehumidity s) (mixingratio s)
    (latitude s) (longitude s) (direction s).

(** [s.meta_data[k] = x] *)
Definition set_meta (k : string) (x : metaval) (s : Sounding pylist)
  : Sounding pylist :=
  mkSounding (station_lat s) (station_lon s) (sounding_start_time s)
    (time s) (time_unit s) (pressure s) (pressure_unit s)
    (temperature s) (temperature_unit s) (dewpoint s) (dewpoint_unit s)
    (windspeed s) (windspeed_unit s) (winddirection s) (winddirection_unit s)
    (gpm s) (gpm_unit s) (displacement_lat s) (displacement_lat_unit s)
    (displacement_lon s) (displacement_lon_unit s)
    (dict_set (meta_data s) k x)
    (ascentrate s) (relativehumidity s) (mixingratio s)
    (latitude s) (longitude s) (direction s).

(** The state of the scan: the Sounding under construction and the six local
    variables of the launch time, unbound ([None]) until first assigned. *)
Record scan : Type := mkScan {
  sc_s : Sounding pylist;
  sc_year : option pyval;
  sc_month : option pyval;
  sc_day : option pyval;
  sc_hour : option pyval;
  sc_minute : option pyval;
  sc_second : option pyval
}.

Definition with_s (st : scan) (s : Sounding pylist) : scan :=
  mkScan s (sc_year st) (sc_month st) (sc_day st)
         (sc_hour st) (sc_minute st) (sc_second st).

Definition new_scan : scan := mkScan new_Sounding None None None None None None.

(** The branch taken for a decoded field name. *)
Definition dispatch (name : string) (json_flat : dict pyval) (key_key : string)
    (st : scan) : result scan :=
  let s := sc_s st in
  let value := getitem json_flat (key_key ++ "_value")%string in
  let sample (v : variable) :=
    s' <- record_sample v json_flat key_key s ;; Ok (with_s st s') in
  if String.eqb name "latitude" then
    x <- value ;; Ok (with_s st (set_station_lat x s))
  else if String.eqb name "longitude" then
    x <- value ;; Ok (with_s st (set_station_lon x s))
  else if String.eqb name "pressure" then sample v_pressure
  else if String.eqb name "windSpeed" then sample v_windspeed
  else if String.eqb name "windDirection" then sample v_winddirection
  else if String.eqb name "nonCoordinateGeopotentialHeight" then sample v_gpm
  else if String.eqb name "airTemperature" then sample v_temperature
  else if String.eqb name "dewpointTemperature" then sample v_dewpoint
  else if String.eqb name "latitudeDisplacement" then sample v_displacement_lat
  else if String.eqb name "longitudeDisplacement" then sample v_displacement_lon
  else if String.eqb name "timePeriod" then
    s' <- record_sample v_time json_flat key_key
            (_ensure_measurement_integrity s) ;;
    Ok (with_s st s')
  else if String.eqb name "year" then
    x <- value ;;
    Ok (mkScan s (Some x) (sc_month st) (sc_day st)
               (sc_hour st) (sc_minute st) (sc_second st))
  else if String.eqb name "month" then
    x <- value ;;
    Ok (mkScan s (sc_year st) (Some x) (sc_day st)
               (sc_hour st) (sc_minute st) (sc_second st))
  else if String.eqb name "day" then
    x <- value ;;
    Ok (mkScan s (sc_year st) (sc_month st) (Some x)
               (sc_hour st) (sc_minute st) (sc_second st))
  else if String.eqb name "hour" then
    x <- value ;;
    Ok (mkScan s (sc_year st) (sc_month st) (sc_day st)
               (Some x) (sc_minute st) (sc_second st))
  else if String.eqb name "minute" then
    x <- value ;;
    Ok (mkScan s (sc_year st) (sc_month st) (sc_day st)
               (sc_hour st) (Some x) (sc_second st))
  else if String.eqb name "second" then
    x <- value ;;
    Ok (mkScan s (sc_year st) (sc_month st) (sc_day st)
               (sc_hour st) (sc_minute st) (Some x))
  else if String.eqb name "radiosondeSerialNumber" then
    x <- value ;; Ok (with_s st (set_meta "sonde_serial_number" (MVal x) s))
  else if String.eqb name "softwareVersionNumber" then
    x <- value ;; Ok (with_s st (set_meta "softwareVersionNumber" (MVal x) s))
  else if String.eqb name "radiosondeType" then
    x <- value ;; Ok (with_s st (set_meta "radiosondeType" (MVal x) s))
  else if String.eqb name "unexpandedDescriptors" then
    match value with
    | Ok x => Ok (with_s st (set_meta "bufr_msg" (MVal x) s))
    | Raise (KeyError _) =>
        Ok (with_s st (set_meta "bufr_msg" (MVal (PInt 309053)) s))
    | Raise e => Raise e
    end
  else if String.eqb name "radiosondeOperatingFrequency" then
    x <- value ;;
    u <- getitem json_flat (key_key ++ "_units")%string ;;
    match u with
    | PStr u => Ok (with_s st (set_meta "sonde_frequency" (MStrCat x u) s))
    | _ => Raise TypeError
    end
  else Ok st.

(** One iteration of [for key_key in key_keys].  A field name that is not a
    string equals none of the literals, so no branch is taken. *)
Definition scan_step (json_flat : dict pyval) (st : scan) (key_key : string)
  : result scan :=
  k <- getitem json_flat (key_key ++ "_key")%string ;;
  match k with
  | PStr name => dispatch name json_flat key_key st
  | _ => Ok st
  end.

Fixpoint scan_keys (json_flat : dict pyval) (key_keys : list string) (st : scan)
  : result scan :=
  match key_keys with
  | [] => Ok st
  | key_key :: rest =>
      st' <- scan_step json_flat st key_key ;;
      scan_keys json_flat rest st'
  end.

(** *** [datetime.datetime(year, month, day, hour, minute, second)] *)

Definition is_leap (y : Z) : bool :=
  ((y mod 4 =? 0) && (negb (y mod 100 =? 0) || (y mod 400 =? 0)))%Z.

Definition days_in_month (y m : Z) : Z :=
  if (m =? 2)%Z then (if is_leap y then 29 else 28)%Z
  else if ((m =? 4) || (m =? 6) || (m =? 9) || (m =? 11))%Z then 30%Z
  else 31%Z.

(** An argument converted to a C [int]. *)
Definition as_c_int (v : pyval) : result Z :=
  let check (z : Z) :=
    if ((- 2 ^ 31 <=? z) && (z <? 2 ^ 31))%Z then Ok z else Raise OverflowError in
  match v with
  | PInt z => check z
  | PBool b => Ok (if b then 1 else 0)%Z
  | _ => Raise TypeError
  end.

Definition make_datetime (year month day hour minute second : pyval)
  : result datetime :=
  y <- as_c_int year ;;
  mo <- as_c_int month ;;
  d <- as_c_int day ;;
  h <- as_c_int hour ;;
  mi <- as_c_int minute ;;
  se <- as_c_int second ;;
  if ((1 <=? y) && (y <=? 9999) && (1 <=? mo) && (mo <=? 12) &&
      (1 <=? d) && (d <=? days_in_month y mo) &&
      (0 <=? h) && (h <=? 23) && (0 <=? mi) && (mi <=? 59) &&
      (0 <=? se) && (se <=? 59))%Z
  then Ok (mkDatetime y mo d h mi se)
  else Raise ValueError.

(** Reading a local variable. *)
Definition local (name : string) (x : option pyval) : result pyval :=
  match x with
  | Some v => Ok v
  | None => Raise (UnboundLocalError name)
  end.

Definition convert_json_to_arrays (json_flat : dict pyval)
    (key_keys : list string) : result (Sounding pylist) :=
  st <- scan_keys json_flat key_keys new_scan ;;
  let s := _ensure_measurement_integrity (sc_s st) in
  year <- local "year" (sc_year st) ;;
  month <- local "month" (sc_month st) ;;
  day <- local "day" (sc_day st) ;;
  hour <- local "hour" (sc_hour st) ;;
  minute <- local "minute" (sc_minute st) ;;
  second <- local "second" (sc_second st) ;;
  t <- make_datetime year month day hour minute second ;;
  Ok (set_sounding_start_time t s).

(* ================================================================= *)
(** ** [get_sounding_direction] *)

(** A message-format identifier: the integer decoded from the message (or
    the fallback [309053]), or its spelling as a string. *)
Inductive bufr_id : Type :=
| IdInt (z : Z)
| IdStr (s : string).

(** [str(n)] for an [int]. *)
Definition str_int (z : Z) : string :=
  DecimalString.NilZero.string_of_int (Z.to_int z).

(** [str(bufr_msg)] *)
Definition str_id (bufr_msg : bufr_id) : string :=
  match bufr_msg with
  | IdInt z => str_int z
  | IdStr s => s
  end.

Definition get_sounding_direction (bufr_msg : bufr_id) : result Z :=
  if String.eqb (str_id bufr_msg) "309053" then Ok (-1)%Z
  else if String.eqb (str_id bufr_msg) "309056" then Ok (-1)%Z
  else if String.eqb (str_id bufr_msg) "309057" then Ok 1%Z
  else Raise (NotImplementedError
                ("The bufr message format " ++ str_id bufr_msg
                 ++ " is not implemented")%string).

(* ================================================================= *)
(** ** Binary64 rounding *)

(** The fraction [n / d * 2 ^ s]. *)
Definition scale2 (n d s : Z) : Z * Z :=
  if (0 <=? s)%Z then (n * 2 ^ s, d)%Z else (n, d * 2 ^ (- s))%Z.

(** The binary exponent of [n / d] for positive [n] and [d]: the [e] with
    [2 ^ e <= n / d < 2 ^ (e + 1)]. *)
Definition ilog2 (n d : Z) : Z :=
  let e0 := (Z.log2 n - Z.log2 d)%Z in
  let (a, b) := scale2 n d (- e0) in
  if (a <? b)%Z then (e0 - 1)%Z else e0.

(** The integer nearest to [a / b], a tie going to the even one. *)
Definition round_half_even (a b : Z) : Z :=
  let q := (a / b)%Z in
  match (2 * (a mod b) ?= b)%Z with
  | Lt => q
  | Gt => (q + 1)%Z
  | Eq => if Z.even q then q else (q + 1)%Z
  end.

(** The binary64 number nearest to a rational, as the processor rounds the
    exact result of an operation: 53 significant bits, ties to even,
    exponents from [-1022] to [1023], gradual underflow below and an
    infinity from [2 ^ 1024 - 2 ^ 970] on. *)
Definition round64 (q : Qc) : pyfloat :=
  let n := Qnum (this q) in
  let d := Zpos (Qden (this q)) in
  if (n =? 0)%Z then FFin q
  else
    let e := ilog2 (Z.abs n) d in
    let s := (52 - Z.max e (-1022))%Z in
    let (a, b) := scale2 (Z.abs n) d s in
    let m := (Z.sgn n * round_half_even a b)%Z in
    if (0 <? s)%Z then FFin (Q2Qc (Qred (Qmake m (Z.to_pos (2 ^ s)))))
    else if (2 ^ 1024 <=? Z.abs m * 2 ^ (- s))%Z then FInf (n <? 0)%Z
    else FFin (Qz (m * 2 ^ (- s))).

Arguments round64 : simpl never.

(** A decimal float literal of the source. *)
Definition float_lit (q : Q) : pyfloat := round64 (Q2Qc q).

(* ================================================================= *)
(** ** Float arithmetic on array elements *)

Definition Qc_neg (q : Qc) : bool := (Qnum (this q) <? 0)%Z.
Definition Qc_zero (q : Qc) : bool := (Qnum (this q) =? 0)%Z.

Definition fneg (a : pyfloat) : pyfloat :=
  match a with
  | FNaN => FNaN
  | FInf s => FInf (negb s)
  | FFin q => FFin (- q)%Qc
  end.

Definition fadd (a b : pyfloat) : pyfloat :=
  match a, b with
  | FNaN, _ | _, FNaN => FNaN
  | FInf s, FInf t => if Bool.eqb s t then FInf s else FNaN
  | FInf s, FFin _ => FInf s
  | FFin _, FInf t => FInf t
  | FFin p, FFin q => round64 (p + q)%Qc
  end.

Definition fsub (a b : pyfloat) : pyfloat := fadd a (fneg b).

Definition fabs (a : pyfloat) : pyfloat :=
  match a with
  | FNaN => FNaN
  | FInf _ => FInf false
  | FFin q => FFin (if Qc_neg q then - q else q)%Qc
  end.

(** Division as NumPy performs it on arrays: a zero divisor gives an infinity
    or NaN, never an exception.  The divisor zero is taken as [+0.0]. *)
Definition fdiv (a b : pyfloat) : pyfloat :=
  match a, b with
  | FNaN, _ | _, FNaN => FNaN
  | FInf _, FInf _ => FNaN
  | FInf s, FFin q => FInf (xorb s (Qc_neg q))
  | FFin _, FInf _ => FFin (Qz 0)
  | FFin p, FFin q =>
      if Qc_zero q
      then (if Qc_zero p then FNaN else FInf (Qc_neg p))
      else round64 (p / q)%Qc
  end.

(* ================================================================= *)
(** ** Unit conversion *)

Definition kelvin_to_celsius (kelvin : ndarray) : ndarray :=
  map (fun x => fsub x (float_lit 273.15)) kelvin.

Definition pascal_to_hectoPascal (pascal : ndarray) : ndarray :=
  map (fun x => fdiv x (FFin (Qz 100))) pascal.

Definition converter_dict : dict (ndarray -> ndarray) :=
  [("K-->C", kelvin_to_celsius);
   ("K-->degC", kelvin_to_celsius);
   ("Pa-->hPa", pascal_to_hectoPascal)].

Definition expected_bufr_units : list string :=
  ["deg"; "deg"; "Pa"; "m/s"; "deg"; "K"; "K"; "gpm"; "s"].

Definition expected_output_units : list string :=
  ["deg"; "deg"; "hPa"; "m/s"; "deg"; "degC"; "degC"; "gpm"; "s"].

(** The body of the loop of [expected_unit_check] for index [v] and name
    [var].  ['-->'.join] of a unit that is not a string is a [TypeError],
    which the [except KeyError] clause does not catch. *)
Definition check_unit (v : nat) (var : variable) (sounding : Sounding ndarray)
  : result (Sounding ndarray) :=
  let target := nth v expected_output_units "" in
  if negb (py_eq (get_unit var sounding) (PStr target)) then
    match get_unit var sounding with
    | PStr u =>
        match dict_get converter_dict (u ++ "-->" ++ target)%string with
        | None =>
            Raise (UnexpectedUnit (nth v expected_bufr_units "") (PStr u))
        | Some func =>
            Ok (set_attr var (func (get_var var sounding)) (PStr target)
                         sounding)
        end
    | _ => Raise TypeError
    end
  else Ok sounding.

(** [for v, var in enumerate(xs)] with a body that may raise. *)
Fixpoint for_enumerate {X A : Type} (body : nat -> X -> A -> result A)
    (v : nat) (xs : list X) (a : A) : result A :=
  match xs with
  | [] => Ok a
  | var :: rest => a' <- body v var a ;; for_enumerate body (S v) rest a'
  end.

Definition expected_unit_check (sounding : Sounding ndarray)
  : result (Sounding ndarray) :=
  for_enumerate check_unit 0 variables sounding.

(* ================================================================= *)
(** ** Array indexing *)

(** [a[mask]] with a boolean array: the lengths must agree, except that an
    empty mask is not checked against the array and selects nothing. *)
Definition bool_index {A : Type} (a : list A) (mask : list bool)
  : result (list A) :=
  match mask with
  | [] => Ok []
  | _ :: _ =>
      if length mask =? length a
      then Ok (map snd (filter fst (combine mask a)))
      else Raise IndexError
  end.

(** [a[idx]] with an array of non-negative integers. *)
Fixpoint take {A : Type} (a : list A) (idx : list nat) : result (list A) :=
  match idx with
  | [] => Ok []
  | i :: rest =>
      match nth_error a i with
      | Some x => xs <- take a rest ;; Ok (x :: xs)
      | None => Raise IndexError
      end
  end.

(** Reading an attribute attached after construction. *)
Definition attr {A : Type} (name : string) (x : option A) : result A :=
  match x with
  | Some a => Ok a
  | None => Raise (AttributeError name)
  end.

(* ================================================================= *)
(** ** Sorting by time *)

(** The order [np.argsort] sorts floats by: numeric, NaN last. *)
Definition fle (a b : pyfloat) : bool :=
  match a, b with
  | _, FNaN => true
  | FNaN, _ => false
  | FInf true, _ => true
  | _, FInf false => true
  | FInf false, _ => false
  | _, FInf true => false
  | FFin p, FFin q => Qle_bool p q
  end.

(** [-np.inf * direction] for an integer [direction]. *)
Definition neg_inf_times (direction : Z) : pyfloat :=
  match direction with
  | Z0 => FNaN
  | Zpos _ => FInf true
  | Zneg _ => FInf false
  end.

(** The array handed to [np.argsort]: [array] with its NaN entries replaced
    by [-np.inf * direction]. *)
Definition sort_keys (array : ndarray) (direction : Z) : ndarray :=
  map (fun x => if isnan x then neg_inf_times direction else x) array.

Section ArgsortClient.
(** [np.argsort] with its default [kind]. *)
Variable argsort : ndarray -> list nat.

Definition nan_argsort (array : ndarray) (direction : Z) : list nat :=
  argsort (sort_keys array direction).

Definition sort_sounding_by_time (sounding : Sounding ndarray)
  : result (Sounding ndarray) :=
  d <- attr "direction" (direction sounding) ;;
  let sorter := nan_argsort (time sounding) d in
  time' <- take (time sounding) sorter ;;
  a <- attr "ascentrate" (ascentrate sounding) ;;
  ascentrate' <- take a sorter ;;
  gpm' <- take (gpm sounding) sorter ;;
  pressure' <- take (pressure sounding) sorter ;;
  temperature' <- take (temperature sounding) sorter ;;
  a <- attr "relativehumidity" (relativehumidity sounding) ;;
  relativehumidity' <- take a sorter ;;
  dewpoint' <- take (dewpoint sounding) sorter ;;
  a <- attr "mixingratio" (mixingratio sounding) ;;
  mixingratio' <- take a sorter ;;
  windspeed' <- take (windspeed sounding) sorter ;;
  winddirection' <- take (winddirection sounding) sorter ;;
  a <- attr "latitude" (latitude sounding) ;;
  latitude' <- take a sorter ;;
  a <- attr "longitude" (longitude sounding) ;;
  longitude' <- take a sorter ;;
  Ok {| station_lat := station_lat sounding;
        station_lon := station_lon sounding;
        sounding_start_time := sounding_start_time sounding;
        time := time'; time_unit := time_unit sounding;
        pressure := pressure'; pressure_unit := pressure_unit sounding;
        temperature := temperature';
        temperature_unit := temperature_unit sounding;
        dewpoint := dewpoint'; dewpoint_unit := dewpoint_unit sounding;
        windspeed := windspeed'; windspeed_unit := windspeed_unit sounding;
        winddirection := winddirection';
        winddirection_unit := winddirection_unit sounding;
        gpm := gpm'; gpm_unit := gpm_unit sounding;
        displacement_lat := displacement_lat sounding;
        displacement_lat_unit := displacement_lat_unit sounding;
        displacement_lon := displacement_lon sounding;
        displacement_lon_unit := displacement_lon_unit sounding;
        meta_data := meta_data sounding;
        ascentrate := Some ascentrate';
        relativehumidity := Some relativehumidity';
        mixingratio := Some mixingratio';
        latitude := Some latitude';
        longitude := Some longitude';
        direction := direction sounding |}.
End ArgsortClient.

(** What [np.argsort] guarantees for its default kind (quicksort, which is
    not stable): the result is a permutation of the indices and lists the
    keys in nondecreasing order.  The order of indices with equal keys is
    not specified. *)
Definition key_le (a : ndarray) (i j : nat) : Prop :=
  fle (nth i a FNaN) (nth j a FNaN) = true.

Definition argsort_spec (argsort : ndarray -> list nat) : Prop :=
  forall a : ndarray,
    Permutation (argsort a) (seq 0 (length a)) /\
    StronglySorted (key_le a) (argsort a).

(** A sort meeting the contract, by insertion from the right; it keeps
    indices of equal keys in increasing order (a stable sort). *)
Fixpoint insert_by (le : nat -> nat -> bool) (i : nat) (l : list nat)
  : list nat :=
  match l with
  | [] => [i]
  | j :: l' => if le i j then i :: l else j :: insert_by le i l'
  end.

Definition isort_by (le : nat -> nat -> bool) (l : list nat) : list nat :=
  fold_right (insert_by le) [] l.

Definition key_leb (a : ndarray) (i j : nat) : bool :=
  fle (nth i a FNaN) (nth j a FNaN).

Definition argsort_stable (a : ndarray) : list nat :=
  isort_by (key_leb a) (seq 0 (length a)).

(* ================================================================= *)
(** ** [exclude_1000hPa_gpm] *)

Definition exclude_1000hPa_gpm (sounding : Sounding ndarray)
  : result (Sounding ndarray) :=
  let nan_mask := map (fun x => negb (isnan x)) (time sounding) in
  time' <- bool_index (time sounding) nan_mask ;;
  a <- attr "ascentrate" (ascentrate sounding) ;;
  ascentrate' <- bool_index a nan_mask ;;
  gpm' <- bool_index (gpm sounding) nan_mask ;;
  pressure' <- bool_index (pressure sounding) nan_mask ;;
  temperature' <- bool_index (temperature sounding) nan_mask ;;
  a <- attr "relativehumidity" (relativehumidity sounding) ;;
  relativehumidity' <- bool_index a nan_mask ;;
  dewpoint' <- bool_index (dewpoint sounding) nan_mask ;;
  a <- attr "mixingratio" (mixingratio sounding) ;;
  mixingratio' <- bool_index a nan_mask ;;
  windspeed' <- bool_index (windspeed sounding) nan_mask ;;
  winddirection' <- bool_index (winddirection sounding) nan_mask ;;
  a <- attr "latitude" (latitude sounding) ;;
  latitude' <- bool_index a nan_mask ;;
  a <- attr "longitude" (longitude sounding) ;;
  longitude' <- bool_index a nan_mask ;;
  Ok {| station_lat := station_lat sounding;
        station_lon := station_lon sounding;
        sounding_start_time := sounding_start_time sounding;
        time := time'; time_unit := time_unit sounding;
        pressure := pressure'; pressure_unit := pressure_unit sounding;
        temperature := temperature';
        temperature_unit := temperature_unit sounding;
        dewpoint := dewpoint'; dewpoint_unit := dewpoint_unit sounding;
        windspeed := windspeed'; windspeed_unit := windspeed_unit sounding;
        winddirection := winddirection';
        winddirection_unit := winddirection_unit sounding;
        gpm := gpm'; gpm_unit := gpm_unit sounding;
        displacement_lat := displacement_lat sounding;
        displacement_lat_unit := displacement_lat_unit sounding;
        displacement_lon := displacement_lon sounding;
        displacement_lon_unit := displacement_lon_unit sounding;
        meta_data := meta_data sounding;
        ascentrate := Some ascentrate';
        relativehumidity := Some relativehumidity';
        mixingratio := Some mixingratio';
        latitude := Some latitude';
        longitude := Some longitude';
        direction := direction sounding |}.

(* ================================================================= *)
(** ** [calc_temporal_resolution] *)

(** [np.diff] *)
Fixpoint diff (a : ndarray) : ndarray :=
  match a with
  | x :: (y :: _) as rest => fsub y x :: diff rest
  | _ => []
  end.

(** [np.ma.compressed] of an array that carries no mask: all of its data,
    NaN entries included. *)
Definition ma_compressed (a : ndarray) : ndarray := a.

Definition INT64_MIN : Z := (- 2 ^ 63)%Z.

(** [.astype(int)] of one element: truncation toward zero.  NaN, the
    infinities and values out of range give [INT64_MIN], as on x86-64. *)
Definition astype_int (f : pyfloat) : Z :=
  match f with
  | FFin q =>
      let t := Z.quot (Qnum (this q)) (Zpos (Qden (this q))) in
      if ((INT64_MIN <=? t) && (t <? 2 ^ 63))%Z then t else INT64_MIN
  | _ => INT64_MIN
  end.

(** [np.bincount]: the number of occurrences of each value from [0] to the
    largest one; a negative element is a [ValueError].  NumPy allocates one
    counter for each value up to the largest and fails where that much
    memory is not to be had; the list of counters here has no such limit, it
    stands for [np.bincount] on values for which the allocation succeeds. *)
Definition bincount (x : list Z) : result (list nat) :=
  if existsb (fun v => (v <? 0)%Z) x then Raise ValueError
  else
    let bins :=
      match x with
      | [] => 0
      | _ => S (Z.to_nat (fold_right Z.max 0%Z x))
      end in
    Ok (map (fun b => count_occ Z.eq_dec x (Z.of_nat b)) (seq 0 bins)).

(** [np.argmax]: the first index of the largest element. *)
Fixpoint argmax_from (best_i best i : nat) (l : list nat) : nat :=
  match l with
  | [] => best_i
  | c :: l' =>
      if best <? c then argmax_from i c (S i) l'
      else argmax_from best_i best (S i) l'
  end.

Definition argmax (l : list nat) : result nat :=
  match l with
  | [] => Raise ValueError
  | c :: l' => Ok (argmax_from 0 c 1 l')
  end.

Definition calc_temporal_resolution (sounding : Sounding ndarray)
  : result pyfloat :=
  let time_differences := map fabs (diff (ma_compressed (time sounding))) in
  time_differences_counts <- bincount (map astype_int time_differences) ;;
  i <- argmax time_differences_counts ;;
  match nth_error time_differences i with
  | Some most_common_diff => Ok most_common_diff
  | None => Raise IndexError
  end.

(** The documented result, for comparison: the sampling intervals of the
    non-missing time stamps, and what it means to be their mode. *)
Definition sampling_intervals (t : ndarray) : list Z :=
  map astype_int (map fabs (diff (filter (fun x => negb (isnan x)) t))).

Definition is_mode (l : list Z) (m : Z) : Prop :=
  In m l /\ forall v, count_occ Z.eq_dec l v <= count_occ Z.eq_dec l m.

(* ================================================================= *)
(** ** [flatten_json] *)

Inductive json : Type :=
| JLeaf (v : pyval)
| JList (l : list json)
| JDict (d : list (string * json)).

Definition digit_char (d : N) : ascii :=
  ascii_of_N (48 + d mod 10).

(** The [w] low decimal digits of [n], least significant first. *)
Fixpoint low_digits (w : nat) (n : N) : list ascii :=
  match w with
  | O => []
  | S w' => digit_char n :: low_digits w' (n / 10)%N
  end.

(** The [w] low decimal digits of [n], most significant first. *)
Definition fixed_digits (w : nat) (n : N) : list ascii :=
  rev (low_digits w n).

Fixpoint ndigits_aux (fuel : nat) (n : N) : nat :=
  match fuel with
  | O => 1
  | S f => if (n <? 10)%N then 1 else S (ndigits_aux f (n / 10)%N)
  end.

(** The number of decimal digits of [n]. *)
Definition ndigits (n : N) : nat := ndigits_aux (N.size_nat n) n.

Fixpoint strip_zeros_rev (l : list ascii) : list ascii :=
  match l with
  | c :: l' => if Ascii.eqb c "0"%char then strip_zeros_rev l' else l
  | [] => []
  end.

Definition strip_trailing_zeros (l : list ascii) : list ascii :=
  rev (strip_zeros_rev (rev l)).

Definition zfill (w : nat) (l : list ascii) : list ascii :=
  repeat "0"%char (w - length l) ++ l.

(** ['{:07g}'.format(r)] for a counter [r >= 0]: six significant digits,
    zero-padded to width seven.  Below [10^6] this is the integer itself on
    seven digits.  From [10^6] on it is the scientific notation of [r]
    rounded half-to-even to six digits, trailing zeros of the mantissa
    removed (['001e+06'] for [10^6], ['1.23457e+06'] for [1234567]); this
    branch is exact for counters below [2^53]. *)
Definition format_07g (r : N) : string :=
  if (r <? 10 ^ 6)%N then string_of_list_ascii (fixed_digits 7 r)
  else
    let nd := ndigits r in
    let scale := (10 ^ N.of_nat (nd - 6))%N in
    let m := (r / scale)%N in
    let rem := (r mod scale)%N in
    let half := (scale / 2)%N in
    let up := ((half <? rem) || ((rem =? half) && N.odd m))%N in
    let m := if up then (m + 1)%N else m in
    let '(m, e) := if (m =? 10 ^ 6)%N then ((10 ^ 5)%N, nd) else (m, nd - 1) in
    let mant := fixed_digits 6 m in
    let frac := strip_trailing_zeros (tl mant) in
    let mant_s := hd "0"%char mant
                  :: match frac with [] => [] | _ => "."%char :: frac end in
    let exp_s := zfill 2 (fixed_digits (ndigits (N.of_nat e)) (N.of_nat e)) in
    string_of_list_ascii
      (zfill 7 (mant_s ++ "e"%char :: "+"%char :: exp_s)).

(** The state threaded through the traversal: the global counter [r] and
    the dict [out]. *)
Definition flat_state : Type := (N * dict pyval)%type.

Fixpoint flatten (x : json) (name : string) (st : flat_state) : flat_state :=
  match x with
  | JDict d =>
      (fix each (d : list (string * json)) (st : flat_state) : flat_state :=
         match d with
         | [] => st
         | (a, xa) :: d' => each d' (flatten xa a st)
         end) d st
  | JList l =>
      (fix each (l : list json) (st : flat_state) : flat_state :=
         match l with
         | [] => st
         | a :: l' =>
             let '(r, out) := flatten a "" st in
             each l' ((r + 1)%N, out)
         end) l st
  | JLeaf v =>
      let '(r, out) := st in
      (r, dict_set out (format_07g r ++ "_" ++ name)%string v)
  end.

Definition flatten_json (y : json) : dict pyval :=
  snd (flatten y "" (0%N, [])).

(** The leaves of a document in traversal order, each with the field name it
    is reached under. *)
Fixpoint leaves (x : json) (name : string) : list (string * pyval) :=
  match x with
  | JDict d =>
      (fix each (d : list (string * json)) : list (string * pyval) :=
         match d with
         | [] => []
         | (a, xa) :: d' => leaves xa a ++ each d'
         end) d
  | JList l =>
      (fix each (l : list json) : list (string * pyval) :=
         match l with
         | [] => []
         | a :: l' => leaves a "" ++ each l'
         end) l
  | JLeaf v => [(name, v)]
  end.

(** The number of list elements of a document, at every depth. *)
Fixpoint list_elements (x : json) : N :=
  match x with
  | JDict d =>
      (fix each (d : list (string * json)) : N :=
         match d with
         | [] => 0%N
         | (_, xa) :: d' => (list_elements xa + each d')%N
         end) d
  | JList l =>
      (fix each (l : list json) : N :=
         match l with
         | [] => 0%N
         | a :: l' => (list_elements a + 1 + each l')%N
         end) l
  | JLeaf _ => 0%N
  end.

(* ================================================================= *)
(** ** Vocabulary of the statements about the extractor *)

(** The series a decoded field name is appended to, if any. *)
Definition tracked_var (name : string) : option variable :=
  if String.eqb name "latitude" then None
  else if String.eqb name "longitude" then None
  else if String.eqb name "pressure" then Some v_pressure
  else if String.eqb name "windSpeed" then Some v_windspeed
  else if String.eqb name "windDirection" then Some v_winddirection
  else if String.eqb name "nonCoordinateGeopotentialHeight" then Some v_gpm
  else if String.eqb name "airTemperature" then Some v_temperature
  else if String.eqb name "dewpointTemperature" then Some v_dewpoint
  else if String.eqb name "latitudeDisplacement" then Some v_displacement_lat
  else if String.eqb name "longitudeDisplacement" then Some v_displacement_lon
  else if String.eqb name "timePeriod" then Some v_time
  else None.

(** The tracked variable an entry of [key_keys] reports, if any. *)
Definition field_of (json_flat : dict pyval) (key_key : string)
  : option variable :=
  match dict_get json_flat (key_key ++ "_key")%string with
  | Some (PStr name) => tracked_var name
  | _ => None
  end.

(** An occurrence of a tracked variable together with its unit entry. *)
Definition occurrence (json_flat : dict pyval) (key_key : string)
  : option (variable * pyval) :=
  match field_of json_flat key_key,
        dict_get json_flat (key_key ++ "_units")%string with
  | Some v, Some u => Some (v, u)
  | _, _ => None
  end.


(** The field names whose branch reads the [_value] entry without a handler
    for its absence. *)
Definition reads_value (name : string) : bool :=
  negb (String.eqb name "unexpandedDescriptors") &&
  existsb (String.eqb name)
    ["latitude"; "longitude"; "pressure"; "windSpeed"; "windDirection";
     "nonCoordinateGeopotentialHeight"; "airTemperature";
     "dewpointTemperature"; "latitudeDisplacement"; "longitudeDisplacement";
     "timePeriod"; "year"; "month"; "day"; "hour"; "minute"; "second";
     "radiosondeSerialNumber"; "softwareVersionNumber"; "radiosondeType";
     "radiosondeOperatingFrequency"].

Definition has_key (json_flat : dict pyval) (k : string) : bool :=
  match dict_get json_flat k with Some _ => true | None => false end.

(** The input contract of the extractor for one entry: the [_key] entry
    exists, and so do the [_value] and [_units] entries its branch reads;
    the unit of the operating frequency is a string. *)
Definition entry_ok (json_flat : dict pyval) (key_key : string) : bool :=
  match dict_get json_flat (key_key ++ "_key")%string with
  | None => false
  | Some (PStr name) =>
      (negb (reads_value name)
       || has_key json_flat (key_key ++ "_value")%string) &&
      (match tracked_var name with
       | Some _ => has_key json_flat (key_key ++ "_units")%string
       | None => true
       end) &&
      (if String.eqb name "radiosondeOperatingFrequency"
       then match dict_get json_flat (key_key ++ "_units")%string with
            | Some (PStr _) => true
            | _ => false
            end
       else true)
  | Some _ => true
  end.

(** The series [_ensure_measurement_integrity] pads. *)
Definition padded (v : variable) : bool :=
  match v with
  | v_time | v_displacement_lon => false
  | _ => true
  end.

(** [v] is reported at most once after each time stamp and never before the
    first one.  [seen] tells whether the current time step already has its
    sample of [v]. *)
Fixpoint once_per_step (json_flat : dict pyval) (v : variable)
    (key_keys : list string) (seen : bool) : bool :=
  match key_keys with
  | [] => true
  | k :: rest =>
      match field_of json_flat k with
      | Some w =>
          if variable_eqb w v_time then once_per_step json_flat v rest false
          else if variable_eqb w v then
                 negb seen && once_per_step json_flat v rest true
               else once_per_step json_flat v rest seen
      | None => once_per_step json_flat v rest seen
      end
  end.

(** A flattened message used in the examples: the six launch-time fields,
    one time stamp and two pressure reports. *)
Definition record (i : string) (name : string) (value : pyval) (units : pyval)
  : dict pyval :=
  [((i ++ "_key")%string, PStr name);
   ((i ++ "_value")%string, value);
   ((i ++ "_units")%string, units)].

Definition launch_fields : dict pyval :=
  record "0000000" "year" (PInt 2020) PNone ++
  record "0000001" "month" (PInt 1) PNone ++
  record "0000002" "day" (PInt 24) PNone ++
  record "0000003" "hour" (PInt 10) PNone ++
  record "0000004" "minute" (PInt 45) PNone ++
  record "0000005" "second" (PInt 0) PNone.

Definition launch_keys : list string :=
  ["0000000"; "0000001"; "0000002"; "0000003"; "0000004"; "0000005"].

Definition two_pressures : dict pyval :=
  launch_fields ++
  record "0000006" "timePeriod" (PInt 0) (PStr "s") ++
  record "0000007" "pressure" (PInt 101300) (PStr "Pa") ++
  record "0000008" "pressure" (PInt 101200) (PStr "Pa").

Definition two_pressures_keys : list string :=
  launch_keys ++ ["0000006"; "0000007"; "0000008"].

(** One complete time step: the time stamp followed by one report of each
    variable except the longitude displacement. *)
Definition no_longitude : dict pyval :=
  launch_fields ++
  record "0000006" "timePeriod" (PInt 0) (PStr "s") ++
  record "0000007" "pressure" (PInt 101300) (PStr "Pa") ++
  record "0000008" "airTemperature" (PFloat (FFin (Q2Qc 299.5))) (PStr "K").

Definition no_longitude_keys : list string :=
  launch_keys ++ ["0000006"; "0000007"; "0000008"].

(** The same variable reported in kelvin and later in degrees Celsius. *)
Definition unit_change : dict pyval :=
  launch_fields ++
  record "0000006" "timePeriod" (PInt 0) (PStr "s") ++
  record "0000007" "airTemperature" (PFloat (FFin (Q2Qc 299.5))) (PStr "K") ++
  record "0000008" "timePeriod" (PInt 1) (PStr "s") ++
  record "0000009" "airTemperature" (PFloat (FFin (Q2Qc 26.25))) (PStr "degC").




(* ================================================================= *)
(** ** Vocabulary of the proofs about the extractor *)

Definition nan_pad (w : variable) (s : Sounding pylist) : pylist :=
  if length (get_var w s) <? length (time s)
  then get_var w s ++ [PFloat FNaN]
  else get_var w s.

(** The Sounding a sample is appended to: for the time stamp, the one the
    completeness pass returns. *)
Definition pre_step (v : variable) (s : Sounding pylist) : Sounding pylist :=
  if variable_eqb v v_time then _ensure_measurement_integrity s else s.

(** The attributes the statements below are about: the nine series and
    their units. *)
Definition same_series (s s' : Sounding pylist) : Prop :=
  (forall w, get_var w s' = get_var w s) /\
  (forall w, get_unit w s' = get_unit w s).


(** The state of one padded series against the time series: level with it
    when the current time step has its sample, one behind otherwise. *)
Definition in_step (w : variable) (seen : bool) (s : Sounding pylist) : Prop :=
  if seen then length (get_var w s) = length (time s)
  else S (length (get_var w s)) = length (time s).

(* ================================================================= *)
(** ** Vocabulary of the statements about the unit normaliser *)

(** The target unit and the unit named in the error message, by variable
    instead of by position in [variables]. *)
Definition target_of (var : variable) : string :=
  match var with
  | v_displacement_lat | v_displacement_lon | v_winddirection => "deg"
  | v_pressure => "hPa"
  | v_windspeed => "m/s"
  | v_temperature | v_dewpoint => "degC"
  | v_gpm => "gpm"
  | v_time => "s"
  end.

Definition bufr_of (var : variable) : string :=
  match var with
  | v_displacement_lat | v_displacement_lon | v_winddirection => "deg"
  | v_pressure => "Pa"
  | v_windspeed => "m/s"
  | v_temperature | v_dewpoint => "K"
  | v_gpm => "gpm"
  | v_time => "s"
  end.

(** The loop body of [expected_unit_check] with the two tables read by
    variable. *)
Definition check_var (var : variable) (sounding : Sounding ndarray)
  : result (Sounding ndarray) :=
  if negb (py_eq (get_unit var sounding) (PStr (target_of var))) then
    match get_unit var sounding with
    | PStr u =>
        match dict_get converter_dict (u ++ "-->" ++ target_of var)%string with
        | None => Raise (UnexpectedUnit (bufr_of var) (PStr u))
        | Some func =>
            Ok (set_attr var (func (get_var var sounding))
                         (PStr (target_of var)) sounding)
        end
    | _ => Raise TypeError
    end
  else Ok sounding.

Fixpoint for_each {X A : Type} (body : X -> A -> result A)
    (xs : list X) (a : A) : result A :=
  match xs with
  | [] => Ok a
  | x :: rest => a' <- body x a ;; for_each body rest a'
  end.

(** The recorded unit of [var] is its target unit or has a registered
    conversion to it. *)
Definition unit_ok (var : variable) (s : Sounding ndarray) : bool :=
  py_eq (get_unit var s) (PStr (target_of var)) ||
  match get_unit var s with
  | PStr u =>
      match dict_get converter_dict (u ++ "-->" ++ target_of var)%string with
      | Some _ => true
      | None => false
      end
  | _ => false
  end.



(** What the check does to one variable when it returns. *)
Definition normalised (w : variable) (s s' : Sounding ndarray) : Prop :=
  (get_unit w s = PStr (target_of w) /\
   get_var w s' = get_var w s /\ get_unit w s' = get_unit w s) \/
  (exists u func,
      get_unit w s = PStr u /\ u <> target_of w /\
      dict_get converter_dict (u ++ "-->" ++ target_of w)%string = Some func /\
      get_var w s' = func (get_var w s) /\
      get_unit w s' = PStr (target_of w)).

(** A sounding as the BUFR message reports it: pressure in pascal,
    temperatures in kelvin. *)
Definition bufr_units_sounding (temperatures : ndarray) : Sounding ndarray :=
  {| station_lat := PNone; station_lon := PNone;
     sounding_start_time := None;
     time := [FFin (Qz 0); FFin (Qz 1)]; time_unit := PStr "s";
     pressure := [FFin (Qz 101300); FFin (Qz 101200)];
     pressure_unit := PStr "Pa";
     temperature := temperatures; temperature_unit := PStr "K";
     dewpoint := temperatures; dewpoint_unit := PStr "K";
     windspeed := [FFin (Qz 3); FFin (Qz 4)]; windspeed_unit := PStr "m/s";
     winddirection := [FFin (Qz 90); FFin (Qz 95)];
     winddirection_unit := PStr "deg";
     gpm := [FFin (Qz 10); FFin (Qz 15)]; gpm_unit := PStr "gpm";
     displacement_lat := [FFin (Qz 0); FFin (Qz 0)];
     displacement_lat_unit := PStr "deg";
     displacement_lon := [FFin (Qz 0); FFin (Qz 0)];
     displacement_lon_unit := PStr "deg";
     meta_data := [];
     ascentrate := None; relativehumidity := None; mixingratio := None;
     latitude := None; longitude := None; direction := None |}.

(* ================================================================= *)
(** ** Vocabulary of the statements about sorting and filtering *)

(** The twelve series [sort_sounding_by_time] and [exclude_1000hPa_gpm]
    reindex, in the order of the source; [None] is an attribute not set. *)
Definition twelve_series (s : Sounding ndarray) : list (option ndarray) :=
  [Some (time s); ascentrate s; Some (gpm s); Some (pressure s);
   Some (temperature s); relativehumidity s; Some (dewpoint s);
   mixingratio s; Some (windspeed s); Some (winddirection s);
   latitude s; longitude s].

(** Everything else a Sounding holds. *)
Definition other_fields (s : Sounding ndarray) :=
  (station_lat s, station_lon s, sounding_start_time s, meta_data s,
   direction s,
   (time_unit s, pressure_unit s, temperature_unit s, dewpoint_unit s,
    windspeed_unit s, winddirection_unit s, gpm_unit s),
   (displacement_lat s, displacement_lat_unit s,
    displacement_lon s, displacement_lon_unit s)).

(** All twelve series are set and as long as the time series. *)
Definition aligned (s : Sounding ndarray) : Prop :=
  Forall (fun o => exists a : ndarray,
                     o = Some a /\ length a = length (time s))
         (twelve_series s).

(** The rows of [a] at the indices [idx], in the order of [idx]. *)
Definition rows (idx : list nat) (a : ndarray) : ndarray :=
  map (fun i => nth i a FNaN) idx.

(** The indices whose time value is not missing, in increasing order. *)
Definition kept_rows (t : ndarray) : list nat :=
  filter (fun i => negb (isnan (nth i t FNaN))) (seq 0 (length t)).

(** Row [i] may stand before row [j] in a sounding sorted for [direction]:
    for [+1] a missing time is preceded only by missing times (or by the
    time [-inf], which has the same sort key); for [-1] a missing time is
    followed only by missing times (or by [+inf]); times that are not
    missing are in numeric order. *)
Definition before (t : ndarray) (direction : Z) (i j : nat) : Prop :=
  let ti := nth i t FNaN in
  let tj := nth j t FNaN in
  (isnan ti = false -> isnan tj = false -> fle ti tj = true) /\
  (direction = 1%Z -> isnan tj = true ->
   isnan ti = true \/ ti = FInf true) /\
  (direction = (-1)%Z -> isnan ti = true ->
   isnan tj = true \/ tj = FInf false).

(** The placement C2 describes: at the end for [+1], at the start for
    [-1]. *)
Definition missing_at_end (t : ndarray) (idx : list nat) : Prop :=
  forall p q, p < q < length idx ->
    isnan (nth (nth p idx 0) t FNaN) = true ->
    isnan (nth (nth q idx 0) t FNaN) = true.

Definition missing_at_start (t : ndarray) (idx : list nat) : Prop :=
  forall p q, p < q < length idx ->
    isnan (nth (nth q idx 0) t FNaN) = true ->
    isnan (nth (nth p idx 0) t FNaN) = true.

(** No two indices have equal sort keys. *)
Definition distinct_keys (a : ndarray) : Prop :=
  forall i j, i < length a -> j < length a ->
              key_le a i j -> key_le a j i -> i = j.

(** A sounding with all twelve series set, for the examples. *)
Definition profile (d : Z) (t p : ndarray) : Sounding ndarray :=
  {| station_lat := PNone; station_lon := PNone;
     sounding_start_time := None;
     time := t; time_unit := PStr "s";
     pressure := p; pressure_unit := PStr "hPa";
     temperature := p; temperature_unit := PStr "degC";
     dewpoint := p; dewpoint_unit := PStr "degC";
     windspeed := p; windspeed_unit := PStr "m/s";
     winddirection := p; winddirection_unit := PStr "deg";
     gpm := p; gpm_unit := PStr "gpm";
     displacement_lat := []; displacement_lat_unit := PStr "deg";
     displacement_lon := []; displacement_lon_unit := PStr "deg";
     meta_data := [];
     ascentrate := Some p; relativehumidity := Some p;
     mixingratio := Some p; latitude := Some p; longitude := Some p;
     direction := Some d |}.

(* ================================================================= *)
(** ** Vocabulary of the statements about the flattener *)

(** The synthetic key of a leaf reached under counter [r] and name [n]. *)
Definition flat_key (r : N) (n : string) : string :=
  (format_07g r ++ "_" ++ n)%string.

(** A key made with a counter below [r]. *)
Definition key_below (r : N) (k : string) : Prop :=
  exists c n, (c < r)%N /\ k = flat_key c n.

(** A leaf keyed with a counter between [lo] and [hi] and its own name. *)
Definition keyed_with (lo hi : N) (kv nv : string * pyval) : Prop :=
  snd kv = snd nv /\
  exists c, (lo <= c <= hi)%N /\ fst kv = flat_key c (fst nv).

(** The same with the counter written out: seven decimal digits, zero-padded,
    an underscore, the name. *)
Definition keyed_as (hi : N) (kv nv : string * pyval) : Prop :=
  snd kv = snd nv /\
  exists c,
    (c <= hi)%N /\
    fst kv
    = (string_of_list_ascii (fixed_digits 7 c) ++ "_" ++ fst nv)%string.

Definition is_leaf (x : json) : bool :=
  match x with JLeaf _ => true | _ => false end.

Fixpoint distinct (l : list string) : bool :=
  match l with
  | [] => true
  | a :: l' => negb (existsb (String.eqb a) l') && distinct l'
  end.

(** The shape of a BUFR dump: lists nested to any depth whose elements are
    records.  A mapping either is a record (it holds scalars only, under
    distinct names) or wraps a single document. *)
Fixpoint shaped (x : json) : bool :=
  match x with
  | JLeaf _ => true
  | JList l => forallb shaped l
  | JDict d =>
      (forallb (fun p => is_leaf (snd p)) d && distinct (map fst d))
      || match d with
         | [(_, xa)] => shaped xa
         | _ => false
         end
  end.

(** Induction on documents, with the induction hypothesis for every element
    of a list and every value of a mapping. *)
Section JsonInduction.
Variable P : json -> Prop.
Hypothesis P_leaf : forall v, P (JLeaf v).
Hypothesis P_list : forall l, Forall P l -> P (JList l).
Hypothesis P_dict : forall d, Forall (fun p => P (snd p)) d -> P (JDict d).

Fixpoint json_induction (x : json) : P x :=
  match x with
  | JLeaf v => P_leaf v
  | JList l =>
      P_list
        ((fix each (l : list json) : Forall P l :=
            match l with
            | [] => Forall_nil P
            | a :: l' => Forall_cons a (json_induction a) (each l')
            end) l)
  | JDict d =>
      P_dict
        ((fix each (d : list (string * json))
            : Forall (fun p => P (snd p)) d :=
            match d with
            | [] => Forall_nil _
            | (a, xa) :: d' =>
                Forall_cons (P := fun p => P (snd p)) (a, xa)
                            (json_induction xa) (each d')
            end) d)
  end.
End JsonInduction.

(** Two documents on which the flattener loses or shares counters. *)
Definition same_name_twice : json :=
  JDict [("a", JDict [("x", JLeaf (PInt 1))]);
         ("b", JDict [("x", JLeaf (PInt 2))])].

Definition one_record : json :=
  JList [JDict [("key", JLeaf (PStr "pressure"));
                ("value", JLeaf (PInt 101300));
                ("units", JLeaf (PStr "Pa"))]].

(** A document of the shape [bufr_dump -j s] writes. *)
Definition nested_dump : json :=
  JDict
    [("messages",
      JList
        [JList
           [JDict [("key", JLeaf (PStr "edition")); ("value", JLeaf (PInt 4))];
            JList
              [JDict [("key", JLeaf (PStr "pressure"));
                      ("value", JLeaf (PInt 101300));
                      ("units", JLeaf (PStr "Pa"))];
               JDict [("key", JLeaf (PStr "airTemperature"));
                      ("value", JLeaf (PFloat (FFin (Qz 300))));
                      ("units", JLeaf (PStr "K"))]]]])].

(** A time series for which the temporal resolution is not the mode. *)
Definition uneven_times : Sounding ndarray :=
  profile 1 [FFin (Qz 0); FFin (Qz 2); FFin (Qz 4); FFin (Qz 9)]
            [FFin (Qz 1000); FFin (Qz 990); FFin (Qz 980); FFin (Qz 970)].

Definition two_times : Sounding ndarray :=
  profile 1 [FFin (Qz 0); FFin (Qz 1)] [FFin (Qz 1000); FFin (Qz 990)].

(** A sounding with a missing pressure sample, and one whose temperature is
    recorded in a unit without a registered conversion. *)
Definition sounding_with_gaps : Sounding pylist :=
  set_var v_pressure [PInt 1013; PNone; PFloat (FFin (Q2Qc 998.5))]
    (set_unit v_pressure (PStr "Pa") new_Sounding).


(* ================================================================= *)
(** ** Further soundings used in the examples *)

(** A sounding whose geopotential height was never reported: its unit label
    is still [None]. *)
Definition unit_never_set : Sounding ndarray :=
  set_attr v_gpm [] PNone (bufr_units_sounding [FFin (Qz 300)]).

(* ================================================================= *)
(** ** [calc_ascentrate] *)

(** An elementwise operation on two one-dimensional arrays as NumPy
    broadcasts them: the lengths agree, or one of the arrays has length
    one. *)
Definition broadcast (op : pyfloat -> pyfloat -> pyfloat) (a b : ndarray)
  : result ndarray :=
  if length a =? length b
  then Ok (map (fun p => op (fst p) (snd p)) (combine a b))
  else match a, b with
       | [x], _ => Ok (map (op x) b)
       | _, [y] => Ok (map (fun x => op x y) a)
       | _, _ => Raise ValueError
       end.

Definition set_ascentrate (a : ndarray) (s : Sounding ndarray)
  : Sounding ndarray :=
  mkSounding (station_lat s) (station_lon s) (sounding_start_time s)
    (time s) (time_unit s) (pressure s) (pressure_unit s)
    (temperature s) (temperature_unit s) (dewpoint s) (dewpoint_unit s)
    (windspeed s) (windspeed_unit s) (winddirection s) (winddirection_unit s)
    (gpm s) (gpm_unit s) (displacement_lat s) (displacement_lat_unit s)
    (displacement_lon s) (displacement_lon_unit s) (meta_data s)
    (Some a) (relativehumidity s) (mixingratio s)
    (latitude s) (longitude s) (direction s).

Definition calc_ascentrate (sounding : Sounding ndarray)
  : result (Sounding ndarray) :=
  ascent_rate <- broadcast fdiv (diff (gpm sounding)) (diff (time sounding)) ;;
  let ascent_rate := FFin (Qz 0) :: ascent_rate in
  Ok (set_ascentrate ascent_rate sounding).

(** Times [t0, t0 + d, t0 + 2 d, ...]: [n] samples at the interval [d]. *)
Definition evenly_spaced (t0 d : Z) (n : nat) : ndarray :=
  map (fun k => FFin (Qz (t0 + Z.of_nat k * d))) (seq 0 n).

(* ================================================================= *)
(** ** [find_nearest] ([visualize/make_skewT_metpy.py]) *)

(** The order of [np.argmin]: a NaN is taken before every number. *)
Definition argmin_lt (a b : pyfloat) : bool :=
  if isnan b then false
  else if isnan a then true
  else negb (fle b a).

(** [np.argmin]: the first index of the smallest element. *)
Fixpoint argmin_from (best_i : nat) (best : pyfloat) (i : nat) (l : ndarray)
  : nat :=
  match l with
  | [] => best_i
  | c :: l' =>
      if argmin_lt c best then argmin_from i c (S i) l'
      else argmin_from best_i best (S i) l'
  end.

Definition argmin (l : ndarray) : result nat :=
  match l with
  | [] => Raise ValueError
  | c :: l' => Ok (argmin_from 0 c 1 l')
  end.

Definition find_nearest (array : ndarray) (value : pyfloat) : result pyfloat :=
  idx <- argmin (map (fun x => fabs (fsub x value)) array) ;;
  match nth_error array idx with
  | Some x => Ok x
  | None => Raise IndexError
  end.

(** [a] is not after [b] in the order of [np.argmin]. *)
Definition argmin_le (a b : pyfloat) : bool := negb (argmin_lt b a).

Definition distance (x value : pyfloat) : pyfloat := fabs (fsub x value).

Definition is_finite (x : pyfloat) : bool :=
  match x with FFin _ => true | _ => false end.

(* ================================================================= *)
(** ** Further vocabulary for sorting and filtering *)

(** All twelve series are set and at least as long as the time series. *)
Definition covering (s : Sounding ndarray) : Prop :=
  Forall (fun o => exists a : ndarray,
                     o = Some a /\ length (time s) <= length a)
         (twelve_series s).

(* ================================================================= *)
(** ** [bufr_specific_handling] *)

(** The three comparisons of [sounding.meta_data['bufr_msg']] select
    branches that do nothing; only the lookup can fail. *)
Definition bufr_specific_handling {S : Type} (sounding : Sounding S)
  : result (Sounding S) :=
  bufr_msg <- getitem (meta_data sounding) "bufr_msg" ;;
  Ok sounding.

(* ================================================================= *)
(** ** Further vocabulary for the extractor *)

(** [name in sounding.meta_data] *)
Definition has_meta {S : Type} (sounding : Sounding S) (name : string)
  : bool :=
  match dict_get (meta_data sounding) name with
  | Some _ => true
  | None => false
  end.

(** The entry [key_key] carries the field name [name]. *)
Definition is_field (json_flat : dict pyval) (key_key name : string) : bool :=
  match dict_get json_flat (key_key ++ "_key")%string with
  | Some (PStr n) => String.eqb n name
  | _ => false
  end.

(** The local variable [name] of the launch time after the entry
    [key_key]: its [_value] if the entry carries that field name, the
    previous binding otherwise. *)
Definition launch_field (json_flat : dict pyval) (name : string)
    (acc : option pyval) (key_key : string) : option pyval :=
  if is_field json_flat key_key name
  then dict_get json_flat (key_key ++ "_value")%string
  else acc.

(** The last value reported for the launch-time field [name]. *)
Definition last_value (json_flat : dict pyval) (name : string)
    (key_keys : list string) : option pyval :=
  fold_left (launch_field json_flat name) key_keys None.

(** A date and time [datetime.datetime] accepts. *)
Definition valid_datetime (t : datetime) : Prop :=
  (1 <= dt_year t <= 9999 /\ 1 <= dt_month t <= 12 /\
   1 <= dt_day t <= days_in_month (dt_year t) (dt_month t) /\
   0 <= dt_hour t <= 23 /\ 0 <= dt_minute t <= 59 /\
   0 <= dt_second t <= 59)%Z.

(** The [_value] of an entry, as the list of samples it contributes. *)
Definition samples (json_flat : dict pyval) (key_key : string) : pylist :=
  match dict_get json_flat (key_key ++ "_value")%string with
  | Some x => [x]
  | None => []
  end.

(** The values reported for [v], in the order of [key_keys]. *)
Fixpoint reported (json_flat : dict pyval) (v : variable)
    (key_keys : list string) : pylist :=
  match key_keys with
  | [] => []
  | k :: rest =>
      match field_of json_flat k with
      | Some w =>
          if variable_eqb w v then samples json_flat k ++
                                   reported json_flat v rest
          else reported json_flat v rest
      | None => reported json_flat v rest
      end
  end.

(** The number of time stamps among [key_keys]. *)
Fixpoint time_steps (json_flat : dict pyval) (key_keys : list string) : nat :=
  match key_keys with
  | [] => 0
  | k :: rest =>
      match field_of json_flat k with
      | Some v_time => S (time_steps json_flat rest)
      | _ => time_steps json_flat rest
      end
  end.

(** The NaN that closes a time step which has no sample of the variable. *)
Definition pad_if_behind (seen : bool) : pylist :=
  if seen then [] else [PFloat FNaN].

(** What the rest of the scan appends to the series of a padded variable
    [v]: its samples, and a NaN at each time stamp and at the end when the
    time step just closed had none.  [seen] tells whether the current time
    step already has its sample. *)
Fixpoint by_step (json_flat : dict pyval) (v : variable)
    (key_keys : list string) (seen : bool) : pylist :=
  match key_keys with
  | [] => pad_if_behind seen
  | k :: rest =>
      match field_of json_flat k with
      | Some w =>
          if variable_eqb w v_time
          then pad_if_behind seen ++ by_step json_flat v rest false
          else if variable_eqb w v
               then samples json_flat k ++ by_step json_flat v rest true
               else by_step json_flat v rest seen
      | None => by_step json_flat v rest seen
      end
  end.

(** A message with two time steps; the second has no temperature. *)
Definition two_steps : dict pyval :=
  launch_fields ++
  record "0000006" "timePeriod" (PInt 0) (PStr "s") ++
  record "0000007" "pressure" (PInt 101300) (PStr "Pa") ++
  record "0000008" "airTemperature" (PFloat (FFin (Q2Qc 299.5))) (PStr "K") ++
  record "0000009" "timePeriod" (PInt 1) (PStr "s") ++
  record "0000010" "pressure" (PInt 101200) (PStr "Pa").

Definition two_steps_keys : list string :=
  launch_keys ++ ["0000006"; "0000007"; "0000008"; "0000009"; "0000010"].

(* ================================================================= *)
(** ** [read_json] *)





(** A list of records: each a mapping from field names to scalars. *)
Definition as_json (records : list (list (string * pyval))) : json :=
  JList (map (fun rec => JDict (map (fun '(n, v) => (n, JLeaf v)) rec))
             records).

(** Its flattening: the fields of the record at position [r + i] keyed with
    the counter [r + i]. *)
Fixpoint flat_from (r : N) (records : list (list (string * pyval)))
  : list (string * pyval) :=
  match records with
  | [] => []
  | rec :: rest =>
      map (fun '(n, v) => (flat_key r n, v)) rec ++ flat_from (r + 1) rest
  end.

(** An entry of a decoded BUFR message: its name, its value and, for some
    entries, its unit. *)
Record bufr_entry : Type := mkEntry {
  e_key : string;
  e_value : pyval;
  e_units : option pyval
}.

Definition entry_fields (e : bufr_entry) : list (string * pyval) :=
  [("key", PStr (e_key e)); ("value", e_value e)] ++
  match e_units e with
  | Some u => [("units", u)]
  | None => []
  end.

Definition dump (entries : list bufr_entry) : json :=
  as_json (map entry_fields entries).


Definition sample_dump : list bufr_entry :=
  [mkEntry "unexpandedDescriptors" (PInt 309057) None;
   mkEntry "timePeriod" (PInt 0) (Some (PStr "s"));
   mkEntry "pressure" (PInt 101300) (Some (PStr "Pa"))].


(** The number of missing time stamps. *)
Definition missing (t : ndarray) : nat := length (filter isnan t).

(** The missing time stamps come first, or last. *)
Definition nan_first (t : ndarray) : Prop :=
  forall p q, p < q < length t ->
    isnan (nth q t FNaN) = true -> isnan (nth p t FNaN) = true.

Definition nan_last (t : ndarray) : Prop :=
  forall p q, p < q < length t ->
    isnan (nth p t FNaN) = true -> isnan (nth q t FNaN) = true.

(* ================================================================= *)
(** ** [flatten_json] on any document *)

(** The leaves of a document in the order [flatten] reaches them, each with
    the key it is written under when the traversal starts at counter [r]:
    the counter has advanced by one for every list element completed
    before the leaf. *)
Fixpoint keyed (x : json) (name : string) (r : N) : list (string * pyval) :=
  match x with
  | JDict d =>
      (fix each (d : list (string * json)) (r : N)
         : list (string * pyval) :=
         match d with
         | [] => []
         | (a, xa) :: d' =>
             keyed xa a r ++ each d' (r + list_elements xa)%N
         end) d r
  | JList l =>
      (fix each (l : list json) (r : N) : list (string * pyval) :=
         match l with
         | [] => []
         | a :: l' =>
             keyed a "" r ++ each l' (r + list_elements a + 1)%N
         end) l r
  | JLeaf v => [(flat_key r name, v)]
  end.

(** Writing a list of entries into a dict, one after the other. *)
Definition store (out : dict pyval) (l : list (string * pyval)) : dict pyval :=
  fold_left (fun o kv => dict_set o (fst kv) (snd kv)) l out.

(** The value of the last entry of [l] with the key [k]. *)
Fixpoint last_of (k : string) (l : list (string * pyval)) : option pyval :=
  match l with
  | [] => None
  | (k', v) :: l' =>
      match last_of k l' with
      | Some w => Some w
      | None => if String.eqb k' k then Some v else None
      end
  end.


(* ================================================================= *)
(** ** The header fields of the extractor *)

(** [meta_data['bufr_msg']] after the entry [key_key]: the value of an
    [unexpandedDescriptors] entry, [309053] when that entry has no [_value]
    member; the previous binding after any other entry. *)
Definition bufr_msg_after (json_flat : dict pyval) (acc : option metaval)
    (key_key : string) : option metaval :=
  if is_field json_flat key_key "unexpandedDescriptors"
  then Some (MVal match dict_get json_flat (key_key ++ "_value")%string with
                  | Some x => x
                  | None => PInt 309053
                  end)
  else acc.

(** A station coordinate after the entry [key_key]. *)
Definition station_after (json_flat : dict pyval) (name : string)
    (acc : pyval) (key_key : string) : pyval :=
  if is_field json_flat key_key name
  then match dict_get json_flat (key_key ++ "_value")%string with
       | Some x => x
       | None => acc
       end
  else acc.

(** A flattened message whose [unexpandedDescriptors] entry has no
    [_value] member. *)
Definition no_descriptor_value : dict pyval :=
  [("0000000_key", PStr "unexpandedDescriptors");
   ("0000001_key", PStr "latitude");
   ("0000001_value", PFloat (FFin (Q2Qc 13.25)));
   ("0000001_units", PStr "deg")] ++
  record "0000002" "year" (PInt 2020) PNone ++
  record "0000003" "month" (PInt 1) PNone ++
  record "0000004" "day" (PInt 24) PNone ++
  record "0000005" "hour" (PInt 10) PNone ++
  record "0000006" "minute" (PInt 45) PNone ++
  record "0000007" "second" (PInt 0) PNone.

Definition no_descriptor_value_keys : list string :=
  ["0000000"; "0000001"; "0000002"; "0000003"; "0000004"; "0000005";
   "0000006"; "0000007"].

(* ================================================================= *)
(** ** An entry whose value is a list *)




(* ================================================================= *)
(** * Properties *)

(** ** Basic facts about Python values and attributes *)

Lemma py_eq_None (x : pyval) : py_eq x PNone = is_None x.
Proof. destruct x as [| b | z | f | s]; reflexivity. Qed.

Lemma replace_none_not_None (x : pyval) : x <> PNone -> replace_none x = x.
Proof.
  intros Hx. unfold replace_none. rewrite py_eq_None.
  destruct x; try reflexivity. now contradiction Hx.
Qed.

Lemma variable_eqb_eq (a b : variable) : variable_eqb a b = true <-> a = b.
Proof. destruct a, b; simpl; split; intros H; congruence. Qed.

Lemma variable_eqb_refl (a : variable) : variable_eqb a a = true.
Proof. now apply variable_eqb_eq. Qed.

Lemma variables_complete (v : variable) : In v variables.
Proof. destruct v; simpl; tauto. Qed.

Lemma variables_NoDup : NoDup variables.
Proof.
  unfold variables.
  repeat (constructor; [simpl; intros H; repeat (destruct H as [H | H]; [discriminate H|]); exact H|]).
  constructor.
Qed.

Section AttributeFacts.
Context {S : Type}.
Implicit Types (s : Sounding S) (v w : variable).

Lemma get_var_set_attr v w x u s :
  get_var w (set_attr v x u s) = if variable_eqb v w then x else get_var w s.
Proof. destruct w; reflexivity. Qed.

Lemma get_unit_set_attr v w x u s :
  get_unit w (set_attr v x u s) = if variable_eqb v w then u else get_unit w s.
Proof. destruct w; reflexivity. Qed.

Lemma same_frame_refl s : same_frame s s.
Proof. repeat split. Qed.

Lemma same_frame_set_attr v x u s : same_frame s (set_attr v x u s).
Proof. repeat split. Qed.

Lemma same_frame_trans s1 s2 s3 :
  same_frame s1 s2 -> same_frame s2 s3 -> same_frame s1 s3.
Proof.
  unfold same_frame. intros H1 H2.
  repeat match goal with H : _ /\ _ |- _ => destruct H end.
  repeat split; congruence.
Qed.

Lemma get_var_set_var_same v x s : get_var v (set_var v x s) = x.
Proof. unfold set_var. now rewrite get_var_set_attr, variable_eqb_refl. Qed.

Lemma get_var_set_var_other v w x s :
  v <> w -> get_var w (set_var v x s) = get_var w s.
Proof.
  intros H. unfold set_var. rewrite get_var_set_attr.
  destruct (variable_eqb v w) eqn:E; [|reflexivity].
  apply variable_eqb_eq in E. contradiction.
Qed.

Lemma get_unit_set_var v w x s : get_unit w (set_var v x s) = get_unit w s.
Proof.
  unfold set_var. rewrite get_unit_set_attr.
  destruct (variable_eqb v w) eqn:E; [|reflexivity].
  apply variable_eqb_eq in E. now subst.
Qed.

Lemma get_var_set_unit v w u s : get_var w (set_unit v u s) = get_var w s.
Proof.
  unfold set_unit. rewrite get_var_set_attr.
  destruct (variable_eqb v w) eqn:E; [|reflexivity].
  apply variable_eqb_eq in E. now subst.
Qed.

Lemma get_unit_set_unit_same v u s : get_unit v (set_unit v u s) = u.
Proof. unfold set_unit. now rewrite get_unit_set_attr, variable_eqb_refl. Qed.

Lemma get_unit_set_unit_other v w u s :
  v <> w -> get_unit w (set_unit v u s) = get_unit w s.
Proof.
  intros H. unfold set_unit. rewrite get_unit_set_attr.
  destruct (variable_eqb v w) eqn:E; [|reflexivity].
  apply variable_eqb_eq in E. contradiction.
Qed.
End AttributeFacts.

(* ================================================================= *)
(** ** [replace_missing_data] *)

Lemma replace_missing_data_series (s : Sounding pylist) (v : variable) :
  get_var v (replace_missing_data s) = map replace_none (get_var v s).
Proof. destruct v; reflexivity. Qed.

Lemma replace_missing_data_units (s : Sounding pylist) (v : variable) :
  get_unit v (replace_missing_data s) = get_unit v s.
Proof. destruct v; reflexivity. Qed.

Lemma replace_missing_data_frame (s : Sounding pylist) :
  same_frame s (replace_missing_data s).
Proof. repeat split. Qed.

(** C10.  [replace_missing_data] maps [replace_none] over exactly the nine
    measurement series named in [variables]: every [None] entry becomes NaN,
    every other entry is kept, no length changes, and the unit labels, the
    station coordinates, the launch time, the metadata and the attributes
    attached later are left as they were. *)
Theorem replace_missing_data_spec (s : Sounding pylist) :
  let s' := replace_missing_data s in
  (forall v : variable, In v variables) /\
  length variables = 9 /\
  (forall v, get_var v s' = map replace_none (get_var v s)) /\
  (forall v, length (get_var v s') = length (get_var v s)) /\
  (forall v i x,
      nth_error (get_var v s) i = Some x ->
      nth_error (get_var v s') i =
        Some (match x with PNone => PFloat FNaN | _ => x end)) /\
  (forall v, get_unit v s' = get_unit v s) /\
  same_frame s s'.
Proof.
  intros s'. subst s'.
  split; [exact variables_complete|].
  split; [reflexivity|].
  split; [apply replace_missing_data_series|].
  split; [intros v; rewrite replace_missing_data_series; apply length_map|].
  split.
  - intros v i x Hx. rewrite replace_missing_data_series.
    rewrite nth_error_map, Hx. simpl. f_equal.
    destruct x; reflexivity.
  - split; [apply replace_missing_data_units|apply replace_missing_data_frame].
Qed.

Lemma replace_missing_data_witness :
  nth_error (pressure (replace_missing_data sounding_with_gaps)) 1
  = Some (PFloat FNaN).
Proof.
  exact (proj1 (proj2 (proj2 (proj2 (proj2
           (replace_missing_data_spec sounding_with_gaps)))))
         v_pressure 1 PNone eq_refl).
Defined.

(* ================================================================= *)
(** ** [get_sounding_direction] *)

Lemma str_int_inj (a b : Z) : str_int a = str_int b -> a = b.
Proof.
  unfold str_int. intros H.
  assert (Hnil : forall z, Z.to_int z <> Decimal.Pos Decimal.Nil /\
                           Z.to_int z <> Decimal.Neg Decimal.Nil).
  { intros [|p|p]; simpl; split; try discriminate;
      intros E; injection E as E;
      now apply DecimalPos.Unsigned.to_uint_nonnil in E. }
  assert (E : Some (Z.to_int a) = Some (Z.to_int b)).
  { rewrite <- (NilZero.isi _ (proj1 (Hnil a)) (proj2 (Hnil a))).
    rewrite <- (NilZero.isi _ (proj1 (Hnil b)) (proj2 (Hnil b))).
    now rewrite H. }
  injection E as E.
  rewrite <- (DecimalZ.of_to a), <- (DecimalZ.of_to b). now rewrite E.
Qed.

Lemma str_int_eqb (z c : Z) :
  String.eqb (str_int z) (str_int c) = (z =? c)%Z.
Proof.
  destruct (Z.eqb_spec z c) as [->|Hne].
  - apply String.eqb_refl.
  - apply String.eqb_neq. intros H. now apply str_int_inj in H.
Qed.

(** C8.  [get_sounding_direction] gives [+1] for [309057], [-1] for [309053]
    and [309056], and raises [NotImplementedError] for every other
    identifier, integer or string; whenever it returns, the direction is one
    of these for one of the three identifiers. *)
Theorem get_sounding_direction_spec :
  get_sounding_direction (IdInt 309057) = Ok 1%Z /\
  get_sounding_direction (IdInt 309053) = Ok (-1)%Z /\
  get_sounding_direction (IdInt 309056) = Ok (-1)%Z /\
  (forall id : bufr_id,
      str_id id <> "309053" -> str_id id <> "309056" ->
      str_id id <> "309057" ->
      exists msg, get_sounding_direction id = Raise (NotImplementedError msg)) /\
  (forall z : Z,
      z <> 309053%Z -> z <> 309056%Z -> z <> 309057%Z ->
      exists msg,
        get_sounding_direction (IdInt z) = Raise (NotImplementedError msg)) /\
  (forall (id : bufr_id) (d : Z),
      get_sounding_direction id = Ok d ->
      (d = 1%Z /\ str_id id = "309057") \/
      (d = (-1)%Z /\ (str_id id = "309053" \/ str_id id = "309056"))).
Proof.
  assert (Hother : forall id : bufr_id,
      str_id id <> "309053" -> str_id id <> "309056" ->
      str_id id <> "309057" ->
      exists msg, get_sounding_direction id = Raise (NotImplementedError msg)).
  { intros id H1 H2 H3. unfold get_sounding_direction.
    apply String.eqb_neq in H1, H2, H3. rewrite H1, H2, H3. eauto. }
  repeat split; try reflexivity.
  - exact Hother.
  - intros z H1 H2 H3. apply Hother; simpl;
      [change "309053" with (str_int 309053)
      |change "309056" with (str_int 309056)
      |change "309057" with (str_int 309057)];
      intros E; apply str_int_inj in E; contradiction.
  - intros id d. unfold get_sounding_direction.
    destruct (String.eqb_spec (str_id id) "309053") as [E1|E1];
      [intros H; injection H as <-; right; tauto|].
    destruct (String.eqb_spec (str_id id) "309056") as [E2|E2];
      [intros H; injection H as <-; right; tauto|].
    destruct (String.eqb_spec (str_id id) "309057") as [E3|E3];
      [intros H; injection H as <-; left; tauto|].
    discriminate.
Qed.

Lemma get_sounding_direction_witness :
  exists msg,
    get_sounding_direction (IdInt 309052) = Raise (NotImplementedError msg).
Proof.
  apply (proj1 (proj2 (proj2 (proj2 (proj2 get_sounding_direction_spec))))
           309052%Z); discriminate.
Defined.

(* ================================================================= *)
(** ** The extractor: [_ensure_measurement_integrity] *)

Lemma pad_series_get (v w : variable) (s : Sounding pylist) :
  get_var w (pad_series v s) =
    if variable_eqb v w then nan_pad w s else get_var w s.
Proof.
  unfold pad_series, nan_pad.
  destruct (variable_eqb v w) eqn:E.
  - apply variable_eqb_eq in E. subst w.
    destruct (length (get_var v s) <? length (time s));
      [apply get_var_set_var_same|reflexivity].
  - destruct (length (get_var v s) <? length (time s)); [|reflexivity].
    apply get_var_set_var_other. intros ->.
    now rewrite variable_eqb_refl in E.
Qed.

Lemma pad_series_unit (v w : variable) (s : Sounding pylist) :
  get_unit w (pad_series v s) = get_unit w s.
Proof.
  unfold pad_series.
  destruct (length (get_var v s) <? length (time s));
    [apply get_unit_set_var|reflexivity].
Qed.

Lemma pad_series_frame (v : variable) (s : Sounding pylist) :
  same_frame s (pad_series v s).
Proof.
  unfold pad_series.
  destruct (length (get_var v s) <? length (time s));
    [apply same_frame_set_attr|apply same_frame_refl].
Qed.

Lemma pad_series_time (v : variable) (s : Sounding pylist) :
  padded v = true -> time (pad_series v s) = time s.
Proof.
  intros Hv. change (get_var v_time (pad_series v s) = get_var v_time s).
  rewrite pad_series_get. destruct v; try reflexivity; discriminate Hv.
Qed.

(** The pass appends one NaN to each padded series that is shorter than the
    time series, and touches nothing else. *)
Lemma integrity_get (w : variable) (s : Sounding pylist) :
  get_var w (_ensure_measurement_integrity s) =
    if padded w then nan_pad w s else get_var w s.
Proof.
  unfold _ensure_measurement_integrity.
  repeat rewrite pad_series_get.
  unfold nan_pad.
  repeat rewrite pad_series_time by reflexivity.
  repeat rewrite pad_series_get.
  destruct w; reflexivity.
Qed.

Lemma integrity_unit (w : variable) (s : Sounding pylist) :
  get_unit w (_ensure_measurement_integrity s) = get_unit w s.
Proof.
  unfold _ensure_measurement_integrity. now repeat rewrite pad_series_unit.
Qed.

Lemma integrity_time (s : Sounding pylist) :
  time (_ensure_measurement_integrity s) = time s.
Proof. exact (integrity_get v_time s). Qed.

Lemma integrity_frame (s : Sounding pylist) :
  same_frame s (_ensure_measurement_integrity s).
Proof.
  unfold _ensure_measurement_integrity.
  repeat (eapply same_frame_trans; [|apply pad_series_frame]).
  apply same_frame_refl.
Qed.

Lemma nan_pad_length (w : variable) (s : Sounding pylist) :
  length (nan_pad w s) =
    if length (get_var w s) <? length (time s)
    then S (length (get_var w s)) else length (get_var w s).
Proof.
  unfold nan_pad.
  destruct (length (get_var w s) <? length (time s)); [|reflexivity].
  rewrite length_app. simpl. lia.
Qed.

(* ================================================================= *)
(** ** The extractor: one sample *)

Lemma getitem_Ok {V : Type} (d : dict V) (k : string) (x : V) :
  getitem d k = Ok x <-> dict_get d k = Some x.
Proof.
  unfold getitem. destruct (dict_get d k); split; intros H;
    try discriminate; congruence.
Qed.

Lemma getitem_Raise {V : Type} (d : dict V) (k : string) (e : exn) :
  getitem d k = Raise e -> e = KeyError k /\ dict_get d k = None.
Proof.
  unfold getitem. destruct (dict_get d k); intros H;
    [discriminate|split; congruence].
Qed.

(** What a successful [record_sample] leaves behind. *)
Lemma record_sample_Ok (v : variable) (json_flat : dict pyval) (k : string)
    (s s' : Sounding pylist) :
  record_sample v json_flat k s = Ok s' ->
  exists value u,
    dict_get json_flat (k ++ "_value")%string = Some value /\
    dict_get json_flat (k ++ "_units")%string = Some u /\
    get_var v s' = get_var v s ++ [value] /\
    (forall w, w <> v -> get_var w s' = get_var w s) /\
    (forall w, w <> v -> get_unit w s' = get_unit w s) /\
    (if is_None (get_unit v s) then get_unit v s' = u
     else get_unit v s' = get_unit v s /\ py_eq (get_unit v s) u = true) /\
    same_frame s s'.
Proof.
  unfold record_sample. intros H.
  destruct (getitem json_flat (k ++ "_value")) as [value|e] eqn:Ev;
    [|discriminate]. simpl in H.
  destruct (getitem json_flat (k ++ "_units")) as [u|e] eqn:Eu;
    [|discriminate]. simpl in H.
  apply getitem_Ok in Ev, Eu.
  exists value, u. split; [exact Ev|]. split; [exact Eu|].
  rewrite get_unit_set_var in H.
  destruct (is_None (get_unit v s)) eqn:En; try rewrite En in H.
  - injection H as <-.
    rewrite get_var_set_unit, get_var_set_var_same.
    split; [reflexivity|].
    split; [intros w Hw; rewrite get_var_set_unit;
            now apply get_var_set_var_other|].
    split; [intros w Hw; rewrite get_unit_set_unit_other by congruence;
            apply get_unit_set_var|].
    split; [apply get_unit_set_unit_same|].
    eapply same_frame_trans; apply same_frame_set_attr.
  - destruct (py_eq (get_unit v s) u) eqn:Ee; try rewrite Ee in H; simpl in H;
      [|discriminate].
    injection H as <-.
    rewrite get_var_set_var_same.
    split; [reflexivity|].
    split; [intros w Hw; now apply get_var_set_var_other|].
    split; [intros w Hw; apply get_unit_set_var|].
    split; [split; [apply get_unit_set_var|reflexivity]|].
    apply same_frame_set_attr.
Qed.


(* ================================================================= *)
(** ** The extractor: one iteration of the scan *)

Ltac split_name name :=
  repeat match goal with
         | |- context [String.eqb name ?lit] =>
             destruct (String.eqb_spec name lit); [subst name|]
         | H : context [String.eqb name ?lit] |- _ =>
             destruct (String.eqb_spec name lit); [subst name|]
         end.

Lemma dispatch_tracked (name : string) (v : variable) (json_flat : dict pyval)
    (k : string) (st : scan) :
  tracked_var name = Some v ->
  dispatch name json_flat k st =
    (s' <- record_sample v json_flat k (pre_step v (sc_s st)) ;;
     Ok (with_s st s')).
Proof.
  unfold tracked_var, dispatch. intros H.
  split_name name; simpl in H; try discriminate H;
    injection H as <-; reflexivity.
Qed.

Lemma same_series_refl (s : Sounding pylist) : same_series s s.
Proof. now split. Qed.

Lemma dispatch_untracked (name : string) (json_flat : dict pyval)
    (k : string) (st : scan) :
  tracked_var name = None ->
  match dispatch name json_flat k st with
  | Ok st' => same_series (sc_s st) (sc_s st')
  | Raise e =>
      ((exists key, e = KeyError key) \/ e = TypeError) /\
      ((dict_get json_flat (k ++ "_value")%string = None /\
        reads_value name = true) \/
       (name = "radiosondeOperatingFrequency" /\
        forall u, dict_get json_flat (k ++ "_units")%string <> Some (PStr u)))
  end.
Proof.
  unfold tracked_var, dispatch. intros H.
  split_name name; simpl in H; try discriminate H; simpl;
    try (destruct (getitem json_flat (k ++ "_value")) as [x|e] eqn:Ev; simpl;
         [|apply getitem_Raise in Ev; destruct Ev as [-> Ev];
           split; [eauto|left; split; [exact Ev|reflexivity]]]);
    try (split; intros w; destruct w; reflexivity).
  - destruct (getitem json_flat (k ++ "_value")) as [x|e] eqn:Ev;
      [|apply getitem_Raise in Ev; destruct Ev as [-> _]];
      simpl; split; intros w; destruct w; reflexivity.
  - destruct (getitem json_flat (k ++ "_units")) as [u|e] eqn:Eu; simpl.
    + apply getitem_Ok in Eu.
      destruct u; simpl;
        try (split; [auto|right; split; [reflexivity|intros u0; congruence]]).
      split; intros w; destruct w; reflexivity.
    + apply getitem_Raise in Eu. destruct Eu as [-> Eu].
      split; [eauto|right; split; [reflexivity|intros u0; congruence]].
Qed.

Lemma tracked_reads_value (name : string) (v : variable) :
  tracked_var name = Some v -> reads_value name = true.
Proof.
  unfold tracked_var. intros H.
  split_name name; simpl in H; try discriminate H; reflexivity.
Qed.

Lemma scan_step_tracked (json_flat : dict pyval) (k : string) (st : scan)
    (v : variable) :
  field_of json_flat k = Some v ->
  scan_step json_flat st k =
    (s' <- record_sample v json_flat k (pre_step v (sc_s st)) ;;
     Ok (with_s st s')).
Proof.
  unfold field_of, scan_step, getitem. intros H.
  destruct (dict_get json_flat (k ++ "_key")) as [[| | | |name]|];
    try discriminate H.
  simpl. now apply dispatch_tracked.
Qed.

Lemma scan_step_untracked (json_flat : dict pyval) (k : string) (st : scan) :
  field_of json_flat k = None ->
  match scan_step json_flat st k with
  | Ok st' => same_series (sc_s st) (sc_s st')
  | Raise e => (exists key, e = KeyError key) \/ e = TypeError
  end.
Proof.
  unfold field_of, scan_step, getitem. intros H.
  destruct (dict_get json_flat (k ++ "_key")) as [[| | | |name]|]; simpl;
    try apply same_series_refl; eauto.
  pose proof (@dispatch_untracked name json_flat k st H) as D.
  destruct (dispatch name json_flat k st); [exact D|].
  apply D.
Qed.

(** The effect of one successful iteration on the series and units. *)
Lemma scan_step_Ok (json_flat : dict pyval) (k : string) (st st' : scan) :
  scan_step json_flat st k = Ok st' ->
  match field_of json_flat k with
  | Some v =>
      record_sample v json_flat k (pre_step v (sc_s st)) = Ok (sc_s st')
  | None => same_series (sc_s st) (sc_s st')
  end.
Proof.
  intros H. destruct (field_of json_flat k) as [v|] eqn:F.
  - rewrite (@scan_step_tracked _ _ st _ F) in H.
    destruct (record_sample v json_flat k (pre_step v (sc_s st)));
      simpl in H; [|discriminate].
    injection H as <-. reflexivity.
  - pose proof (@scan_step_untracked json_flat k st F) as U.
    now rewrite H in U.
Qed.

Lemma pre_step_unit (v w : variable) (s : Sounding pylist) :
  get_unit w (pre_step v s) = get_unit w s.
Proof.
  unfold pre_step. destruct (variable_eqb v v_time);
    [apply integrity_unit|reflexivity].
Qed.


(** How the recorded unit of [w] moves in one successful iteration. *)
Lemma scan_step_unit (json_flat : dict pyval) (k : string) (st st' : scan)
    (w : variable) :
  scan_step json_flat st k = Ok st' ->
  (get_unit w (sc_s st') = get_unit w (sc_s st) /\
   forall u, occurrence json_flat k = Some (w, u) ->
             is_None (get_unit w (sc_s st)) = false ->
             py_eq (get_unit w (sc_s st)) u = true) \/
  (is_None (get_unit w (sc_s st)) = true /\
   occurrence json_flat k = Some (w, get_unit w (sc_s st'))).
Proof.
  intros H. apply scan_step_Ok in H. unfold occurrence.
  destruct (field_of json_flat k) as [v|] eqn:F.
  - apply record_sample_Ok in H.
    destruct H as [value [u [_ [Hu [_ [_ [Hother [Hv _]]]]]]]].
    rewrite Hu. rewrite pre_step_unit in Hv.
    destruct (variable_eqb v w) eqn:E.
    + apply variable_eqb_eq in E. subst w.
      destruct (is_None (get_unit v (sc_s st))) eqn:En.
      * right. split; [reflexivity|]. now rewrite Hv.
      * left. destruct Hv as [Hv He]. split; [exact Hv|].
        intros u' Hu' _. injection Hu' as <-. exact He.
    + left. split.
      * rewrite Hother, pre_step_unit; [reflexivity|].
        intros ->. now rewrite variable_eqb_refl in E.
      * intros u' Hu'. injection Hu' as -> _.
        now rewrite variable_eqb_refl in E.
  - left. split; [apply H|]. intros u Hu. discriminate Hu.
Qed.

(* ================================================================= *)
(** ** The extractor: unit consistency *)

Lemma py_eq_PStr (x : pyval) (a : string) :
  py_eq x (PStr a) = true -> x = PStr a.
Proof.
  destruct x as [| b | z | f | s]; simpl; try discriminate.
  intros H. apply String.eqb_eq in H. now subst.
Qed.

Lemma py_eq_PStr_refl (a : string) : py_eq (PStr a) (PStr a) = true.
Proof. simpl. apply String.eqb_refl. Qed.






(** [convert_json_to_arrays] returns only if its scan does, and raises
    [UnitChangedError] only if its scan does. *)
Lemma convert_Ok (json_flat : dict pyval) (key_keys : list string)
    (s : Sounding pylist) :
  convert_json_to_arrays json_flat key_keys = Ok s ->
  exists st t,
    scan_keys json_flat key_keys new_scan = Ok st /\
    s = set_sounding_start_time t (_ensure_measurement_integrity (sc_s st)).
Proof.
  unfold convert_json_to_arrays. intros H.
  destruct (scan_keys json_flat key_keys new_scan) as [st|e];
    simpl in H; [|discriminate].
  exists st.
  repeat match type of H with
         | bind ?m _ = _ => destruct m; simpl in H; [|discriminate]
         end.
  injection H as <-. eauto.
Qed.







(* ================================================================= *)
(** ** The extractor: completeness of the series *)

Lemma set_sounding_start_time_get (t : datetime) (s : Sounding pylist)
    (w : variable) :
  get_var w (set_sounding_start_time t s) = get_var w s.
Proof. destruct w; reflexivity. Qed.

Lemma pre_step_time (v : variable) (s : Sounding pylist) :
  time (pre_step v s) = time s.
Proof.
  unfold pre_step. destruct (variable_eqb v v_time);
    [apply integrity_time|reflexivity].
Qed.

(** After the pass no padded series is shorter than the time series, if none
    lagged by more than one sample before. *)
Lemma integrity_catches_up (w : variable) (s : Sounding pylist) :
  padded w = true ->
  length (time s) <= S (length (get_var w s)) ->
  length (time s) <= length (get_var w (_ensure_measurement_integrity s)).
Proof.
  intros Hw Hlag. rewrite integrity_get, Hw, nan_pad_length.
  destruct (Nat.ltb_spec (length (get_var w s)) (length (time s))); lia.
Qed.

(** The length of [w] and of the time series after one successful
    iteration, by the variable the entry reports. *)
Lemma scan_step_lengths (json_flat : dict pyval) (k : string) (st st' : scan)
    (w : variable) :
  padded w = true ->
  scan_step json_flat st k = Ok st' ->
  let s := sc_s st in
  let s' := sc_s st' in
  match field_of json_flat k with
  | Some v =>
      if variable_eqb v v_time then
        length (time s') = S (length (time s)) /\
        length (get_var w s') = length (nan_pad w s)
      else
        length (time s') = length (time s) /\
        length (get_var w s') =
          if variable_eqb v w then S (length (get_var w s))
          else length (get_var w s)
  | None =>
      length (time s') = length (time s) /\
      length (get_var w s') = length (get_var w s)
  end.
Proof.
  intros Hw H. apply scan_step_Ok in H. simpl.
  destruct (field_of json_flat k) as [v|].
  - apply record_sample_Ok in H.
    destruct H as [value [u [_ [_ [Hv [Hother _]]]]]].
    destruct (variable_eqb v v_time) eqn:Et.
    + apply variable_eqb_eq in Et. subst v.
      change (time (sc_s st')) with (get_var v_time (sc_s st')).
      rewrite Hv, length_app. simpl.
      change (get_var v_time (pre_step v_time (sc_s st)))
        with (time (pre_step v_time (sc_s st))).
      rewrite pre_step_time. split; [lia|].
      rewrite Hother by (intros ->; discriminate Hw).
      unfold pre_step. simpl. now rewrite integrity_get, Hw.
    + assert (Hpre : pre_step v (sc_s st) = sc_s st)
        by (unfold pre_step; now rewrite Et).
      rewrite Hpre in Hv, Hother.
      split.
      * change (time (sc_s st')) with (get_var v_time (sc_s st')).
        rewrite Hother; [reflexivity|].
        intros E. subst v. discriminate Et.
      * destruct (variable_eqb v w) eqn:E.
        -- apply variable_eqb_eq in E. subst w.
           rewrite Hv, length_app. simpl. lia.
        -- rewrite Hother; [reflexivity|].
           intros ->. now rewrite variable_eqb_refl in E.
  - destruct H as [Hs _]. split; [|now rewrite Hs].
    change (time (sc_s st')) with (get_var v_time (sc_s st')).
    now rewrite Hs.
Qed.

(** No padded series ever lags the time series by more than one sample. *)
Lemma scan_keys_lag (json_flat : dict pyval) (keys : list string)
    (w : variable) :
  padded w = true ->
  forall st st',
    scan_keys json_flat keys st = Ok st' ->
    length (time (sc_s st)) <= S (length (get_var w (sc_s st))) ->
    length (time (sc_s st')) <= S (length (get_var w (sc_s st'))).
Proof.
  intros Hw. induction keys as [|k rest IH]; intros st st' H Hlag; simpl in H.
  - now injection H as <-.
  - destruct (scan_step json_flat st k) as [st1|e] eqn:Hs; simpl in H;
      [|discriminate].
    apply (IH st1 st' H).
    pose proof (@scan_step_lengths _ _ _ _ w Hw Hs) as L. simpl in L.
    destruct (field_of json_flat k) as [v|]; [|lia].
    destruct (variable_eqb v v_time).
    + rewrite nan_pad_length in L.
      destruct (Nat.ltb_spec (length (get_var w (sc_s st)))
                             (length (time (sc_s st)))); lia.
    + destruct (variable_eqb v w); lia.
Qed.

Lemma scan_keys_in_step (json_flat : dict pyval) (keys : list string)
    (w : variable) :
  padded w = true ->
  forall st st' seen,
    scan_keys json_flat keys st = Ok st' ->
    once_per_step json_flat w keys seen = true ->
    in_step w seen (sc_s st) ->
    exists seen', in_step w seen' (sc_s st').
Proof.
  intros Hw. induction keys as [|k rest IH]; intros st st' seen H Ho Hi;
    simpl in H, Ho.
  - injection H as <-. eauto.
  - destruct (scan_step json_flat st k) as [st1|e] eqn:Hs; simpl in H;
      [|discriminate].
    pose proof (@scan_step_lengths _ _ _ _ w Hw Hs) as L. simpl in L.
    destruct (field_of json_flat k) as [v|].
    + destruct (variable_eqb v v_time).
      * apply (IH st1 st' false H Ho). unfold in_step in *.
        rewrite nan_pad_length in L.
        destruct seen;
          destruct (Nat.ltb_spec (length (get_var w (sc_s st)))
                                 (length (time (sc_s st)))); lia.
      * destruct (variable_eqb v w).
        -- apply andb_prop in Ho. destruct Ho as [Hseen Ho].
           destruct seen; [discriminate Hseen|].
           apply (IH st1 st' true H Ho). unfold in_step in *. lia.
        -- apply (IH st1 st' seen H Ho). unfold in_step in *.
           destruct seen; lia.
    + apply (IH st1 st' seen H Ho). unfold in_step in *. destruct seen; lia.
Qed.

(** C1 (as stated) fails: a variable reported twice after one time stamp
    leaves its series longer than the time series. *)
Lemma series_longer_than_time :
  exists s,
    convert_json_to_arrays two_pressures two_pressures_keys = Ok s /\
    length (time s) = 1 /\
    length (pressure s) = 2 /\
    length (pressure s) <> length (time s).
Proof. eexists. split; [vm_compute; reflexivity|]. simpl. repeat split. lia. Qed.

(** The longitude displacement is not among the series the pass pads: one
    complete time step without it leaves that series empty. *)
Lemma longitude_displacement_not_padded :
  exists s,
    convert_json_to_arrays no_longitude no_longitude_keys = Ok s /\
    length (time s) = 1 /\
    length (displacement_lat s) = 1 /\
    length (displacement_lon s) = 0.
Proof. eexists. split; [vm_compute; reflexivity|]. simpl. repeat split. Qed.

(** C1 (amended).  When [convert_json_to_arrays] returns, each of the seven
    series padded by [_ensure_measurement_integrity] (pressure, temperature,
    dewpoint, windspeed, winddirection, gpm, displacement_lat) is at least as
    long as the time series, and exactly as long when its variable is
    reported at most once after each time stamp and never before the first
    one. *)
Theorem completeness_of_padded_series (json_flat : dict pyval)
    (key_keys : list string) (s : Sounding pylist) :
  convert_json_to_arrays json_flat key_keys = Ok s ->
  forall v : variable,
    padded v = true ->
    length (time s) <= length (get_var v s) /\
    (once_per_step json_flat v key_keys true = true ->
     length (get_var v s) = length (time s)).
Proof.
  intros H v Hv. apply convert_Ok in H. destruct H as [st [t [Hscan ->]]].
  change (time (set_sounding_start_time t
                  (_ensure_measurement_integrity (sc_s st))))
    with (time (_ensure_measurement_integrity (sc_s st))).
  rewrite set_sounding_start_time_get, integrity_time.
  split.
  - apply integrity_catches_up; [exact Hv|].
    apply (@scan_keys_lag json_flat key_keys v Hv new_scan st Hscan).
    destruct v; simpl; lia.
  - intros Ho.
    destruct (@scan_keys_in_step json_flat key_keys v Hv new_scan st true
                Hscan Ho) as [seen Hi].
    { destruct v; reflexivity. }
    rewrite integrity_get, Hv, nan_pad_length. unfold in_step in Hi.
    destruct seen;
      destruct (Nat.ltb_spec (length (get_var v (sc_s st)))
                             (length (time (sc_s st)))); lia.
Qed.

Lemma completeness_of_padded_series_witness :
  exists s,
    convert_json_to_arrays no_longitude no_longitude_keys = Ok s /\
    length (time s) <= length (temperature s) /\
    length (temperature s) = length (time s).
Proof.
  destruct (convert_json_to_arrays no_longitude no_longitude_keys)
    as [s|e] eqn:E; [|vm_compute in E; discriminate E].
  exists s. split; [reflexivity|].
  destruct (@completeness_of_padded_series no_longitude no_longitude_keys s E
              v_temperature eq_refl) as [Hle Heq].
  split; [exact Hle|]. apply Heq. reflexivity.
Defined.

(* ================================================================= *)
(** ** Binary64 rounding: known values *)

(** [0.1] is the double [3602879701896397 / 2 ^ 55]; [0.1 + 0.2] is
    [0.30000000000000004], not [0.3]; [1.0 / 3.0] has 53 significant
    bits. *)
Example round64_decimal_fractions :
  float_lit 0.1 = FFin (Q2Qc (3602879701896397 # 36028797018963968)) /\
  fadd (float_lit 0.1) (float_lit 0.2) = float_lit 0.30000000000000004 /\
  fadd (float_lit 0.1) (float_lit 0.2) <> float_lit 0.3 /\
  fdiv (FFin (Qz 1)) (FFin (Qz 3))
  = FFin (Q2Qc (6004799503160661 # 18014398509481984)).
Proof.
  repeat split; vm_compute; try reflexivity. intros H. discriminate H.
Qed.

(** The largest double stays, half a unit above it rounds to an infinity;
    half the smallest subnormal rounds to zero, three quarters of it to the
    smallest subnormal. *)
Example round64_range :
  round64 (Qz (2 ^ 1024 - 2 ^ 971)) = FFin (Qz (2 ^ 1024 - 2 ^ 971)) /\
  round64 (Qz (2 ^ 1024 - 2 ^ 970)) = FInf false /\
  round64 (Qz (- 2 ^ 1024)) = FInf true /\
  round64 (Q2Qc (1 # 2 ^ 1075)) = FFin (Qz 0) /\
  round64 (Q2Qc (3 # 2 ^ 1076)) = FFin (Q2Qc (1 # 2 ^ 1074)).
Proof. repeat split; vm_compute; reflexivity. Qed.

(* ================================================================= *)
(** ** [expected_unit_check] *)

Lemma expected_unit_check_for_each (s : Sounding ndarray) :
  expected_unit_check s = for_each check_var variables s.
Proof. reflexivity. Qed.

Lemma py_eq_PStr_iff (x : pyval) (a : string) :
  py_eq x (PStr a) = true <-> x = PStr a.
Proof.
  split; [apply py_eq_PStr|]. intros ->. apply py_eq_PStr_refl.
Qed.

(** One variable: what a successful check leaves behind. *)
Lemma check_var_Ok (var : variable) (s s' : Sounding ndarray) :
  check_var var s = Ok s' ->
  normalised var s s' /\
  (forall w, w <> var ->
             get_var w s' = get_var w s /\ get_unit w s' = get_unit w s) /\
  same_frame s s'.
Proof.
  unfold check_var, normalised. intros H.
  destruct (py_eq (get_unit var s) (PStr (target_of var))) eqn:E;
    cbn [negb] in H.
  - injection H as <-. apply py_eq_PStr in E.
    split; [left; auto|]. split; [auto|apply same_frame_refl].
  - destruct (get_unit var s) as [| | | |u] eqn:U; try discriminate H.
    destruct (dict_get converter_dict (u ++ "-->" ++ target_of var))
      as [func|] eqn:D; [|discriminate H].
    injection H as <-.
    split; [|split; [|apply same_frame_set_attr]].
    + right. exists u, func.
      rewrite get_var_set_attr, get_unit_set_attr, variable_eqb_refl.
      repeat split; auto.
      intros ->. now rewrite py_eq_PStr_refl in E.
    + intros w Hw. rewrite get_var_set_attr, get_unit_set_attr.
      destruct (variable_eqb var w) eqn:Ew; [|auto].
      apply variable_eqb_eq in Ew. congruence.
Qed.

(** One variable: the check returns exactly when the unit is acceptable, and
    raises [UnexpectedUnit] for a recorded unit that is not. *)
Lemma check_var_unit_ok (var : variable) (s : Sounding ndarray) :
  if unit_ok var s then exists s', check_var var s = Ok s'
  else match get_unit var s with
       | PStr u => check_var var s = Raise (UnexpectedUnit (bufr_of var) (PStr u))
       | _ => check_var var s = Raise TypeError
       end.
Proof.
  unfold unit_ok, check_var.
  destruct (py_eq (get_unit var s) (PStr (target_of var)));
    cbn [negb orb]; [eauto|].
  destruct (get_unit var s) as [| | | |u]; try reflexivity.
  destruct (dict_get converter_dict (u ++ "-->" ++ target_of var)); eauto.
Qed.

Lemma unit_ok_ext (w : variable) (s s' : Sounding ndarray) :
  get_unit w s' = get_unit w s -> unit_ok w s' = unit_ok w s.
Proof. unfold unit_ok. now intros ->. Qed.

Lemma for_each_check_Ok (vars : list variable) :
  NoDup vars ->
  forall s s' : Sounding ndarray,
    for_each check_var vars s = Ok s' ->
    (forall w, In w vars -> normalised w s s') /\
    (forall w, ~ In w vars ->
               get_var w s' = get_var w s /\ get_unit w s' = get_unit w s) /\
    same_frame s s'.
Proof.
  induction 1 as [|var rest Hnin Hnd IH]; intros s s' H; simpl in H.
  - injection H as <-. split; [intros w []|].
    split; [auto|apply same_frame_refl].
  - destruct (check_var var s) as [s1|e] eqn:C; simpl in H; [|discriminate].
    apply check_var_Ok in C. destruct C as [Cn [Co Cf]].
    destruct (IH s1 s' H) as [In1 [Out1 F1]].
    split; [|split].
    + intros w [<-|Hw].
      * destruct (Out1 var Hnin) as [Hv Hu].
        unfold normalised in *. rewrite Hv, Hu. exact Cn.
      * assert (Hne : w <> var) by (intros ->; contradiction).
        destruct (Co w Hne) as [Hv Hu].
        specialize (In1 w Hw). unfold normalised in *.
        now rewrite Hv, Hu in In1.
    + intros w Hw.
      assert (Hne : w <> var) by (intros ->; apply Hw; now left).
      destruct (Co w Hne) as [Hv Hu].
      destruct (Out1 w) as [Hv1 Hu1]; [intros Hin; apply Hw; now right|].
      split; congruence.
    + eapply same_frame_trans; eassumption.
Qed.


Lemma for_each_check_error (vars : list variable) :
  NoDup vars ->
  forall s : Sounding ndarray,
    (forall w, In w vars -> exists u, get_unit w s = PStr u) ->
    (exists w, In w vars /\ unit_ok w s = false) ->
    exists w u,
      In w vars /\ get_unit w s = PStr u /\ unit_ok w s = false /\
      for_each check_var vars s = Raise (UnexpectedUnit (bufr_of w) (PStr u)).
Proof.
  induction 1 as [|var rest Hnin Hnd IH]; intros s Hrec [w0 [Hin0 Hbad]];
    [destruct Hin0|].
  simpl. pose proof (check_var_unit_ok var s) as C.
  destruct (unit_ok var s) eqn:Ok1.
  - destruct C as [s1 C]. rewrite C. simpl.
    apply check_var_Ok in C. destruct C as [_ [Co _]].
    assert (Hsame : forall w, In w rest -> get_unit w s1 = get_unit w s).
    { intros w Hw. apply Co. intros ->. contradiction. }
    destruct (IH s1) as [w [u [Hw [Hu [Hb Hr]]]]].
    + intros w Hw. rewrite (Hsame w Hw). apply Hrec. now right.
    + destruct Hin0 as [<-|Hin0]; [congruence|].
      exists w0. split; [exact Hin0|].
      now rewrite (@unit_ok_ext w0 s s1 (Hsame w0 Hin0)).
    + exists w, u. rewrite <- (Hsame w Hw).
      rewrite <- (@unit_ok_ext w s s1 (Hsame w Hw)). auto.
  - destruct (Hrec var (or_introl eq_refl)) as [u Hu].
    rewrite Hu in C. exists var, u. rewrite C. auto.
Qed.





(* ================================================================= *)
(** ** [exclude_1000hPa_gpm] *)

Lemma filter_seq_shift (f : nat -> bool) (start len : nat) :
  filter f (seq (S start) len) =
    map S (filter (fun i => f (S i)) (seq start len)).
Proof.
  revert start. induction len as [|len IH]; intros start; [reflexivity|].
  simpl. rewrite IH. now destruct (f (S start)).
Qed.

(** Indexing with the mask [~np.isnan(t)] keeps the rows whose time is not
    missing, in their order. *)
Lemma bool_index_mask (t a : ndarray) :
  length a = length t ->
  bool_index a (map (fun x => negb (isnan x)) t) = Ok (rows (kept_rows t) a).
Proof.
  intros Hlen.
  assert (E : bool_index a (map (fun x => negb (isnan x)) t)
              = Ok (map snd (filter fst
                      (combine (map (fun x => negb (isnan x)) t) a)))).
  { unfold bool_index. destruct t as [|x t]; [reflexivity|].
    cbn [map]. now rewrite <- (map_cons (fun x => negb (isnan x)) x t),
      length_map, <- Hlen, Nat.eqb_refl. }
  rewrite E. clear E.
  f_equal. unfold rows, kept_rows.
  revert a Hlen. induction t as [|x t IH]; intros [|y a] Hlen;
    try discriminate Hlen; [reflexivity|].
  injection Hlen as Hlen. specialize (IH a Hlen).
  cbn [length seq map combine filter fst].
  rewrite filter_seq_shift.
  cbn [nth].
  destruct (isnan x); cbn [negb map snd nth]; rewrite map_map; cbn [nth];
    rewrite <- IH; reflexivity.
Qed.

Lemma bool_index_length_error (t a : ndarray) :
  t <> [] ->
  length a <> length t ->
  bool_index a (map (fun x => negb (isnan x)) t) = Raise IndexError.
Proof.
  intros Ht Hlen. unfold bool_index. destruct t as [|x t]; [contradiction|].
  cbn [map]. rewrite <- (map_cons (fun x => negb (isnan x)) x t), length_map.
  destruct (Nat.eqb_spec (length (x :: t)) (length a));
    [congruence|reflexivity].
Qed.

Lemma kept_rows_spec (t : ndarray) (i : nat) :
  In i (kept_rows t) <-> i < length t /\ isnan (nth i t FNaN) = false.
Proof.
  unfold kept_rows. rewrite filter_In, in_seq, negb_true_iff. simpl.
  split; intros [H1 H2]; (split; [lia|exact H2]).
Qed.

Lemma StronglySorted_lt_seq (start len : nat) :
  StronglySorted lt (seq start len).
Proof.
  revert start. induction len as [|len IH]; intros start; constructor.
  - apply IH.
  - apply Forall_forall. intros x Hx. apply in_seq in Hx. lia.
Qed.

Lemma StronglySorted_filter {A : Type} (R : A -> A -> Prop) (f : A -> bool)
    (l : list A) :
  StronglySorted R l -> StronglySorted R (filter f l).
Proof.
  induction 1 as [|x l Hl IH Hx]; simpl; [constructor|].
  destruct (f x); [|exact IH].
  constructor; [exact IH|].
  apply Forall_forall. intros y Hy. apply filter_In in Hy.
  rewrite Forall_forall in Hx. now apply Hx.
Qed.

Lemma kept_rows_increasing (t : ndarray) : StronglySorted lt (kept_rows t).
Proof. apply StronglySorted_filter, StronglySorted_lt_seq. Qed.

(** C7.  On a sounding whose twelve series are set and aligned with the
    time series, [exclude_1000hPa_gpm] returns; each of the twelve series
    is reduced to its rows at [kept_rows], the same indices for all of them:
    exactly the indices whose time is not NaN, whatever the other variables
    hold there, in increasing order.  Nothing else changes. *)
Theorem exclude_1000hPa_gpm_spec (s : Sounding ndarray) :
  aligned s ->
  let kept := kept_rows (time s) in
  (forall i, In i kept <->
             i < length (time s) /\ isnan (nth i (time s) FNaN) = false) /\
  StronglySorted lt kept /\
  exists s',
    exclude_1000hPa_gpm s = Ok s' /\
    twelve_series s' = map (option_map (rows kept)) (twelve_series s) /\
    length (twelve_series s') = 12 /\
    other_fields s' = other_fields s.
Proof.
  intros Ha kept.
  split; [apply kept_rows_spec|]. split; [apply kept_rows_increasing|].
  unfold aligned, twelve_series in Ha.
  repeat match goal with
         | H : Forall _ (_ :: _) |- _ => inversion H; subst; clear H
         | H : exists a, _ |- _ => destruct H as [? [? ?]]
         | H : Some _ = Some _ |- _ => injection H as H; subst
         end.
  unfold exclude_1000hPa_gpm.
  repeat match goal with
         | H : ?o = Some _ |- _ => rewrite H
         end.
  cbn [attr bind].
  repeat (rewrite bool_index_mask by assumption; cbn [bind]).
  eexists. split; [reflexivity|].
  unfold twelve_series, other_fields. cbn.
  repeat match goal with
         | H : ?o = Some _ |- _ => rewrite H
         end.
  repeat split.
Qed.

Lemma exclude_1000hPa_gpm_witness :
  exists s',
    exclude_1000hPa_gpm
      (profile 1 [FNaN; FFin (Qz 0); FFin (Qz 2)]
                 [FFin (Qz 1000); FNaN; FFin (Qz 990)]) = Ok s' /\
    time s' = [FFin (Qz 0); FFin (Qz 2)] /\
    pressure s' = [FNaN; FFin (Qz 990)].
Proof.
  destruct (@exclude_1000hPa_gpm_spec
              (profile 1 [FNaN; FFin (Qz 0); FFin (Qz 2)]
                         [FFin (Qz 1000); FNaN; FFin (Qz 990)]))
    as [_ [_ [s' [H [Ht _]]]]].
  { unfold aligned. repeat constructor; eexists; split; reflexivity. }
  exists s'. split; [exact H|].
  unfold twelve_series in Ht. cbn in Ht.
  injection Ht as Htime _ _ Hp _ _ _ _ _ _ _ _.
  split; [exact Htime|exact Hp].
Defined.

(* ================================================================= *)
(** ** The sort order and [np.argsort] *)

Lemma fle_total (a b : pyfloat) : fle a b = true \/ fle b a = true.
Proof.
  destruct a as [|[|]|p], b as [|[|]|q]; simpl; auto.
  destruct (Qlt_le_dec q p) as [H|H].
  - right. apply Qle_bool_iff. now apply Qlt_le_weak.
  - left. now apply Qle_bool_iff.
Qed.

Lemma fle_trans (a b c : pyfloat) :
  fle a b = true -> fle b c = true -> fle a c = true.
Proof.
  destruct a as [|[|]|p], b as [|[|]|q], c as [|[|]|r]; simpl;
    try reflexivity; try discriminate; auto.
  rewrite !Qle_bool_iff. apply Qle_trans.
Qed.

Lemma fle_refl (a : pyfloat) : fle a a = true.
Proof. destruct (fle_total a a); assumption. Qed.

Section InsertionSort.
Variable le : nat -> nat -> bool.
Hypothesis le_total : forall i j, le i j = true \/ le j i = true.
Hypothesis le_trans : forall i j k, le i j = true -> le j k = true -> le i k = true.

Let R (i j : nat) : Prop := le i j = true.

Lemma insert_by_perm (i : nat) (l : list nat) :
  Permutation (insert_by le i l) (i :: l).
Proof.
  induction l as [|j l IH]; simpl; [apply Permutation_refl|].
  destruct (le i j); [apply Permutation_refl|].
  eapply perm_trans; [apply perm_skip, IH|apply perm_swap].
Qed.

Lemma insert_by_sorted (i : nat) (l : list nat) :
  StronglySorted R l -> StronglySorted R (insert_by le i l).
Proof.
  induction 1 as [|j l Hl IH Hj]; simpl.
  - repeat constructor.
  - destruct (le i j) eqn:E.
    + constructor; [now constructor|].
      constructor; [exact E|].
      eapply Forall_impl; [|exact Hj]. intros k Hk. exact (le_trans E Hk).
    + constructor; [exact IH|].
      eapply Permutation_Forall;
        [apply Permutation_sym, insert_by_perm|].
      constructor; [|exact Hj].
      destruct (le_total i j) as [H|H]; [congruence|exact H].
Qed.

Lemma isort_by_perm (l : list nat) : Permutation (isort_by le l) l.
Proof.
  induction l as [|i l IH]; simpl; [constructor|].
  eapply perm_trans; [apply insert_by_perm|now apply perm_skip].
Qed.

Lemma isort_by_sorted (l : list nat) : StronglySorted R (isort_by le l).
Proof.
  induction l as [|i l IH]; simpl; [constructor|now apply insert_by_sorted].
Qed.
End InsertionSort.

Lemma key_leb_total (a : ndarray) (i j : nat) :
  key_leb a i j = true \/ key_leb a j i = true.
Proof. apply fle_total. Qed.

Lemma key_leb_trans (a : ndarray) (i j k : nat) :
  key_leb a i j = true -> key_leb a j k = true -> key_leb a i k = true.
Proof. apply fle_trans. Qed.

(** The reference sort meets the contract of [np.argsort]. *)
Lemma argsort_stable_spec : argsort_spec argsort_stable.
Proof.
  intros a. unfold argsort_stable. split.
  - apply isort_by_perm.
  - apply (@isort_by_sorted (key_leb a) (key_leb_total a) (@key_leb_trans a)).
Qed.

Lemma StronglySorted_weaken_In {A : Type} (P Q : A -> A -> Prop) (l : list A) :
  (forall x y, In x l -> In y l -> P x y -> Q x y) ->
  StronglySorted P l -> StronglySorted Q l.
Proof.
  intros HPQ H. induction H as [|x l Hl IH Hx]; constructor.
  - apply IH. intros a b Ha Hb. apply HPQ; now right.
  - rewrite Forall_forall in *. intros y Hy.
    apply HPQ; [now left|now right|now apply Hx].
Qed.

Lemma sort_keys_nth (t : ndarray) (d : Z) (i : nat) :
  i < length t ->
  nth i (sort_keys t d) FNaN =
    if isnan (nth i t FNaN) then neg_inf_times d else nth i t FNaN.
Proof.
  unfold sort_keys. revert i.
  induction t as [|x t IH]; intros i Hi; simpl in Hi; [lia|].
  destruct i as [|i]; [reflexivity|]. simpl. apply IH. lia.
Qed.

Lemma sort_keys_length (t : ndarray) (d : Z) :
  length (sort_keys t d) = length t.
Proof. apply length_map. Qed.

Lemma argsort_bounds (argsort : ndarray -> list nat) (a : ndarray) (i : nat) :
  argsort_spec argsort -> In i (argsort a) -> i < length a.
Proof.
  intros Hspec Hi. destruct (Hspec a) as [Hp _].
  apply (Permutation_in _ Hp) in Hi. apply in_seq in Hi. lia.
Qed.

(* ================================================================= *)
(** ** [nan_argsort] *)

(** C2 (as stated) fails: with direction [+1] the missing time is listed
    first, with direction [-1] last. *)
Lemma missing_times_not_where_claimed :
  ~ (forall argsort : ndarray -> list nat,
        argsort_spec argsort ->
        forall t : ndarray,
          missing_at_end t (nan_argsort argsort t 1) /\
          missing_at_start t (nan_argsort argsort t (-1))).
Proof.
  intros H.
  destruct (H argsort_stable argsort_stable_spec
              [FFin (Qz 5); FNaN; FFin (Qz 3)]) as [Hend _].
  assert (E := Hend 0 1 ltac:(vm_compute; lia) eq_refl).
  vm_compute in E. discriminate E.
Qed.

Lemma fle_neg_inf (x : pyfloat) : fle x (FInf true) = true -> x = FInf true.
Proof. destruct x as [|[|]|q]; simpl; try discriminate; reflexivity. Qed.

Lemma fle_pos_inf (x : pyfloat) :
  fle (FInf false) x = true -> x = FInf false \/ x = FNaN.
Proof. destruct x as [|[|]|q]; simpl; try discriminate; auto. Qed.

(** C2 (amended).  For every [np.argsort] meeting its contract, the order
    produced by [nan_argsort] is a permutation of the indices in which the
    times that are not missing are in nondecreasing order, the missing times
    come first when direction is [+1] and last when direction is [-1]. *)
Theorem nan_argsort_spec (argsort : ndarray -> list nat) (t : ndarray)
    (direction : Z) :
  argsort_spec argsort ->
  let idx := nan_argsort argsort t direction in
  Permutation idx (seq 0 (length t)) /\
  StronglySorted (before t direction) idx /\
  ((forall x, In x t -> x <> FInf true) ->
   direction = 1%Z -> missing_at_start t idx) /\
  ((forall x, In x t -> x <> FInf false) ->
   direction = (-1)%Z -> missing_at_end t idx).
Proof.
  intros Hspec idx. subst idx. unfold nan_argsort.
  destruct (Hspec (sort_keys t direction)) as [Hperm Hsorted].
  rewrite sort_keys_length in Hperm.
  assert (Hbound : forall i, In i (argsort (sort_keys t direction)) ->
                             i < length t).
  { intros i Hi. apply (Permutation_in _ Hperm) in Hi.
    apply in_seq in Hi. lia. }
  assert (Hbefore : StronglySorted (before t direction)
                      (argsort (sort_keys t direction))).
  { apply (StronglySorted_weaken_In (P := key_le (sort_keys t direction)));
      [|exact Hsorted].
    intros i j Hi Hj Hle. unfold key_le in Hle.
    rewrite !sort_keys_nth in Hle by now apply Hbound.
    unfold before. cbn zeta.
    destruct (isnan (nth i t FNaN)) eqn:Ni, (isnan (nth j t FNaN)) eqn:Nj;
      repeat split; try discriminate; auto; intros ->; simpl in Hle; intros _.
    - apply fle_pos_inf in Hle. destruct Hle as [E|E]; [now right|].
      rewrite E in Nj. discriminate Nj.
    - right. now apply fle_neg_inf. }
  split; [exact Hperm|]. split; [exact Hbefore|].
  assert (Hpair : forall p q,
             p < q < length (argsort (sort_keys t direction)) ->
             before t direction
               (nth p (argsort (sort_keys t direction)) 0)
               (nth q (argsort (sort_keys t direction)) 0)).
  { revert Hbefore. generalize (argsort (sort_keys t direction)) as l.
    induction 1 as [|x l Hl IH Hx]; intros p q Hpq; [simpl in Hpq; lia|].
    destruct q as [|q]; [lia|]. destruct p as [|p]; simpl.
    - rewrite Forall_forall in Hx. apply Hx, nth_In. simpl in Hpq. lia.
    - apply IH. simpl in Hpq. lia. }
  split.
  - intros Hfin -> p q Hpq Hq.
    destruct (Hpair p q Hpq) as [_ [H1 _]].
    destruct (H1 eq_refl Hq) as [E|E]; [exact E|].
    exfalso. apply (Hfin (FInf true)); [|reflexivity].
    rewrite <- E. apply nth_In, Hbound, nth_In. lia.
  - intros Hfin -> p q Hpq Hp.
    destruct (Hpair p q Hpq) as [_ [_ H2]].
    destruct (H2 eq_refl Hp) as [E|E]; [exact E|].
    exfalso. apply (Hfin (FInf false)); [|reflexivity].
    rewrite <- E. apply nth_In, Hbound, nth_In. lia.
Qed.

Lemma nan_argsort_witness :
  missing_at_start [FFin (Qz 5); FNaN; FFin (Qz 3)]
    (nan_argsort argsort_stable [FFin (Qz 5); FNaN; FFin (Qz 3)] 1) /\
  missing_at_end [FFin (Qz 5); FNaN; FFin (Qz 3)]
    (nan_argsort argsort_stable [FFin (Qz 5); FNaN; FFin (Qz 3)] (-1)).
Proof.
  split.
  - apply (proj1 (proj2 (proj2
             (@nan_argsort_spec argsort_stable
                [FFin (Qz 5); FNaN; FFin (Qz 3)] 1 argsort_stable_spec))));
      [|reflexivity].
    intros x Hx. simpl in Hx.
    repeat (destruct Hx as [<-|Hx]; [discriminate|]). destruct Hx.
  - apply (proj2 (proj2 (proj2
             (@nan_argsort_spec argsort_stable
                [FFin (Qz 5); FNaN; FFin (Qz 3)] (-1) argsort_stable_spec))));
      [|reflexivity].
    intros x Hx. simpl in Hx.
    repeat (destruct Hx as [<-|Hx]; [discriminate|]). destruct Hx.
Defined.

(* ================================================================= *)
(** ** [sort_sounding_by_time] *)

Lemma take_Ok (a : ndarray) (idx : list nat) (l : ndarray) :
  take a idx = Ok l ->
  l = rows idx a /\ length l = length idx /\
  Forall (fun i => i < length a) idx.
Proof.
  revert l. induction idx as [|i idx IH]; intros l H; simpl in H.
  - injection H as <-. repeat split. constructor.
  - destruct (nth_error a i) as [x|] eqn:E; [|discriminate H].
    destruct (take a idx) as [xs|e]; simpl in H; [|discriminate H].
    injection H as <-. destruct (IH xs eq_refl) as [-> [Hlen Hall]].
    split; [|split].
    + unfold rows. simpl. f_equal. symmetry. now apply nth_error_nth.
    + simpl. now rewrite Hlen.
    + constructor; [|exact Hall]. apply nth_error_Some. congruence.
Qed.

Lemma take_seq (a : ndarray) : take a (seq 0 (length a)) = Ok a.
Proof.
  assert (G : forall pre post : ndarray,
             take (pre ++ post) (seq (length pre) (length post)) = Ok post).
  { intros pre post. revert pre.
    induction post as [|x post IH]; intros pre; [reflexivity|].
    simpl. rewrite nth_error_app2, Nat.sub_diag by lia. simpl.
    specialize (IH (pre ++ [x])).
    rewrite <- app_assoc, length_app, Nat.add_1_r in IH. simpl in IH.
    now rewrite IH. }
  exact (G [] a).
Qed.

Lemma rows_nth (idx : list nat) (a : ndarray) (p : nat) :
  p < length idx -> nth p (rows idx a) FNaN = nth (nth p idx 0) a FNaN.
Proof.
  unfold rows. revert p.
  induction idx as [|i idx IH]; intros p Hp; simpl in Hp; [lia|].
  destruct p as [|p]; [reflexivity|]. simpl. apply IH. lia.
Qed.

Lemma rows_length (idx : list nat) (a : ndarray) :
  length (rows idx a) = length idx.
Proof. apply length_map. Qed.

Lemma sort_keys_rows (idx : list nat) (t : ndarray) (d : Z) :
  Forall (fun i => i < length t) idx ->
  sort_keys (rows idx t) d = rows idx (sort_keys t d).
Proof.
  intros H. unfold rows. unfold sort_keys at 1. rewrite map_map.
  apply map_ext_in. intros i Hi. rewrite Forall_forall in H.
  symmetry. apply sort_keys_nth. now apply H.
Qed.

Lemma StronglySorted_nth {A : Type} (R : A -> A -> Prop) (l : list A) (d : A) :
  StronglySorted R l ->
  forall p q, p < q < length l -> R (nth p l d) (nth q l d).
Proof.
  induction 1 as [|x l Hl IH Hx]; intros p q Hpq; [simpl in Hpq; lia|].
  destruct q as [|q]; [lia|]. destruct p as [|p]; simpl.
  - rewrite Forall_forall in Hx. apply Hx, nth_In. simpl in Hpq. lia.
  - apply IH. simpl in Hpq. lia.
Qed.

Lemma StronglySorted_seq (R : nat -> nat -> Prop) (start len : nat) :
  (forall p q, start <= p < q /\ q < start + len -> R p q) ->
  StronglySorted R (seq start len).
Proof.
  revert start. induction len as [|len IH]; intros start H; constructor.
  - apply IH. intros p q Hpq. apply H. lia.
  - apply Forall_forall. intros q Hq. apply in_seq in Hq. apply H. lia.
Qed.

(** Two sorted arrangements of the same elements are equal when the order
    is antisymmetric on them. *)
Lemma sorted_perm_unique {A : Type} (R : A -> A -> Prop) (l1 l2 : list A) :
  (forall x y, In x l1 -> In y l1 -> R x y -> R y x -> x = y) ->
  StronglySorted R l1 -> StronglySorted R l2 -> Permutation l1 l2 ->
  l1 = l2.
Proof.
  revert l2. induction l1 as [|a l1 IH]; intros l2 Hanti H1 H2 Hp.
  - apply Permutation_nil in Hp. now subst.
  - destruct l2 as [|b l2];
      [apply Permutation_sym, Permutation_nil in Hp; discriminate Hp|].
    inversion H1 as [|? ? H1' Ha]; subst.
    inversion H2 as [|? ? H2' Hb]; subst.
    rewrite Forall_forall in Ha, Hb.
    assert (Hab : a = b).
    { assert (Ina : In a (b :: l2))
        by (apply (Permutation_in _ Hp); now left).
      assert (Inb : In b (a :: l1))
        by (apply (Permutation_in _ (Permutation_sym Hp)); now left).
      destruct Ina as [E|Ina]; [now subst|].
      destruct Inb as [E|Inb]; [now subst|].
      apply Hanti; [now left|now right|now apply Ha|now apply Hb]. }
    subst b. f_equal. apply IH; [|assumption|assumption|].
    + intros x y Hx Hy. apply Hanti; now right.
    + now apply Permutation_cons_inv in Hp.
Qed.

(** A stable insertion sort leaves a sorted list as it is. *)
Lemma isort_by_sorted_id (le : nat -> nat -> bool) (l : list nat) :
  StronglySorted (fun i j => le i j = true) l -> isort_by le l = l.
Proof.
  induction 1 as [|i l Hl IH Hi]; [reflexivity|].
  simpl. change (fold_right (insert_by le) [] l) with (isort_by le l).
  rewrite IH. destruct l as [|j l]; [reflexivity|].
  simpl. inversion Hi as [|? ? Hij _]; subst. now rewrite Hij.
Qed.

Section SortTwice.
Variable argsort : ndarray -> list nat.
Hypothesis argsort_ok : argsort_spec argsort.

Lemma sorter_length (a : ndarray) : length (argsort a) = length a.
Proof.
  destruct (argsort_ok a) as [Hp _].
  apply Permutation_length in Hp. now rewrite length_seq in Hp.
Qed.

(** The keys of an array rearranged by its own sorter are in order. *)
Lemma sorted_keys_in_order (keys : ndarray) :
  StronglySorted (key_le (rows (argsort keys) keys))
                 (seq 0 (length keys)).
Proof.
  destruct (argsort_ok keys) as [Hp Hs].
  apply StronglySorted_seq. intros p q Hpq. unfold key_le.
  rewrite !rows_nth by (rewrite sorter_length; lia).
  apply (@StronglySorted_nth _ _ _ 0 Hs). rewrite sorter_length. lia.
Qed.

Lemma distinct_keys_rows (keys : ndarray) :
  distinct_keys keys -> distinct_keys (rows (argsort keys) keys).
Proof.
  intros Hd p q Hp Hq. rewrite rows_length, sorter_length in Hp, Hq.
  unfold key_le. rewrite !rows_nth by (rewrite sorter_length; lia).
  intros H1 H2.
  destruct (argsort_ok keys) as [Hperm _].
  assert (Hnd : NoDup (argsort keys))
    by (apply (Permutation_NoDup (Permutation_sym Hperm)), seq_NoDup).
  assert (Hb : forall r, r < length keys ->
                         nth r (argsort keys) 0 < length keys).
  { intros r Hr. apply (@argsort_bounds argsort keys _ argsort_ok), nth_In.
    rewrite sorter_length. lia. }
  apply (proj1 (NoDup_nth (argsort keys) 0) Hnd);
    try (rewrite sorter_length; lia).
  apply Hd; auto.
Qed.

(** With pairwise distinct keys, sorting sorted keys gives the identity. *)
Lemma sorter_of_sorted (keys : ndarray) :
  distinct_keys keys ->
  argsort (rows (argsort keys) keys) = seq 0 (length keys).
Proof.
  intros Hd.
  set (keys1 := rows (argsort keys) keys).
  assert (Hlen : length keys1 = length keys)
    by (unfold keys1; now rewrite rows_length, sorter_length).
  destruct (argsort_ok keys1) as [Hp Hs]. rewrite Hlen in Hp.
  apply (sorted_perm_unique (R := key_le keys1)); auto.
  - intros x y Hx Hy.
    apply (@distinct_keys_rows _ Hd);
      now apply (@argsort_bounds argsort keys1 _ argsort_ok).
  - apply sorted_keys_in_order.
Qed.

Ltac bind_inv H :=
  repeat match type of H with
         | bind ?m _ = Ok _ =>
             let E := fresh "E" in
             destruct m eqn:E; cbn [bind] in H; [|discriminate H]
         end.

(** The second sort returns the sounding unchanged as soon as its sorter is
    the identity. *)
Lemma sort_twice_identity (s s1 : Sounding ndarray) (d : Z) :
  direction s = Some d ->
  sort_sounding_by_time argsort s = Ok s1 ->
  nan_argsort argsort (time s1) d = seq 0 (length (time s)) ->
  sort_sounding_by_time argsort s1 = Ok s1.
Proof.
  intros Hd H Hid. unfold sort_sounding_by_time in H.
  rewrite Hd in H. cbn [attr bind] in H.
  bind_inv H. injection H as <-.
  unfold sort_sounding_by_time. cbn [direction time ascentrate gpm pressure
    temperature relativehumidity dewpoint mixingratio windspeed winddirection
    latitude longitude attr bind] in *.
  try rewrite Hd. cbn [attr bind]. rewrite Hid.
  assert (Hn : length (nan_argsort argsort (time s) d) = length (time s))
    by (unfold nan_argsort; now rewrite sorter_length, sort_keys_length).
  repeat match goal with
         | E : take _ _ = Ok ?l |- _ =>
             apply take_Ok in E; destruct E as [_ [E _]]; rewrite Hn in E;
             rewrite <- E; rewrite (take_seq l); cbn [bind]; try rewrite E;
             clear E
         end.
  reflexivity.
Qed.

Lemma sorted_time (s s1 : Sounding ndarray) (d : Z) :
  direction s = Some d ->
  sort_sounding_by_time argsort s = Ok s1 ->
  time s1 = rows (nan_argsort argsort (time s) d) (time s).
Proof.
  intros Hd H. unfold sort_sounding_by_time in H.
  rewrite Hd in H. cbn [attr bind] in H.
  destruct (take (time s) (nan_argsort argsort (time s) d)) as [t1|e] eqn:E;
    cbn [bind] in H; [|discriminate H].
  bind_inv H. injection H as <-. cbn [time].
  now apply take_Ok in E.
Qed.

Lemma sorted_keys (s s1 : Sounding ndarray) (d : Z) :
  direction s = Some d ->
  sort_sounding_by_time argsort s = Ok s1 ->
  sort_keys (time s1) d =
    rows (argsort (sort_keys (time s) d)) (sort_keys (time s) d).
Proof.
  intros Hd H. rewrite (@sorted_time _ _ _ Hd H). unfold nan_argsort.
  apply sort_keys_rows. apply Forall_forall. intros i Hi.
  apply (@argsort_bounds argsort _ _ argsort_ok) in Hi.
  now rewrite sort_keys_length in Hi.
Qed.

(** X29.  For every [np.argsort] meeting its contract: if the sort keys of
    the time series are pairwise distinct (no repeated time value, at most
    one missing value), then sorting a sounding that has just been sorted
    returns it unchanged. *)
Theorem sort_twice_distinct (s s1 : Sounding ndarray) (d : Z) :
  direction s = Some d ->
  distinct_keys (sort_keys (time s) d) ->
  sort_sounding_by_time argsort s = Ok s1 ->
  sort_sounding_by_time argsort s1 = Ok s1.
Proof.
  intros Hd Hk H. apply (@sort_twice_identity _ _ _ Hd H).
  unfold nan_argsort. rewrite (@sorted_keys _ _ _ Hd H).
  rewrite (@sorter_of_sorted _ Hk). now rewrite sort_keys_length.
Qed.
End SortTwice.

(** With a stable sort the second sort is the identity whatever the ties. *)
Lemma sort_twice_stable (s s1 : Sounding ndarray) (d : Z) :
  direction s = Some d ->
  sort_sounding_by_time argsort_stable s = Ok s1 ->
  sort_sounding_by_time argsort_stable s1 = Ok s1.
Proof.
  intros Hd H.
  apply (@sort_twice_identity argsort_stable argsort_stable_spec _ _ _ Hd H).
  unfold nan_argsort.
  rewrite (@sorted_keys argsort_stable argsort_stable_spec _ _ _ Hd H).
  set (keys := sort_keys (time s) d).
  unfold argsort_stable at 1.
  rewrite rows_length, (@sorter_length argsort_stable argsort_stable_spec).
  rewrite isort_by_sorted_id;
    [unfold keys; now rewrite sort_keys_length|].
  apply (@sorted_keys_in_order argsort_stable argsort_stable_spec).
Qed.

Lemma sort_twice_distinct_witness :
  exists s1,
    sort_sounding_by_time argsort_stable
      (profile (-1) [FFin (Qz 4); FNaN; FFin (Qz 2)]
                    [FFin (Qz 990); FFin (Qz 1000); FFin (Qz 995)]) = Ok s1 /\
    sort_sounding_by_time argsort_stable s1 = Ok s1.
Proof.
  destruct (sort_sounding_by_time argsort_stable
              (profile (-1) [FFin (Qz 4); FNaN; FFin (Qz 2)]
                 [FFin (Qz 990); FFin (Qz 1000); FFin (Qz 995)]))
    as [s1|e] eqn:E; [|vm_compute in E; discriminate E].
  exists s1. split; [reflexivity|].
  apply (@sort_twice_distinct argsort_stable argsort_stable_spec
           (profile (-1) [FFin (Qz 4); FNaN; FFin (Qz 2)]
              [FFin (Qz 990); FFin (Qz 1000); FFin (Qz 995)])
           s1 (-1)%Z eq_refl); [|exact E].
  intros i j Hi Hj. simpl in Hi, Hj.
  destruct i as [|[|[|i]]]; try lia; destruct j as [|[|[|j]]]; try lia;
    try reflexivity; vm_compute; intros H1 H2; discriminate.
Defined.

(* ================================================================= *)
(** ** [calc_temporal_resolution] *)

(** C3.  The code indexes the array of differences with the most frequent
    value instead of returning that value: for the times [0, 2, 4, 9] the
    differences are [2, 2, 5], their mode is [2], and the function returns
    the difference at index [2], which is [5]; for the times [0, 1] the
    index is out of range. *)
Theorem calc_temporal_resolution_not_mode :
  sampling_intervals (time uneven_times) = [2; 2; 5]%Z /\
  is_mode (sampling_intervals (time uneven_times)) 2%Z /\
  ~ is_mode (sampling_intervals (time uneven_times)) 5%Z /\
  calc_temporal_resolution uneven_times = Ok (FFin (Qz 5)) /\
  calc_temporal_resolution two_times = Raise IndexError.
Proof.
  assert (E : sampling_intervals (time uneven_times) = [2; 2; 5]%Z)
    by (vm_compute; reflexivity).
  rewrite E. split; [reflexivity|]. split; [|split; [|split]].
  - split; [simpl; auto|].
    intros v.
    change (count_occ Z.eq_dec [2; 2; 5]%Z 2%Z) with 2.
    cbn [count_occ]. repeat destruct (Z.eq_dec _ v); lia.
  - intros [_ H]. specialize (H 2%Z).
    change (count_occ Z.eq_dec [2; 2; 5]%Z 2%Z) with 2 in H.
    change (count_occ Z.eq_dec [2; 2; 5]%Z 5%Z) with 1 in H. lia.
  - vm_compute. reflexivity.
  - vm_compute. reflexivity.
Qed.

(* ================================================================= *)
(** ** [flatten_json] *)

(** The counter advances once per list element, at every depth, and not at
    all on a leaf. *)
Lemma flatten_counter (x : json) :
  forall name r out,
    fst (flatten x name (r, out)) = (r + list_elements x)%N.
Proof.
  induction x as [v|l IH|d IH] using json_induction; intros name r out.
  - simpl. lia.
  - revert r out. induction IH as [|a l Ha _ IHl]; intros r out.
    + simpl. lia.
    + specialize (Ha "" r out).
      cbn [flatten list_elements] in *.
      destruct (flatten a "" (r, out)) as [r1 out1]. simpl in Ha. subst r1.
      rewrite IHl. lia.
  - revert r out. induction IH as [|[a xa] d Ha _ IHd]; intros r out.
    + simpl. lia.
    + specialize (Ha a r out).
      cbn [flatten list_elements snd] in *.
      destruct (flatten xa a (r, out)) as [r1 out1]. simpl in Ha. subst r1.
      rewrite IHd. lia.
Qed.

(** *** Keys *)

Lemma digit_char_inj (a b : N) :
  digit_char a = digit_char b -> (a mod 10 = b mod 10)%N.
Proof.
  unfold digit_char. intros H.
  apply (f_equal N_of_ascii) in H.
  assert (Ha : (a mod 10 < 10)%N) by (apply N.mod_upper_bound; lia).
  assert (Hb : (b mod 10 < 10)%N) by (apply N.mod_upper_bound; lia).
  rewrite !N_ascii_embedding in H by lia.
  lia.
Qed.

Lemma low_digits_length (w : nat) (n : N) : length (low_digits w n) = w.
Proof.
  revert n. induction w as [|w IH]; intros n; simpl;
    [reflexivity|now rewrite IH].
Qed.

Lemma low_digits_inj (w : nat) (a b : N) :
  low_digits w a = low_digits w b ->
  (a mod 10 ^ N.of_nat w = b mod 10 ^ N.of_nat w)%N.
Proof.
  revert a b. induction w as [|w IH]; intros a b H.
  - simpl. now rewrite !N.mod_1_r.
  - simpl in H. injection H as Hd Hrest.
    apply digit_char_inj in Hd. apply IH in Hrest.
    rewrite Nat2N.inj_succ, N.pow_succ_r'.
    rewrite !N.Div0.mod_mul_r. lia.
Qed.

Lemma fixed_digits_inj (a b : N) :
  (a < 10 ^ 6)%N -> (b < 10 ^ 6)%N ->
  fixed_digits 7 a = fixed_digits 7 b -> a = b.
Proof.
  intros Ha Hb H. unfold fixed_digits in H.
  apply (f_equal (@rev ascii)) in H. rewrite !rev_involutive in H.
  apply low_digits_inj in H.
  change (10 ^ N.of_nat 7)%N with 10000000%N in H.
  change (10 ^ 6)%N with 1000000%N in Ha, Hb.
  rewrite !N.mod_small in H by lia. exact H.
Qed.

Lemma append_list_inj (l1 l2 : list ascii) (s1 s2 : string) :
  length l1 = length l2 ->
  (string_of_list_ascii l1 ++ s1)%string
  = (string_of_list_ascii l2 ++ s2)%string ->
  l1 = l2 /\ s1 = s2.
Proof.
  revert l2. induction l1 as [|c l1 IH]; intros [|c2 l2] Hlen H;
    try discriminate Hlen.
  - split; [reflexivity|exact H].
  - simpl in H. injection H as -> H. injection Hlen as Hlen.
    destruct (IH l2 Hlen H) as [-> ->]. split; reflexivity.
Qed.

Lemma append_inj_l (s a b : string) :
  (s ++ a)%string = (s ++ b)%string -> a = b.
Proof.
  induction s as [|c s IH]; simpl; intros H; [exact H|].
  injection H as H. now apply IH.
Qed.

Lemma format_07g_small (r : N) :
  (r < 10 ^ 6)%N -> format_07g r = string_of_list_ascii (fixed_digits 7 r).
Proof.
  intros Hr. unfold format_07g.
  destruct (N.ltb_spec r (10 ^ 6)); [reflexivity|lia].
Qed.

(** Below [10^6] the key determines the counter and the name. *)
Lemma flat_key_inj (c r : N) (n n' : string) :
  (c < 10 ^ 6)%N -> (r < 10 ^ 6)%N ->
  flat_key c n = flat_key r n' -> c = r /\ n = n'.
Proof.
  intros Hc Hr H. unfold flat_key in H.
  rewrite !format_07g_small in H by assumption.
  apply append_list_inj in H.
  - destruct H as [Hd Hn]. split; [now apply fixed_digits_inj|].
    now injection Hn.
  - unfold fixed_digits. now rewrite !length_rev, !low_digits_length.
Qed.

(** *** Dicts *)

Lemma dict_set_fresh {V : Type} (d : dict V) (k : string) (v : V) :
  ~ In k (dict_keys d) -> dict_set d k v = d ++ [(k, v)].
Proof.
  induction d as [|[k' v'] d IH]; intros Hk; simpl; [reflexivity|].
  destruct (String.eqb_spec k' k) as [->|Hne].
  - exfalso. apply Hk. now left.
  - f_equal. apply IH. intros Hin. apply Hk. now right.
Qed.

Lemma dict_keys_app {V : Type} (d1 d2 : dict V) :
  dict_keys (d1 ++ d2) = dict_keys d1 ++ dict_keys d2.
Proof. apply map_app. Qed.

(** *** Records *)

Lemma flatten_record (rec : list (string * pyval)) (name : string) (r : N)
    (out : dict pyval) :
  flatten (JDict (map (fun '(n, v) => (n, JLeaf v)) rec)) name (r, out) =
    (r, fold_left (fun o '(n, v) => dict_set o (flat_key r n) v) rec out).
Proof.
  revert out. induction rec as [|[n v] rec IH]; intros out; [reflexivity|].
  cbn [map flatten fold_left] in *. apply IH.
Qed.

Lemma record_appended (rec : list (string * pyval)) (r : N) (out : dict pyval) :
  NoDup (map fst rec) ->
  (forall n, In n (map fst rec) -> ~ In (flat_key r n) (dict_keys out)) ->
  fold_left (fun o '(n, v) => dict_set o (flat_key r n) v) rec out =
    out ++ map (fun '(n, v) => (flat_key r n, v)) rec.
Proof.
  revert out. induction rec as [|[n v] rec IH]; intros out Hnd Hfresh.
  - simpl. now rewrite app_nil_r.
  - cbn [fold_left map]. inversion Hnd as [|? ? Hn Hnd']; subst.
    rewrite dict_set_fresh by (apply Hfresh; now left).
    rewrite IH.
    + now rewrite <- app_assoc.
    + exact Hnd'.
    + intros n' Hn'. rewrite dict_keys_app. intros Hin.
      apply in_app_or in Hin. destruct Hin as [Hin|[Hin|[]]].
      * apply (Hfresh n'); [now right|exact Hin].
      * simpl in Hin. unfold flat_key in Hin.
        apply append_inj_l in Hin. injection Hin as <-. contradiction.
Qed.

Lemma key_below_mono (r r' : N) (k : string) :
  (r <= r')%N -> key_below r k -> key_below r' k.
Proof. intros Hle [c [n [Hc ->]]]. exists c, n. split; [lia|reflexivity]. Qed.

(** *** Unfolding the traversals *)

Lemma flatten_list_cons (a : json) (l : list json) (name : string)
    (st : flat_state) :
  flatten (JList (a :: l)) name st =
    let '(r, out) := flatten a "" st in
    flatten (JList l) name ((r + 1)%N, out).
Proof. reflexivity. Qed.

Lemma leaves_list_cons (a : json) (l : list json) (name : string) :
  leaves (JList (a :: l)) name = leaves a "" ++ leaves (JList l) name.
Proof. reflexivity. Qed.

Lemma list_elements_list_cons (a : json) (l : list json) :
  list_elements (JList (a :: l))
  = (list_elements a + 1 + list_elements (JList l))%N.
Proof. reflexivity. Qed.

Lemma leaves_record (rec : list (string * pyval)) (name : string) :
  leaves (JDict (map (fun '(n, v) => (n, JLeaf v)) rec)) name = rec.
Proof.
  induction rec as [|[n v] rec IH]; [reflexivity|].
  cbn [map leaves app] in *. now rewrite IH.
Qed.

Lemma list_elements_record (rec : list (string * pyval)) :
  list_elements (JDict (map (fun '(n, v) => (n, JLeaf v)) rec)) = 0%N.
Proof.
  induction rec as [|[n v] rec IH]; [reflexivity|].
  cbn [map list_elements] in *. now rewrite IH.
Qed.

Lemma flat_dict_record (d : list (string * json)) :
  forallb (fun p => is_leaf (snd p)) d = true ->
  exists rec,
    d = map (fun '(n, v) => (n, JLeaf v)) rec /\ map fst rec = map fst d.
Proof.
  induction d as [|[n x] d IH]; intros H.
  - exists []. split; reflexivity.
  - cbn [forallb snd] in H. apply andb_prop in H. destruct H as [Hx Hd].
    destruct x as [v| |]; try discriminate Hx.
    destruct (IH Hd) as [rec [-> Hn]].
    exists ((n, v) :: rec). split; [reflexivity|].
    cbn [map fst]. now rewrite Hn.
Qed.

Lemma distinct_NoDup (l : list string) : distinct l = true -> NoDup l.
Proof.
  induction l as [|a l IH]; intros H; [constructor|].
  cbn [distinct] in H. apply andb_prop in H. destruct H as [Ha Hl].
  constructor; [|now apply IH].
  intros Hin. apply negb_true_iff in Ha.
  assert (E : existsb (String.eqb a) l = true).
  { apply existsb_exists. exists a. split; [exact Hin|apply String.eqb_refl]. }
  congruence.
Qed.

(** *** Keyed leaves *)

Lemma keyed_with_keys (lo hi : N) (new lv : list (string * pyval)) :
  Forall2 (keyed_with lo hi) new lv ->
  forall k, In k (dict_keys new) ->
            exists c n, (lo <= c <= hi)%N /\ k = flat_key c n.
Proof.
  induction 1 as [|kv nv new lv [_ [c [Hc E]]] _ IH]; intros k Hk.
  - destruct Hk.
  - destruct Hk as [<-|Hk]; [|now apply IH].
    exists c, (fst nv). split; [exact Hc|exact E].
Qed.

Lemma keyed_with_weaken (lo hi lo' hi' : N) (new lv : list (string * pyval)) :
  (lo' <= lo)%N -> (hi <= hi')%N ->
  Forall2 (keyed_with lo hi) new lv -> Forall2 (keyed_with lo' hi') new lv.
Proof.
  intros Hlo Hhi H. eapply Forall2_impl; [|exact H].
  intros kv nv [Hv [c [Hc E]]]. split; [exact Hv|].
  exists c. split; [lia|exact E].
Qed.

Lemma record_keyed (rec : list (string * pyval)) (r : N) :
  Forall2 (keyed_with r r) (map (fun '(n, v) => (flat_key r n, v)) rec) rec.
Proof.
  induction rec as [|[n v] rec IH]; constructor; [|exact IH].
  split; [reflexivity|]. exists r. split; [lia|reflexivity].
Qed.

Lemma record_keys_NoDup (rec : list (string * pyval)) (r : N) :
  (r < 10 ^ 6)%N ->
  NoDup (map fst rec) ->
  NoDup (dict_keys (map (fun '(n, v) => (flat_key r n, v)) rec)).
Proof.
  intros Hr. induction rec as [|[n v] rec IH]; intros Hnd; [constructor|].
  cbn [map fst dict_keys] in *. inversion Hnd as [|? ? Hn Hnd']; subst.
  constructor; [|now apply IH].
  intros Hin. apply in_map_iff in Hin.
  destruct Hin as [[k v'] [E Hin]]. apply in_map_iff in Hin.
  destruct Hin as [[n' v''] [E' Hin]]. injection E' as <- <-. simpl in E.
  apply flat_key_inj in E; [|lia|lia]. destruct E as [_ ->].
  apply Hn. apply in_map_iff. now exists (n, v'').
Qed.

(** The flattening of a BUFR-shaped document, from any counter and any dict
    whose keys were made with smaller counters: every leaf is appended under
    a key of its own. *)
Lemma flatten_shaped (x : json) :
  shaped x = true ->
  forall (name : string) (r : N) (out : dict pyval),
    (r + list_elements x < 10 ^ 6)%N ->
    Forall (key_below r) (dict_keys out) ->
    exists new,
      flatten x name (r, out) = ((r + list_elements x)%N, out ++ new) /\
      Forall2 (keyed_with r (r + list_elements x)) new (leaves x name) /\
      NoDup (dict_keys new).
Proof.
  induction x as [v|l IH|d IH] using json_induction; intros Hs.
  - (* a scalar *)
    intros name r out Hr Hout. exists [(flat_key r name, v)].
    cbn [flatten leaves list_elements] in *. rewrite N.add_0_r in *.
    split; [|split].
    + f_equal. apply dict_set_fresh. intros Hin.
      rewrite Forall_forall in Hout.
      destruct (Hout _ Hin) as [c [n [Hc E]]].
      symmetry in E. apply flat_key_inj in E; [|lia|lia]. lia.
    + constructor; [|constructor]. split; [reflexivity|].
      exists r. split; [lia|reflexivity].
    + constructor; [intros []|constructor].
  - (* a list *)
    induction IH as [|a l Ha _ IHl]; intros name r out Hr Hout.
    + exists []. cbn [flatten leaves list_elements] in *.
      rewrite N.add_0_r, app_nil_r. repeat split; constructor.
    + cbn [shaped forallb] in Hs. apply andb_prop in Hs.
      destruct Hs as [Hsa Hsl].
      rewrite list_elements_list_cons in *.
      destruct (Ha Hsa "" r out ltac:(lia) Hout) as [na [Ea [Ka Na]]].
      destruct (IHl Hsl name (r + list_elements a + 1)%N (out ++ na))
        as [nl [El [Kl Nl]]].
      * lia.
      * rewrite dict_keys_app. apply Forall_app. split.
        -- eapply Forall_impl; [|exact Hout].
           intros k. apply key_below_mono. lia.
        -- apply Forall_forall. intros k Hk.
           destruct (keyed_with_keys Ka _ Hk) as [c [n [Hc ->]]].
           exists c, n. split; [lia|reflexivity].
      * exists (na ++ nl).
        rewrite flatten_list_cons, Ea, El, leaves_list_cons.
        split; [|split].
        -- rewrite <- app_assoc. f_equal. lia.
        -- apply Forall2_app.
           ++ eapply keyed_with_weaken; [| |exact Ka]; lia.
           ++ eapply keyed_with_weaken; [| |exact Kl]; lia.
        -- rewrite dict_keys_app. apply NoDup_app; [exact Na|exact Nl|].
           intros k Hk Hk'.
           destruct (keyed_with_keys Ka _ Hk) as [c [n [Hc ->]]].
           destruct (keyed_with_keys Kl _ Hk') as [c' [n' [Hc' E]]].
           apply flat_key_inj in E; [|lia|lia]. lia.
  - (* a mapping *)
    intros name r out Hr Hout.
    cbn [shaped] in Hs. apply orb_prop in Hs. destruct Hs as [Hs|Hs].
    + (* a record *)
      apply andb_prop in Hs. destruct Hs as [Hflat Hdist].
      destruct (flat_dict_record _ Hflat) as [rec [-> Hnames]].
      rewrite <- Hnames in Hdist. apply distinct_NoDup in Hdist.
      rewrite list_elements_record, N.add_0_r in *.
      exists (map (fun '(n, v) => (flat_key r n, v)) rec).
      rewrite flatten_record, leaves_record, record_appended.
      * split; [reflexivity|].
        split; [apply record_keyed|now apply record_keys_NoDup].
      * exact Hdist.
      * intros n _ Hin. rewrite Forall_forall in Hout.
        destruct (Hout _ Hin) as [c [n' [Hc E]]].
        symmetry in E. apply flat_key_inj in E; [|lia|lia]. lia.
    + (* a mapping around one document *)
      destruct d as [|[a xa] [|]]; try discriminate Hs.
      inversion IH as [|? ? Hxa _]; subst. simpl in Hxa.
      destruct (Hxa Hs a r out) as [new [E [K N]]].
      * cbn [list_elements] in Hr. now rewrite N.add_0_r in Hr.
      * exact Hout.
      * exists new. cbn [flatten leaves list_elements].
        rewrite N.add_0_r, app_nil_r. auto.
Qed.

(** C4 (as stated) fails.  The counter does not advance on a leaf: two
    leaves of the same name that are not separated by a list element get the
    same key, and the first value is overwritten; the three leaves of one
    record share one counter value. *)
Lemma leaf_lost_by_key_overwriting :
  length (leaves same_name_twice "") = 2 /\
  flatten_json same_name_twice = [("0000000_x", PInt 2)] /\
  length (leaves one_record "") = 3 /\
  fst (flatten one_record "" (0%N, [])) = 1%N /\
  dict_keys (flatten_json one_record)
  = ["0000000_key"; "0000000_value"; "0000000_units"].
Proof. repeat split; vm_compute; reflexivity. Qed.

(** From the millionth list element on the counter is written in scientific
    notation with six significant digits, and neighbouring counters share
    their text. *)
Lemma counters_collide_from_a_million :
  format_07g 1000000 = "001e+06" /\
  format_07g 1234564 = "1.23456e+06" /\
  format_07g 1234565 = "1.23456e+06".
Proof. repeat split; vm_compute; reflexivity. Qed.

(** C4 (amended).  The counter of [flatten_json] advances once per list
    element, at every depth, and not on a leaf.  For a document of the shape
    of a BUFR dump (lists nested to any depth whose elements are records; a
    mapping holds scalars only, under distinct names, or wraps a single
    document) with fewer than [10^6] list elements, the result holds the
    leaves in traversal order, each under the key made of the seven-digit
    zero-padded counter, an underscore and the leaf's field name; no two keys
    are equal, so no leaf is lost. *)
Theorem flatten_json_spec (y : json) :
  fst (flatten y "" (0%N, [])) = list_elements y /\
  (shaped y = true ->
   (list_elements y < 10 ^ 6)%N ->
   Forall2 (keyed_as (list_elements y)) (flatten_json y) (leaves y "") /\
   NoDup (dict_keys (flatten_json y)) /\
   length (flatten_json y) = length (leaves y "")).
Proof.
  split; [now rewrite flatten_counter|].
  intros Hs Hr.
  destruct (@flatten_shaped y Hs "" 0%N [] Hr (Forall_nil _))
    as [new [E [K Nd]]].
  unfold flatten_json. rewrite E. cbn [snd app].
  rewrite N.add_0_l in K.
  split; [|split; [exact Nd|exact (Forall2_length K)]].
  eapply Forall2_impl; [|exact K].
  intros kv nv [Hv [c [Hc Ek]]]. split; [exact Hv|].
  exists c. split; [lia|].
  rewrite Ek. unfold flat_key. rewrite format_07g_small by lia. reflexivity.
Qed.

Lemma flatten_json_witness :
  NoDup (dict_keys (flatten_json nested_dump)) /\
  length (flatten_json nested_dump) = 8.
Proof.
  destruct (flatten_json_spec nested_dump) as [_ H].
  destruct (H eq_refl ltac:(vm_compute; reflexivity)) as [_ [Hnd Hlen]].
  split; [exact Hnd|exact Hlen].
Defined.

(* ================================================================= *)
(** ** [replace_missing_data]: what is left after it *)

Lemma replace_none_idempotent (x : pyval) :
  replace_none (replace_none x) = replace_none x.
Proof. destruct x as [| b | z | [|n|q] | s]; reflexivity. Qed.

Lemma replace_none_None (x : pyval) : replace_none x <> PNone.
Proof. destruct x as [| b | z | [|n|q] | s]; discriminate. Qed.

(** Two soundings with the same series, units and other attributes are
    the same sounding. *)
Lemma sounding_ext {S : Type} (a b : Sounding S) :
  (forall v, get_var v b = get_var v a) ->
  (forall v, get_unit v b = get_unit v a) ->
  same_frame a b -> a = b.
Proof.
  intros Hv Hu Hf. destruct a, b. unfold same_frame in Hf. cbn in Hf.
  pose proof (Hv v_displacement_lat). pose proof (Hv v_displacement_lon).
  pose proof (Hv v_pressure). pose proof (Hv v_windspeed).
  pose proof (Hv v_winddirection). pose proof (Hv v_temperature).
  pose proof (Hv v_dewpoint). pose proof (Hv v_gpm). pose proof (Hv v_time).
  pose proof (Hu v_displacement_lat). pose proof (Hu v_displacement_lon).
  pose proof (Hu v_pressure). pose proof (Hu v_windspeed).
  pose proof (Hu v_winddirection). pose proof (Hu v_temperature).
  pose proof (Hu v_dewpoint). pose proof (Hu v_gpm). pose proof (Hu v_time).
  cbn in *. clear Hv Hu. decompose [and] Hf. subst. reflexivity.
Qed.

(** X1.  No [None] is left in any of the nine series, and a second pass
    changes nothing. *)
Theorem replace_missing_data_idempotent (s : Sounding pylist) :
  replace_missing_data (replace_missing_data s) = replace_missing_data s /\
  forall v, ~ In PNone (get_var v (replace_missing_data s)).
Proof.
  split.
  - symmetry. apply sounding_ext.
    + intros v. rewrite !replace_missing_data_series, map_map.
      apply map_ext. intros x. apply replace_none_idempotent.
    + intros v. apply replace_missing_data_units.
    + apply replace_missing_data_frame.
  - intros v Hin. rewrite replace_missing_data_series in Hin.
    apply in_map_iff in Hin. destruct Hin as [x [Hx _]].
    now apply replace_none_None in Hx.
Qed.

(* ================================================================= *)
(** ** [expected_unit_check]: further properties *)

Lemma check_var_target (var : variable) (s : Sounding ndarray) :
  get_unit var s = PStr (target_of var) -> check_var var s = Ok s.
Proof.
  intros H. unfold check_var. rewrite H, py_eq_PStr_refl. reflexivity.
Qed.

Lemma for_each_check_target (vars : list variable) (s : Sounding ndarray) :
  (forall w, In w vars -> get_unit w s = PStr (target_of w)) ->
  for_each check_var vars s = Ok s.
Proof.
  induction vars as [|var rest IH]; intros H; [reflexivity|].
  cbn [for_each]. rewrite check_var_target by (apply H; now left).
  cbn [bind]. apply IH. intros w Hw. apply H. now right.
Qed.

Lemma normalised_unit (w : variable) (s s' : Sounding ndarray) :
  normalised w s s' -> get_unit w s' = PStr (target_of w).
Proof.
  intros [[Hu [_ Hu']]|[u [func [_ [_ [_ [_ Hu']]]]]]]; congruence.
Qed.

(** X2.  When the check returns, every unit label is the target unit of its
    variable, and checking the result again returns it unchanged. *)
Theorem expected_unit_check_idempotent (s s' : Sounding ndarray) :
  expected_unit_check s = Ok s' ->
  (forall w, get_unit w s' = PStr (target_of w)) /\
  expected_unit_check s' = Ok s'.
Proof.
  intros H. rewrite expected_unit_check_for_each in H.
  apply (for_each_check_Ok variables_NoDup) in H. destruct H as [Hn _].
  assert (Hu : forall w, get_unit w s' = PStr (target_of w)).
  { intros w. eapply normalised_unit. apply Hn, variables_complete. }
  split; [exact Hu|].
  rewrite expected_unit_check_for_each. apply for_each_check_target.
  intros w _. apply Hu.
Qed.

Lemma expected_unit_check_idempotent_witness :
  exists s',
    expected_unit_check (bufr_units_sounding [FFin (Qz 300)]) = Ok s' /\
    pressure_unit s' = PStr "hPa" /\
    expected_unit_check s' = Ok s'.
Proof.
  destruct (expected_unit_check (bufr_units_sounding [FFin (Qz 300)]))
    as [s'|e] eqn:E; [|vm_compute in E; discriminate E].
  exists s'. split; [reflexivity|].
  destruct (@expected_unit_check_idempotent _ _ E) as [Hu Hi].
  split; [exact (Hu v_pressure)|exact Hi].
Defined.

(** X3.  A pressure series recorded in pascal is divided by [100] and labelled
    ["hPa"]; a series already in its target unit is returned as it is; no
    attribute outside the nine series and their units changes. *)
Theorem expected_unit_check_pressure (s s' : Sounding ndarray) :
  expected_unit_check s = Ok s' ->
  (get_unit v_pressure s = PStr "Pa" ->
   pressure s' = map (fun x => fdiv x (FFin (Qz 100))) (pressure s) /\
   pressure_unit s' = PStr "hPa") /\
  (forall w, get_unit w s = PStr (target_of w) ->
             get_var w s' = get_var w s) /\
  same_frame s s'.
Proof.
  intros H. rewrite expected_unit_check_for_each in H.
  apply (for_each_check_Ok variables_NoDup) in H.
  destruct H as [Hn [_ Hf]].
  split; [|split; [|exact Hf]].
  - intros HPa.
    destruct (Hn v_pressure (variables_complete _))
      as [[Hu _]|[u [func [Hu [_ [Hd [Hv Hu']]]]]]].
    + rewrite HPa in Hu. discriminate Hu.
    + rewrite HPa in Hu. injection Hu as <-.
      simpl in Hd. injection Hd as <-.
      split; [exact Hv|exact Hu'].
  - intros w Hw.
    destruct (Hn w (variables_complete _))
      as [[_ [Hv _]]|[u [func [Hu [Hne _]]]]]; [exact Hv|].
    rewrite Hw in Hu. injection Hu as <-. contradiction.
Qed.

Lemma expected_unit_check_pressure_witness :
  exists s',
    expected_unit_check (bufr_units_sounding [FFin (Qz 300)]) = Ok s' /\
    pressure s' = [FFin (Qz 1013); FFin (Qz 1012)] /\
    time s' = [FFin (Qz 0); FFin (Qz 1)].
Proof.
  destruct (expected_unit_check (bufr_units_sounding [FFin (Qz 300)]))
    as [s'|e] eqn:E; [|vm_compute in E; discriminate E].
  exists s'. split; [reflexivity|].
  destruct (@expected_unit_check_pressure _ _ E) as [HP [Hsame _]].
  destruct (HP eq_refl) as [Hv _].
  split.
  - rewrite Hv. vm_compute.
    repeat (f_equal; try (apply Qc_is_canon; reflexivity)).
  - exact (Hsame v_time eq_refl).
Defined.

Lemma for_each_check_TypeError (vars : list variable) :
  NoDup vars ->
  forall s : Sounding ndarray,
    (forall w u, In w vars -> get_unit w s = PStr u -> unit_ok w s = true) ->
    (exists w, In w vars /\ forall u, get_unit w s <> PStr u) ->
    for_each check_var vars s = Raise TypeError.
Proof.
  induction 1 as [|var rest Hnin Hnd IH]; intros s Hok [w [Hw Hbad]];
    [destruct Hw|].
  cbn [for_each].
  pose proof (check_var_unit_ok var s) as C.
  destruct (get_unit var s) as [| b | z | f | u] eqn:Eu.
  5:{ rewrite (Hok var u (or_introl eq_refl) Eu) in C.
      destruct C as [s1 C]. rewrite C. cbn [bind].
      apply check_var_Ok in C. destruct C as [_ [Co _]].
      apply IH.
      - intros w' u' Hw' Hu'.
        assert (Hne : w' <> var) by (intros ->; contradiction).
        destruct (Co w' Hne) as [_ Hsame].
        rewrite (unit_ok_ext w' s s1 Hsame). rewrite Hsame in Hu'.
        apply (Hok w' u'); [now right|exact Hu'].
      - destruct Hw as [<-|Hw]; [now apply Hbad in Eu|].
        exists w. split; [exact Hw|].
        assert (Hne : w <> var) by (intros ->; contradiction).
        destruct (Co w Hne) as [_ Hsame]. rewrite Hsame. exact Hbad. }
  all: unfold unit_ok in C; rewrite Eu in C; cbn in C; rewrite C; reflexivity.
Qed.

(** X4.  A unit label that is not a string (the label of a variable that was
    never reported is [None]) makes the check raise [TypeError], unless a
    string label without a registered conversion is met first. *)
Theorem expected_unit_check_unset_unit (s : Sounding ndarray) :
  (forall w u, get_unit w s = PStr u -> unit_ok w s = true) ->
  (exists w, forall u, get_unit w s <> PStr u) ->
  expected_unit_check s = Raise TypeError.
Proof.
  intros Hok [w Hbad]. rewrite expected_unit_check_for_each.
  apply (for_each_check_TypeError variables_NoDup).
  - intros w' u _. apply Hok.
  - exists w. split; [apply variables_complete|exact Hbad].
Qed.

Lemma expected_unit_check_unset_unit_witness :
  expected_unit_check unit_never_set = Raise TypeError.
Proof.
  apply expected_unit_check_unset_unit.
  - intros w u. destruct w; vm_compute; intros H;
      try reflexivity; discriminate H.
  - exists v_gpm. intros u. discriminate.
Defined.

(* ================================================================= *)
(** ** [calc_ascentrate] *)

Lemma diff_length (a : ndarray) : length (diff a) = length a - 1.
Proof.
  induction a as [|x [|y a] IH]; try reflexivity.
  change (diff (x :: y :: a)) with (fsub y x :: diff (y :: a)).
  cbn [length] in *. rewrite IH. lia.
Qed.

Lemma diff_nth (a : ndarray) (i : nat) :
  S i < length a ->
  nth i (diff a) FNaN = fsub (nth (S i) a FNaN) (nth i a FNaN).
Proof.
  revert i. induction a as [|x [|y a] IH]; intros i Hi;
    try (cbn [length] in Hi; lia).
  change (diff (x :: y :: a)) with (fsub y x :: diff (y :: a)).
  destruct i as [|i]; [reflexivity|].
  cbn [nth]. rewrite IH by (cbn [length] in *; lia). reflexivity.
Qed.

Lemma broadcast_same_length (op : pyfloat -> pyfloat -> pyfloat)
    (a b : ndarray) :
  length a = length b ->
  broadcast op a b = Ok (map (fun p => op (fst p) (snd p)) (combine a b)).
Proof. intros H. unfold broadcast. now rewrite H, Nat.eqb_refl. Qed.

Lemma combine_nth_op (op : pyfloat -> pyfloat -> pyfloat) (a b : ndarray)
    (i : nat) :
  length a = length b -> i < length a ->
  nth i (map (fun p => op (fst p) (snd p)) (combine a b)) FNaN
  = op (nth i a FNaN) (nth i b FNaN).
Proof.
  revert b i. induction a as [|x a IH]; intros [|y b] i Hl Hi;
    try discriminate Hl; [cbn [length] in Hi; lia|].
  destruct i as [|i]; [reflexivity|].
  cbn [combine map nth]. apply IH; cbn [length] in *; lia.
Qed.

(** X5.  On a sounding whose height and time series have the same length and
    are not empty, [calc_ascentrate] returns; it only sets [ascentrate], to a
    series as long as the time series that starts with [0] and holds, at each
    later index, the height difference to the previous sample divided by the
    time difference. A time difference of zero gives an infinity or NaN, not
    an error. *)
Theorem calc_ascentrate_aligned (s : Sounding ndarray) :
  length (gpm s) = length (time s) ->
  time s <> [] ->
  exists a,
    calc_ascentrate s = Ok (set_ascentrate a s) /\
    length a = length (time s) /\
    nth 0 a FNaN = FFin (Qz 0) /\
    forall i, S i < length (time s) ->
      nth (S i) a FNaN =
        fdiv (fsub (nth (S i) (gpm s) FNaN) (nth i (gpm s) FNaN))
             (fsub (nth (S i) (time s) FNaN) (nth i (time s) FNaN)).
Proof.
  intros Hlen Hne.
  assert (Hd : length (diff (gpm s)) = length (diff (time s)))
    by (rewrite !diff_length; lia).
  unfold calc_ascentrate. rewrite (broadcast_same_length fdiv _ _ Hd).
  cbn [bind]. eexists. split; [reflexivity|].
  split; [|split; [reflexivity|]].
  - cbn [length]. rewrite length_map, length_combine, Hd, Nat.min_id.
    rewrite diff_length.
    destruct (time s); [contradiction|cbn [length]; lia].
  - intros i Hi. cbn [nth].
    rewrite combine_nth_op by (rewrite ?diff_length; lia).
    rewrite !diff_nth by lia. reflexivity.
Qed.

Lemma calc_ascentrate_aligned_witness :
  exists a,
    calc_ascentrate
      (profile 1 [FFin (Qz 0); FFin (Qz 2); FFin (Qz 2)]
                 [FFin (Qz 10); FFin (Qz 20); FFin (Qz 25)])
    = Ok (set_ascentrate a
            (profile 1 [FFin (Qz 0); FFin (Qz 2); FFin (Qz 2)]
                       [FFin (Qz 10); FFin (Qz 20); FFin (Qz 25)])) /\
    length a = 3 /\
    nth 2 a FNaN = FInf false.
Proof.
  destruct (@calc_ascentrate_aligned
              (profile 1 [FFin (Qz 0); FFin (Qz 2); FFin (Qz 2)]
                         [FFin (Qz 10); FFin (Qz 20); FFin (Qz 25)])
              eq_refl ltac:(discriminate)) as [a [E [Hl [_ Hn]]]].
  exists a. split; [exact E|]. split; [exact Hl|].
  rewrite (Hn 1) by (cbn; lia). reflexivity.
Defined.

(** X6.  [calc_ascentrate] raises nothing but [ValueError], and raises it
    exactly when the two series of differences have different lengths, neither
    of them one; on an empty sounding it returns an ascent rate of one entry,
    one more than the time series has. *)
Theorem calc_ascentrate_errors (s : Sounding ndarray) :
  (forall e, calc_ascentrate s = Raise e -> e = ValueError) /\
  (calc_ascentrate s = Raise ValueError <->
   length (gpm s) - 1 <> length (time s) - 1 /\
   length (gpm s) - 1 <> 1 /\ length (time s) - 1 <> 1) /\
  (gpm s = [] -> time s = [] ->
   calc_ascentrate s = Ok (set_ascentrate [FFin (Qz 0)] s)).
Proof.
  unfold calc_ascentrate.
  rewrite <- (diff_length (gpm s)), <- (diff_length (time s)).
  split; [|split].
  - intros e. unfold broadcast.
    destruct (length (diff (gpm s)) =? length (diff (time s)));
      [discriminate|].
    destruct (diff (gpm s)) as [|x [|x' g]];
      destruct (diff (time s)) as [|y [|y' t]]; cbn [bind];
      intros H; try discriminate H; now injection H.
  - unfold broadcast.
    destruct (Nat.eqb_spec (length (diff (gpm s))) (length (diff (time s))))
      as [E|E].
    + cbn [bind]. split; [discriminate|]. intros [H _]. contradiction.
    + destruct (diff (gpm s)) as [|x [|x' g]];
        destruct (diff (time s)) as [|y [|y' t]]; cbn [bind length] in *;
        split; try discriminate; try reflexivity;
        try (intros [_ [H1 H2]]; lia); try (intros _; repeat split; lia).
  - intros -> ->. reflexivity.
Qed.

Lemma calc_ascentrate_errors_witness :
  calc_ascentrate
    (profile 1 [FFin (Qz 0); FFin (Qz 1); FFin (Qz 2)]
               [FFin (Qz 10); FFin (Qz 20); FFin (Qz 25); FFin (Qz 30);
                FFin (Qz 35)])
  = Raise ValueError.
Proof.
  apply (proj2 (proj1 (proj2 (calc_ascentrate_errors _)))).
  cbn. repeat split; lia.
Defined.

(* ================================================================= *)
(** ** [calc_temporal_resolution] on evenly spaced times *)

Lemma Qz_this (z : Z) : this (Qz z) = inject_Z z.
Proof.
  unfold Qz, Q2Qc. cbn [this]. apply Qred_identity.
  cbn. apply Z.gcd_1_r.
Qed.

Lemma round_half_even_1 (a : Z) : round_half_even a 1 = a.
Proof.
  unfold round_half_even. rewrite Z.mod_1_r, Z.div_1_r. reflexivity.
Qed.

Lemma ilog2_1 (n : Z) : (0 < n)%Z -> ilog2 n 1 = Z.log2 n.
Proof.
  intros Hn. unfold ilog2, scale2.
  change (Z.log2 1) with 0%Z. rewrite Z.sub_0_r.
  pose proof (Z.log2_nonneg n) as H0.
  pose proof (Z.log2_spec n Hn) as [Hl _].
  destruct (Z.leb_spec 0 (- Z.log2 n)).
  - replace (Z.log2 n) with 0%Z in * by lia. cbn.
    destruct (Z.ltb_spec (n * 1) 1); [lia|reflexivity].
  - rewrite Z.opp_involutive, Z.mul_1_l.
    destruct (Z.ltb_spec n (2 ^ Z.log2 n)); [lia|reflexivity].
Qed.

(** Binary64 holds every integer up to [2 ^ 53]: rounding leaves it as it
    is. *)
Lemma round64_Qz (z : Z) :
  (Z.abs z <= 2 ^ 53)%Z -> round64 (Qz z) = FFin (Qz z).
Proof.
  intros Hz. unfold round64. rewrite Qz_this. cbn [inject_Z Qnum Qden].
  destruct (Z.eqb_spec z 0) as [|Hne]; [reflexivity|].
  assert (Ha : (0 < Z.abs z)%Z) by lia.
  rewrite (ilog2_1 Ha).
  pose proof (Z.log2_nonneg (Z.abs z)) as H0.
  pose proof (Z.log2_spec _ Ha) as [Hl Hu].
  assert (H53 : (Z.log2 (Z.abs z) <= 53)%Z).
  { destruct (Z.le_gt_cases (Z.log2 (Z.abs z)) 53) as [H|H]; [exact H|].
    exfalso.
    assert (2 ^ 54 <= 2 ^ Z.log2 (Z.abs z))%Z
      by (apply Z.pow_le_mono_r; lia).
    lia. }
  rewrite Z.max_l by lia.
  set (e := Z.log2 (Z.abs z)) in *.
  unfold scale2.
  destruct (Z.leb_spec 0 (52 - e)) as [Hs|Hs].
  - rewrite round_half_even_1.
    assert (Hm : (Z.sgn z * (Z.abs z * 2 ^ (52 - e)) = z * 2 ^ (52 - e))%Z).
    { rewrite Z.mul_assoc. f_equal. rewrite Z.mul_comm. apply Z.abs_sgn. }
    rewrite Hm.
    assert (Hp : (0 < 2 ^ (52 - e))%Z) by (apply Z.pow_pos_nonneg; lia).
    destruct (Z.ltb_spec 0 (52 - e)) as [Hs'|Hs'].
    + f_equal. unfold Qz. apply Q2Qc_eq_iff. rewrite Qred_correct.
      unfold Qeq, inject_Z. cbn [Qnum Qden].
      rewrite Z2Pos.id by exact Hp. lia.
    + replace (52 - e)%Z with 0%Z in * by lia.
      cbn [Z.opp]. rewrite !Z.pow_0_r, !Z.mul_1_r.
      destruct (Z.leb_spec (2 ^ 1024) (Z.abs z)) as [Hbig|_];
        [|reflexivity].
      exfalso. assert (2 ^ 53 < 2 ^ 1024)%Z by (apply Z.pow_lt_mono_r; lia).
      lia.
  - assert (He : e = 53%Z) by lia.
    assert (Hz' : Z.abs z = (2 ^ 53)%Z).
    { rewrite He in Hl. lia. }
    rewrite He, Hz'.
    destruct (Z.ltb_spec 0 (52 - 53)) as [Hs'|_]; [lia|].
    change (round_half_even (2 ^ 53) (1 * 2 ^ (- (52 - 53))))
      with (2 ^ 52)%Z.
    change (2 ^ (- (52 - 53)))%Z with 2%Z.
    assert (Hm : (Z.sgn z * 2 ^ 52 * 2 = z)%Z).
    { rewrite <- Z.mul_assoc. change (2 ^ 52 * 2)%Z with (2 ^ 53)%Z.
      rewrite <- Hz'. rewrite Z.mul_comm. apply Z.abs_sgn. }
    rewrite Hm.
    assert (Hs2 : (Z.abs (Z.sgn z * 2 ^ 52) * 2 = 2 ^ 53)%Z).
    { rewrite Z.abs_mul. replace (Z.abs (Z.sgn z)) with 1%Z by lia.
      reflexivity. }
    rewrite Hs2.
    destruct (Z.leb_spec (2 ^ 1024) (2 ^ 53)) as [Hbig|_];
      [|reflexivity].
    exfalso. assert (2 ^ 53 < 2 ^ 1024)%Z by (apply Z.pow_lt_mono_r; lia).
    lia.
Qed.

Lemma Qz_sub (a b : Z) : (Qz a + - Qz b)%Qc = Qz (a - b).
Proof.
  apply Qc_is_canon. unfold Qz. cbn [this Qcplus Qcopp Q2Qc].
  rewrite !Qred_correct. unfold inject_Z, Qeq, Qplus, Qopp. cbn. lia.
Qed.

Lemma Qz_opp (a : Z) : (- Qz a)%Qc = Qz (- a).
Proof.
  apply Qc_is_canon. unfold Qz. cbn [this Qcopp Q2Qc].
  rewrite !Qred_correct. unfold inject_Z, Qeq, Qopp. cbn. lia.
Qed.

Lemma fabs_Qz (a : Z) : fabs (FFin (Qz a)) = FFin (Qz (Z.abs a)).
Proof.
  unfold fabs, Qc_neg. rewrite Qz_this. cbn [inject_Z Qnum].
  destruct (Z.ltb_spec a 0).
  - rewrite Qz_opp. f_equal. f_equal. lia.
  - f_equal. f_equal. lia.
Qed.

Lemma astype_int_Qz (a : Z) :
  (- 2 ^ 63 <= a < 2 ^ 63)%Z -> astype_int (FFin (Qz a)) = a.
Proof.
  intros H. unfold astype_int, INT64_MIN. rewrite Qz_this.
  cbn [inject_Z Qnum Qden]. rewrite Z.quot_1_r.
  destruct (Z.leb_spec (- 2 ^ 63) a); [|lia].
  destruct (Z.ltb_spec a (2 ^ 63)); [reflexivity|lia].
Qed.

Lemma fsub_Qz (a b : Z) :
  (Z.abs (a - b) <= 2 ^ 53)%Z ->
  fsub (FFin (Qz a)) (FFin (Qz b)) = FFin (Qz (a - b)).
Proof.
  intros H. unfold fsub, fneg, fadd. rewrite Qz_sub. now apply round64_Qz.
Qed.

Lemma diff_progression (t0 d : Z) (k n : nat) :
  (Z.abs d <= 2 ^ 53)%Z ->
  diff (map (fun k => FFin (Qz (t0 + Z.of_nat k * d))) (seq k n))
  = repeat (FFin (Qz d)) (n - 1).
Proof.
  intros Hd. revert k. induction n as [|[|n] IH]; intros k; try reflexivity.
  change (seq k (S (S n))) with (k :: S k :: seq (S (S k)) n).
  cbn [map].
  change (diff (?x :: ?y :: ?l)) with (fsub y x :: diff (y :: l)).
  specialize (IH (S k)). cbn [seq map] in IH. rewrite IH.
  replace (S (S n) - 1) with (S (S n - 1)) by lia. cbn [repeat].
  f_equal.
  replace d with (t0 + Z.of_nat (S k) * d - (t0 + Z.of_nat k * d))%Z at 3
    by (rewrite Nat2Z.inj_succ; lia).
  apply fsub_Qz. rewrite Nat2Z.inj_succ.
  replace (t0 + Z.succ (Z.of_nat k) * d - (t0 + Z.of_nat k * d))%Z with d
    by lia.
  exact Hd.
Qed.

Lemma diff_evenly_spaced (t0 d : Z) (n : nat) :
  (Z.abs d <= 2 ^ 53)%Z ->
  diff (evenly_spaced t0 d n) = repeat (FFin (Qz d)) (n - 1).
Proof. apply diff_progression. Qed.

Lemma count_occ_repeat (a v : Z) (m : nat) :
  count_occ Z.eq_dec (repeat a m) v = if (a =? v)%Z then m else 0.
Proof.
  induction m as [|m IH]; cbn [repeat count_occ].
  - now destruct (a =? v)%Z.
  - rewrite IH. destruct (Z.eq_dec a v) as [->|Hne].
    + now rewrite Z.eqb_refl.
    + destruct (Z.eqb_spec a v); [contradiction|reflexivity].
Qed.

Lemma fold_max_repeat (a : Z) (m : nat) :
  (0 <= a)%Z -> 0 < m -> fold_right Z.max 0%Z (repeat a m) = a.
Proof.
  intros Ha Hm. induction m as [|[|m] IH]; [lia| |].
  - cbn. lia.
  - cbn [repeat fold_right] in *. rewrite IH by lia. lia.
Qed.

Lemma bincount_repeat (a : Z) (m : nat) :
  (0 <= a)%Z -> 0 < m ->
  bincount (repeat a m) = Ok (repeat 0 (Z.to_nat a) ++ [m]).
Proof.
  intros Ha Hm. unfold bincount.
  assert (E : existsb (fun v => (v <? 0)%Z) (repeat a m) = false).
  { clear Hm. induction m as [|m IH]; [reflexivity|].
    cbn [repeat existsb]. rewrite IH.
    destruct (Z.ltb_spec a 0); [lia|reflexivity]. }
  rewrite E. destruct m as [|m]; [lia|].
  replace (match repeat a (S m) with
           | [] => 0
           | _ :: _ => S (Z.to_nat (fold_right Z.max 0%Z (repeat a (S m))))
           end) with (S (Z.to_nat a))
    by (rewrite fold_max_repeat by lia; reflexivity).
  f_equal.
  rewrite seq_S, map_app. cbn [map Nat.add]. f_equal.
  - transitivity (map (fun _ : nat => 0) (seq 0 (Z.to_nat a)));
      [|now rewrite map_const, length_seq].
    apply map_ext_in. intros b Hb. apply in_seq in Hb.
    rewrite count_occ_repeat.
    destruct (Z.eqb_spec a (Z.of_nat b)); [lia|reflexivity].
  - rewrite count_occ_repeat. rewrite Z2Nat.id by lia.
    now rewrite Z.eqb_refl.
Qed.

Lemma argmax_from_zeros (bi i k m : nat) :
  0 < m -> argmax_from bi 0 i (repeat 0 k ++ [m]) = i + k.
Proof.
  intros Hm. revert i. induction k as [|k IH]; intros i.
  - destruct m as [|m]; [lia|]. cbn. lia.
  - cbn [repeat app argmax_from]. cbn [Nat.ltb Nat.leb].
    rewrite IH. lia.
Qed.

Lemma argmax_zeros (k m : nat) :
  0 < m -> argmax (repeat 0 k ++ [m]) = Ok k.
Proof.
  intros Hm. destruct k as [|k]; [reflexivity|].
  cbn [repeat app argmax]. rewrite argmax_from_zeros by exact Hm.
  reflexivity.
Qed.

(** X7.  On [n] samples at a constant interval [d] (ascending or descending;
    whole seconds, all within the range in which binary64 holds every
    integer), [calc_temporal_resolution] returns [|d|] when [|d| < n - 1]. *)
Theorem calc_temporal_resolution_evenly_spaced (s : Sounding ndarray)
    (t0 d : Z) (n : nat) :
  time s = evenly_spaced t0 d n ->
  (Z.abs t0 + Z.of_nat n * Z.abs d <= 2 ^ 53)%Z ->
  (Z.abs d < Z.of_nat n - 1)%Z ->
  calc_temporal_resolution s = Ok (FFin (Qz (Z.abs d))).
Proof.
  intros Ht Hr Hd. unfold calc_temporal_resolution, ma_compressed.
  assert (Hd53 : (Z.abs d <= 2 ^ 53)%Z) by nia.
  rewrite Ht, diff_evenly_spaced by exact Hd53.
  assert (E : map fabs (repeat (FFin (Qz d)) (n - 1))
              = repeat (FFin (Qz (Z.abs d))) (n - 1)).
  { rewrite map_repeat. now rewrite fabs_Qz. }
  cbv zeta. rewrite E, map_repeat, astype_int_Qz by lia.
  rewrite bincount_repeat by lia. cbn [bind].
  rewrite argmax_zeros by lia. cbn [bind].
  rewrite nth_error_repeat by lia. reflexivity.
Qed.

Lemma calc_temporal_resolution_evenly_spaced_witness :
  calc_temporal_resolution
    (profile 1 (evenly_spaced 0 1 4) (evenly_spaced 1000 (-10) 4))
  = Ok (FFin (Qz 1)) /\
  calc_temporal_resolution
    (profile 1 (evenly_spaced 30 (-2) 5) (evenly_spaced 1000 (-10) 5))
  = Ok (FFin (Qz 2)).
Proof.
  split.
  - exact (@calc_temporal_resolution_evenly_spaced
             (profile 1 (evenly_spaced 0 1 4) (evenly_spaced 1000 (-10) 4))
             0 1 4 eq_refl ltac:(cbn; lia) ltac:(cbn; lia)).
  - exact (@calc_temporal_resolution_evenly_spaced
             (profile 1 (evenly_spaced 30 (-2) 5)
                (evenly_spaced 1000 (-10) 5))
             30 (-2) 5 eq_refl ltac:(cbn; lia) ltac:(cbn; lia)).
Defined.

(** X8.  With fewer than two time stamps there is no difference to count and
    [calc_temporal_resolution] raises [ValueError]; whenever it returns, the
    result is one of the absolute differences of consecutive time stamps. *)
Theorem calc_temporal_resolution_short (s : Sounding ndarray) :
  (length (time s) < 2 -> calc_temporal_resolution s = Raise ValueError) /\
  (forall x, calc_temporal_resolution s = Ok x ->
             In x (map fabs (diff (time s)))).
Proof.
  unfold calc_temporal_resolution, ma_compressed. split.
  - intros H. destruct (time s) as [|x [|y t]];
      [reflexivity|reflexivity|cbn [length] in H; lia].
  - intros x. cbv zeta.
    destruct (bincount _) as [c|e]; cbn [bind]; [|discriminate].
    destruct (argmax c) as [i|e]; cbn [bind]; [|discriminate].
    destruct (nth_error (map fabs (diff (time s))) i) eqn:En;
      [|discriminate].
    intros H. injection H as <-. eapply nth_error_In. exact En.
Qed.

Lemma calc_temporal_resolution_short_witness :
  calc_temporal_resolution (profile 1 [FFin (Qz 0)] [FFin (Qz 1000)])
  = Raise ValueError.
Proof.
  apply (proj1 (calc_temporal_resolution_short _)). cbn. lia.
Defined.

(* ================================================================= *)
(** ** [find_nearest] *)

Lemma argmin_le_refl (a : pyfloat) : argmin_le a a = true.
Proof.
  destruct a as [|[|]|q]; try reflexivity.
  unfold argmin_le, argmin_lt. cbn [isnan]. rewrite negb_involutive.
  apply fle_refl.
Qed.

Lemma argmin_le_trans (a b c : pyfloat) :
  argmin_le a b = true -> argmin_le b c = true -> argmin_le a c = true.
Proof.
  unfold argmin_le, argmin_lt.
  destruct (isnan a) eqn:Ea; [reflexivity|].
  destruct (isnan b) eqn:Eb; [discriminate|].
  destruct (isnan c) eqn:Ec; [discriminate|].
  rewrite !negb_involutive. apply fle_trans.
Qed.

Lemma argmin_lt_le (a b : pyfloat) :
  argmin_lt a b = true -> argmin_le a b = true.
Proof.
  unfold argmin_le, argmin_lt.
  destruct (isnan b) eqn:Eb; [discriminate|].
  destruct (isnan a) eqn:Ea; [reflexivity|].
  rewrite negb_involutive. intros H. apply negb_true_iff in H.
  destruct (fle_total a b) as [T|T]; [exact T|congruence].
Qed.

(** The loop of [np.argmin] ends on an index whose element is not after any
    other. *)
Lemma argmin_from_spec (ds : ndarray) :
  forall (l : ndarray) (bi i : nat),
    bi < i -> i + length l = length ds ->
    (forall j, j < length l -> nth (i + j) ds FNaN = nth j l FNaN) ->
    (forall j, j < i ->
               argmin_le (nth bi ds FNaN) (nth j ds FNaN) = true) ->
    let r := argmin_from bi (nth bi ds FNaN) i l in
    r < length ds /\
    forall j, j < length ds ->
              argmin_le (nth r ds FNaN) (nth j ds FNaN) = true.
Proof.
  induction l as [|c l IH]; intros bi i Hbi Hlen Hl Hmin; cbn [argmin_from].
  - cbn [length] in Hlen. split; [lia|].
    intros j Hj. apply Hmin. lia.
  - cbn [length] in Hlen.
    assert (Hc : nth i ds FNaN = c).
    { rewrite <- (Nat.add_0_r i). rewrite Hl by (cbn [length]; lia).
      reflexivity. }
    assert (Hrest : forall j, j < length l ->
                              nth (S i + j) ds FNaN = nth j l FNaN).
    { intros j Hj. replace (S i + j) with (i + S j) by lia.
      rewrite Hl by (cbn [length]; lia). reflexivity. }
    destruct (argmin_lt c (nth bi ds FNaN)) eqn:E.
    + rewrite <- Hc. apply IH; try lia; [exact Hrest|].
      intros j Hj. rewrite Hc.
      destruct (Nat.eq_dec j i) as [->|Hne].
      * rewrite Hc. apply argmin_le_refl.
      * eapply argmin_le_trans; [apply argmin_lt_le; exact E|].
        apply Hmin. lia.
    + apply IH; try lia; [exact Hrest|].
      intros j Hj. destruct (Nat.eq_dec j i) as [->|Hne].
      * rewrite Hc. unfold argmin_le. now rewrite E.
      * apply Hmin. lia.
Qed.

Lemma argmin_spec (ds : ndarray) (r : nat) :
  argmin ds = Ok r ->
  r < length ds /\
  forall j, j < length ds ->
            argmin_le (nth r ds FNaN) (nth j ds FNaN) = true.
Proof.
  destruct ds as [|c l]; [discriminate|]. cbn [argmin]. intros H.
  injection H as <-.
  apply (@argmin_from_spec (c :: l) l 0 1); cbn [length]; try lia.
  - intros j _. reflexivity.
  - intros j Hj. replace j with 0 by lia. apply argmin_le_refl.
Qed.

Lemma round64_not_nan (q : Qc) : isnan (round64 q) = false.
Proof.
  unfold round64.
  destruct (Qnum (this q) =? 0)%Z; [reflexivity|].
  destruct (scale2 _ _ _) as [a b].
  destruct (0 <? _)%Z; [reflexivity|].
  destruct (2 ^ 1024 <=? _)%Z; reflexivity.
Qed.

Lemma fabs_not_nan (x : pyfloat) : isnan x = false -> isnan (fabs x) = false.
Proof. destruct x; [discriminate|reflexivity|reflexivity]. Qed.

Lemma distance_not_nan (y value : pyfloat) :
  is_finite value = true -> isnan y = false ->
  isnan (distance y value) = false.
Proof.
  destruct value as [| |v]; try discriminate.
  destruct y as [|[|]|q]; try discriminate; try reflexivity.
  intros _ _. unfold distance, fsub, fneg, fadd.
  apply fabs_not_nan, round64_not_nan.
Qed.

Lemma nth_map_distance (array : ndarray) (value : pyfloat) (j : nat) :
  j < length array ->
  nth j (map (fun x => fabs (fsub x value)) array) FNaN
  = distance (nth j array FNaN) value.
Proof.
  revert j. induction array as [|a array IH]; intros j Hj;
    [cbn [length] in Hj; lia|].
  destruct j as [|j]; [reflexivity|].
  cbn [map nth]. apply IH. cbn [length] in Hj. lia.
Qed.

(** X9.  [find_nearest] raises [ValueError] on an empty array and returns an
    element of the array otherwise.  When the array holds no NaN and [value]
    is finite, no element of the array has a smaller distance to [value]
    than the one returned, the distance [|y - value|] being the one the code
    compares: computed in binary64. *)
Theorem find_nearest_spec (array : ndarray) (value : pyfloat) :
  (array = [] -> find_nearest array value = Raise ValueError) /\
  (array <> [] ->
   exists x, find_nearest array value = Ok x /\ In x array) /\
  (forall x,
      find_nearest array value = Ok x ->
      is_finite value = true ->
      forallb (fun y => negb (isnan y)) array = true ->
      forall y, In y array ->
                fle (distance x value) (distance y value) = true).
Proof.
  unfold find_nearest. split; [intros ->; reflexivity|].
  destruct (argmin (map (fun x => fabs (fsub x value)) array)) as [r|e] eqn:A.
  2:{ split.
      - intros Hne. destruct array; [contradiction|discriminate A].
      - intros x H. discriminate H. }
  apply argmin_spec in A. destruct A as [Hr Hmin].
  rewrite length_map in Hr, Hmin.
  destruct (nth_error array r) as [x0|] eqn:En;
    [|apply nth_error_None in En; lia].
  cbn [bind]. try rewrite En. split.
  - intros _. exists x0. split; [reflexivity|].
    eapply nth_error_In. exact En.
  - intros x H Hv Hnan y Hy. injection H as <-.
    apply In_nth with (d := FNaN) in Hy. destruct Hy as [j [Hj <-]].
    specialize (Hmin j Hj).
    rewrite (nth_map_distance _ _ Hj), (nth_map_distance _ _ Hr) in Hmin.
    rewrite (nth_error_nth _ _ FNaN En) in Hmin.
    rewrite forallb_forall in Hnan.
    assert (N1 : isnan (distance x0 value) = false).
    { apply distance_not_nan; [exact Hv|].
      apply negb_true_iff, Hnan. eapply nth_error_In. exact En. }
    assert (N2 : isnan (distance (nth j array FNaN) value) = false).
    { apply distance_not_nan; [exact Hv|].
      apply negb_true_iff, Hnan. now apply nth_In. }
    unfold argmin_le, argmin_lt in Hmin.
    rewrite N1, N2, negb_involutive in Hmin. exact Hmin.
Qed.

Lemma find_nearest_spec_witness :
  exists x,
    find_nearest [FFin (Qz 1000); FFin (Qz 925); FFin (Qz 850)] (FFin (Qz 900))
    = Ok x /\
    fle (distance x (FFin (Qz 900)))
        (distance (FFin (Qz 850)) (FFin (Qz 900))) = true.
Proof.
  destruct (find_nearest_spec
              [FFin (Qz 1000); FFin (Qz 925); FFin (Qz 850)] (FFin (Qz 900)))
    as [_ [H1 H2]].
  destruct (H1 ltac:(discriminate)) as [x [E _]].
  exists x. split; [exact E|].
  apply (H2 x E eq_refl eq_refl). cbn. tauto.
Defined.

(** Distances that differ by less than the rounding error are equal for the
    code: of [1.0] and [2.0] the first is returned as nearest to [2 ^ 60]. *)
Example find_nearest_rounded_distances :
  find_nearest [FFin (Qz 1); FFin (Qz 2)] (FFin (Qz (2 ^ 60)))
  = Ok (FFin (Qz 1)).
Proof. vm_compute. reflexivity. Qed.

(* ================================================================= *)
(** ** [sort_sounding_by_time]: when it returns and what *)

Lemma take_rows (a : ndarray) (idx : list nat) :
  Forall (fun i => i < length a) idx -> take a idx = Ok (rows idx a).
Proof.
  induction 1 as [|i idx Hi _ IH]; [reflexivity|].
  cbn [take rows map].
  destruct (nth_error a i) as [x|] eqn:E;
    [|apply nth_error_None in E; lia].
  fold (rows idx a). rewrite IH. cbn [bind].
  now rewrite (nth_error_nth _ _ FNaN E).
Qed.

Lemma Forall_lt_le (idx : list nat) (n m : nat) :
  n <= m -> Forall (fun i => i < n) idx -> Forall (fun i => i < m) idx.
Proof.
  intros Hnm H. eapply Forall_impl; [|exact H]. intros i Hi. cbn in *. lia.
Qed.

(** Two soundings with the same twelve series and the same other fields
    are the same sounding. *)
Lemma sounding_ext_twelve (a b : Sounding ndarray) :
  twelve_series a = twelve_series b ->
  other_fields a = other_fields b -> a = b.
Proof.
  destruct a, b. unfold twelve_series, other_fields. cbn.
  intros H1 H2. injection H1 as -> -> -> -> -> -> -> -> -> -> -> ->.
  injection H2 as -> -> -> -> -> -> -> -> -> -> -> -> -> -> -> ->.
  reflexivity.
Qed.

Section SortReturns.
Variable argsort : ndarray -> list nat.
Hypothesis argsort_ok : argsort_spec argsort.

Lemma nan_argsort_perm (t : ndarray) (d : Z) :
  Permutation (nan_argsort argsort t d) (seq 0 (length t)).
Proof.
  unfold nan_argsort. destruct (argsort_ok (sort_keys t d)) as [Hp _].
  now rewrite sort_keys_length in Hp.
Qed.

Lemma nan_argsort_bounds (t : ndarray) (d : Z) :
  Forall (fun i => i < length t) (nan_argsort argsort t d).
Proof.
  apply Forall_forall. intros i Hi.
  apply (Permutation_in _ (nan_argsort_perm t d)) in Hi.
  apply in_seq in Hi. lia.
Qed.

(** A series indexed by the whole sorter is at least as long as the time
    series. *)
Lemma take_sorter_length (a t : ndarray) (d : Z) (l : ndarray) :
  take a (nan_argsort argsort t d) = Ok l -> length t <= length a.
Proof.
  intros H. apply take_Ok in H. destruct H as [_ [_ H]].
  destruct (length t) as [|n] eqn:En; [lia|].
  rewrite Forall_forall in H. apply (H n).
  apply (Permutation_in _ (Permutation_sym (nan_argsort_perm t d))).
  apply in_seq. lia.
Qed.

Lemma sort_rows (s : Sounding ndarray) (d : Z) :
  direction s = Some d ->
  covering s ->
  exists s',
    sort_sounding_by_time argsort s = Ok s' /\
    twelve_series s' =
      map (option_map (rows (nan_argsort argsort (time s) d)))
          (twelve_series s) /\
    other_fields s' = other_fields s.
Proof.
  intros Hd Hc. unfold covering, twelve_series in Hc.
  repeat match goal with
         | H : Forall _ (_ :: _) |- _ => inversion H; subst; clear H
         | H : exists a, _ |- _ => destruct H as [? [? ?]]
         | H : Some _ = Some _ |- _ => injection H as H; subst
         end.
  unfold sort_sounding_by_time.
  repeat match goal with
         | H : ?o = Some _ |- _ => rewrite H
         end.
  cbn [attr bind].
  repeat (rewrite take_rows
            by (eapply Forall_lt_le; [|apply nan_argsort_bounds]; assumption);
          cbn [bind]).
  eexists. split; [reflexivity|].
  unfold twelve_series, other_fields. cbn.
  repeat match goal with
         | H : ?o = Some _ |- _ => rewrite H
         end.
  repeat split.
Qed.

Lemma sort_Ok_covering (s s' : Sounding ndarray) :
  sort_sounding_by_time argsort s = Ok s' ->
  exists d, direction s = Some d /\ covering s.
Proof.
  intros H. unfold sort_sounding_by_time in H.
  destruct (direction s) as [d|] eqn:Hd; [|discriminate H].
  exists d. split; [reflexivity|]. cbn [attr bind] in H.
  unfold covering, twelve_series.
  repeat match type of H with
         | bind (attr _ ?o) _ = Ok _ =>
             destruct o; cbn [attr bind] in H; [|discriminate H]
         | bind (take ?a _) _ = Ok _ =>
             let E := fresh "E" in
             destruct (take a (nan_argsort argsort (time s) d)) eqn:E;
             cbn [bind] in H; [|discriminate H];
             apply take_sorter_length in E
         end.
  repeat constructor; eexists; (split; [reflexivity|assumption]).
Qed.

(** A sounding returned by the sort has its twelve series as long as its
    time series. *)
Lemma sort_Ok_aligned (s s' : Sounding ndarray) :
  sort_sounding_by_time argsort s = Ok s' -> aligned s'.
Proof.
  intros H. destruct (@sort_Ok_covering _ _ H) as [d [Hd Hc]].
  destruct (@sort_rows _ _ Hd Hc) as [s1 [E [Ht _]]].
  rewrite H in E. injection E as <-.
  assert (Htime : time s' = rows (nan_argsort argsort (time s) d) (time s)).
  { unfold twelve_series in Ht. cbn [map option_map] in Ht.
    now injection Ht. }
  unfold aligned. rewrite Ht, Htime. apply Forall_map.
  eapply Forall_impl; [|exact Hc].
  intros o [a [-> _]]. eexists. split; [reflexivity|].
  now rewrite !rows_length.
Qed.
End SortReturns.

(** X10.  For every [np.argsort] meeting its contract, on a sounding with its
    direction set and all twelve series set and at least as long as the time
    series, [sort_sounding_by_time] returns: every one of the twelve series is
    reindexed with the same sorter, a permutation of the row numbers of the
    time series, so rows stay together and a series longer than the time
    series is cut to its length; no other field changes. *)
Theorem sort_sounding_by_time_spec (argsort : ndarray -> list nat)
    (s : Sounding ndarray) (d : Z) :
  argsort_spec argsort ->
  direction s = Some d ->
  covering s ->
  let sorter := nan_argsort argsort (time s) d in
  Permutation sorter (seq 0 (length (time s))) /\
  exists s',
    sort_sounding_by_time argsort s = Ok s' /\
    twelve_series s' = map (option_map (rows sorter)) (twelve_series s) /\
    Forall (fun o => exists a : ndarray,
                       o = Some a /\ length a = length (time s))
           (twelve_series s') /\
    other_fields s' = other_fields s.
Proof.
  intros Hok Hd Hc sorter.
  split; [apply (nan_argsort_perm Hok)|].
  destruct (@sort_rows argsort Hok s d Hd Hc) as [s' [E [Ht Ho]]].
  exists s'. split; [exact E|]. split; [exact Ht|]. split; [|exact Ho].
  rewrite Ht. unfold covering in Hc. apply Forall_map.
  eapply Forall_impl; [|exact Hc].
  intros o [a [-> _]]. exists (rows sorter a). split; [reflexivity|].
  rewrite rows_length. unfold sorter.
  rewrite (Permutation_length (nan_argsort_perm Hok (time s) d)).
  apply length_seq.
Qed.

Lemma sort_sounding_by_time_spec_witness :
  exists s',
    sort_sounding_by_time argsort_stable
      (profile 1 [FFin (Qz 4); FNaN; FFin (Qz 2)]
                 [FFin (Qz 990); FFin (Qz 1000); FFin (Qz 995);
                  FFin (Qz 0)]) = Ok s' /\
    time s' = [FNaN; FFin (Qz 2); FFin (Qz 4)] /\
    pressure s' = [FFin (Qz 1000); FFin (Qz 995); FFin (Qz 990)].
Proof.
  destruct (@sort_sounding_by_time_spec argsort_stable
              (profile 1 [FFin (Qz 4); FNaN; FFin (Qz 2)]
                         [FFin (Qz 990); FFin (Qz 1000); FFin (Qz 995);
                          FFin (Qz 0)]) 1 argsort_stable_spec eq_refl)
    as [_ [s' [H [Ht _]]]].
  { unfold covering. repeat constructor; eexists; split;
      try reflexivity; cbn; lia. }
  exists s'. split; [exact H|].
  unfold twelve_series in Ht. cbn in Ht.
  injection Ht as Htime _ _ Hp _ _ _ _ _ _ _ _.
  split; [exact Htime|exact Hp].
Defined.

(** X11.  For every [np.argsort] meeting its contract, [sort_sounding_by_time]
    returns exactly when the direction is set and all twelve series are set
    and at least as long as the time series; without a direction it raises
    [AttributeError]. *)
Theorem sort_sounding_by_time_returns (argsort : ndarray -> list nat)
    (s : Sounding ndarray) :
  argsort_spec argsort ->
  ((exists s', sort_sounding_by_time argsort s = Ok s') <->
   direction s <> None /\ covering s) /\
  (direction s = None ->
   sort_sounding_by_time argsort s = Raise (AttributeError "direction")).
Proof.
  intros Hok. split; [split|].
  - intros [s' H]. destruct (@sort_Ok_covering _ Hok _ _ H) as [d [Hd Hc]].
    split; [congruence|exact Hc].
  - intros [Hd Hc]. destruct (direction s) as [d|] eqn:E; [|contradiction].
    destruct (@sort_rows argsort Hok s d E Hc) as [s' [H _]]. eauto.
  - intros Hd. unfold sort_sounding_by_time. now rewrite Hd.
Qed.

Lemma sort_sounding_by_time_returns_witness :
  ~ (exists s',
        sort_sounding_by_time argsort_stable
          (profile 1 [FFin (Qz 4); FNaN; FFin (Qz 2)]
                     [FFin (Qz 990); FFin (Qz 1000)]) = Ok s') /\
  sort_sounding_by_time argsort_stable (bufr_units_sounding [FFin (Qz 300)])
  = Raise (AttributeError "direction").
Proof.
  split.
  - intros H.
    destruct (proj1 (proj1 (@sort_sounding_by_time_returns argsort_stable
                              (profile 1 [FFin (Qz 4); FNaN; FFin (Qz 2)]
                                         [FFin (Qz 990); FFin (Qz 1000)])
                              argsort_stable_spec)) H) as [_ Hc].
    unfold covering in Hc. inversion Hc as [|? ? _ Hc1]; subst.
    inversion Hc1 as [|? ? [a [Ha Hl]] _]; subst.
    injection Ha as <-. cbn in Hl. lia.
  - apply (proj2 (@sort_sounding_by_time_returns argsort_stable
                    (bufr_units_sounding [FFin (Qz 300)])
                    argsort_stable_spec)).
    reflexivity.
Defined.

(** X12.  After sorting, the time stamps that are not missing are in
    nondecreasing order along the sounding. *)
Theorem sorted_times_in_order (argsort : ndarray -> list nat)
    (s s1 : Sounding ndarray) :
  argsort_spec argsort ->
  sort_sounding_by_time argsort s = Ok s1 ->
  forall p q,
    p < q < length (time s1) ->
    isnan (nth p (time s1) FNaN) = false ->
    isnan (nth q (time s1) FNaN) = false ->
    fle (nth p (time s1) FNaN) (nth q (time s1) FNaN) = true.
Proof.
  intros Hok H p q Hpq Np Nq.
  destruct (direction s) as [d|] eqn:Hd;
    [|unfold sort_sounding_by_time in H; rewrite Hd in H; discriminate H].
  pose proof (@sorted_keys argsort Hok s s1 d Hd H) as Hk.
  pose proof (@sorted_keys_in_order argsort Hok (sort_keys (time s) d)) as Hs.
  rewrite <- Hk in Hs.
  assert (Hlen : length (time s1) = length (time s)).
  { rewrite (@sorted_time argsort s s1 d Hd H), rows_length.
    unfold nan_argsort.
    now rewrite (@sorter_length argsort Hok), sort_keys_length. }
  pose proof (@StronglySorted_nth _ _ _ 0 Hs p q) as Hpq'.
  rewrite length_seq, sort_keys_length, <- Hlen in Hpq'.
  specialize (Hpq' Hpq). rewrite !seq_nth in Hpq' by lia.
  unfold key_le in Hpq'. cbn [Nat.add] in Hpq'.
  rewrite !sort_keys_nth in Hpq' by lia.
  now rewrite Np, Nq in Hpq'.
Qed.

Lemma sorted_times_in_order_witness :
  exists s1,
    sort_sounding_by_time argsort_stable
      (profile 1 [FFin (Qz 4); FNaN; FFin (Qz 2)]
                 [FFin (Qz 990); FFin (Qz 1000); FFin (Qz 995)]) = Ok s1 /\
    fle (nth 1 (time s1) FNaN) (nth 2 (time s1) FNaN) = true.
Proof.
  destruct (sort_sounding_by_time argsort_stable
              (profile 1 [FFin (Qz 4); FNaN; FFin (Qz 2)]
                         [FFin (Qz 990); FFin (Qz 1000); FFin (Qz 995)]))
    as [s1|e] eqn:E; [|vm_compute in E; discriminate E].
  exists s1. split; [reflexivity|].
  assert (Ht : time s1 = [FNaN; FFin (Qz 2); FFin (Qz 4)])
    by (vm_compute in E; injection E as <-; reflexivity).
  apply (@sorted_times_in_order argsort_stable _ s1 argsort_stable_spec E);
    rewrite Ht; [cbn; lia|reflexivity|reflexivity].
Defined.

(* ================================================================= *)
(** ** [exclude_1000hPa_gpm]: when it returns, and a second pass *)

Lemma exclude_rows (s : Sounding ndarray) :
  aligned s ->
  exists s',
    exclude_1000hPa_gpm s = Ok s' /\
    twelve_series s' =
      map (option_map (rows (kept_rows (time s)))) (twelve_series s) /\
    other_fields s' = other_fields s.
Proof.
  intros Ha. unfold aligned, twelve_series in Ha.
  repeat match goal with
         | H : Forall _ (_ :: _) |- _ => inversion H; subst; clear H
         | H : exists a, _ |- _ => destruct H as [? [? ?]]
         | H : Some _ = Some _ |- _ => injection H as H; subst
         end.
  unfold exclude_1000hPa_gpm.
  repeat match goal with
         | H : ?o = Some _ |- _ => rewrite H
         end.
  cbn [attr bind].
  repeat (rewrite bool_index_mask by assumption; cbn [bind]).
  eexists. split; [reflexivity|].
  unfold twelve_series, other_fields. cbn.
  repeat match goal with
         | H : ?o = Some _ |- _ => rewrite H
         end.
  repeat split.
Qed.

Lemma bool_index_Ok_length (a : ndarray) (mask : list bool) (l : ndarray) :
  bool_index a mask = Ok l -> mask = [] \/ length mask = length a.
Proof.
  unfold bool_index. destruct mask as [|b mask]; [now left|].
  destruct (Nat.eqb_spec (length (b :: mask)) (length a));
    [now right|discriminate].
Qed.

Lemma bool_index_empty_mask (a : ndarray) : bool_index a [] = Ok [].
Proof. reflexivity. Qed.

Lemma rows_seq (a : ndarray) : rows (seq 0 (length a)) a = a.
Proof.
  unfold rows. induction a as [|x a IH]; [reflexivity|].
  cbn [length seq map nth]. f_equal.
  rewrite <- seq_shift, map_map. exact IH.
Qed.

Lemma kept_rows_no_nan (t : ndarray) :
  Forall (fun x => isnan x = false) t -> kept_rows t = seq 0 (length t).
Proof.
  intros H. unfold kept_rows.
  apply forallb_filter_id. apply forallb_forall. intros i Hi.
  apply in_seq in Hi. apply negb_true_iff.
  rewrite Forall_forall in H. apply H, nth_In. lia.
Qed.

Lemma rows_kept_no_nan (t : ndarray) :
  Forall (fun x => isnan x = false) (rows (kept_rows t) t).
Proof.
  apply Forall_forall. intros x Hx. unfold rows in Hx.
  apply in_map_iff in Hx. destruct Hx as [i [<- Hi]].
  now apply kept_rows_spec in Hi.
Qed.

(** X13.  On a sounding whose twelve series are set and as long as the time
    series, the result of [exclude_1000hPa_gpm] has no missing time stamp
    left, its series are again as long as its time series, and excluding once
    more returns it unchanged. *)
Theorem exclude_1000hPa_gpm_idempotent (s : Sounding ndarray) :
  aligned s ->
  exists s',
    exclude_1000hPa_gpm s = Ok s' /\
    Forall (fun x => isnan x = false) (time s') /\
    aligned s' /\
    exclude_1000hPa_gpm s' = Ok s'.
Proof.
  intros Ha. destruct (exclude_rows Ha) as [s' [E [Ht Ho]]].
  exists s'. split; [exact E|].
  assert (Htime : time s' = rows (kept_rows (time s)) (time s)).
  { unfold twelve_series in Ht. cbn [map option_map] in Ht.
    now injection Ht. }
  assert (Hnan : Forall (fun x => isnan x = false) (time s'))
    by (rewrite Htime; apply rows_kept_no_nan).
  assert (Ha' : aligned s').
  { unfold aligned. rewrite Ht, Htime. apply Forall_map.
    eapply Forall_impl; [|exact Ha].
    intros o [a [-> _]]. eexists. split; [reflexivity|].
    now rewrite !rows_length. }
  split; [exact Hnan|]. split; [exact Ha'|].
  destruct (exclude_rows Ha') as [s'' [E' [Ht' Ho']]].
  rewrite E'. f_equal. apply sounding_ext_twelve; [|exact Ho'].
  rewrite Ht', (kept_rows_no_nan Hnan).
  unfold aligned in Ha'. clear - Ha'.
  induction Ha' as [|o l [a [-> Hl]] _ IH]; [reflexivity|].
  cbn [map option_map]. rewrite IH. f_equal. f_equal.
  rewrite <- Hl. apply rows_seq.
Qed.

Lemma exclude_1000hPa_gpm_idempotent_witness :
  exists s',
    exclude_1000hPa_gpm
      (profile 1 [FNaN; FFin (Qz 0); FFin (Qz 2)]
                 [FFin (Qz 1000); FNaN; FFin (Qz 990)]) = Ok s' /\
    exclude_1000hPa_gpm s' = Ok s'.
Proof.
  destruct (@exclude_1000hPa_gpm_idempotent
              (profile 1 [FNaN; FFin (Qz 0); FFin (Qz 2)]
                         [FFin (Qz 1000); FNaN; FFin (Qz 990)]))
    as [s' [E [_ [_ E']]]].
  { unfold aligned. repeat constructor; eexists; split; reflexivity. }
  exists s'. split; [exact E|exact E'].
Defined.

(** When the exclusion returns, the twelve series are set, and as long as
    the time series unless that is empty. *)
Lemma exclude_Ok_cases (s s' : Sounding ndarray) :
  exclude_1000hPa_gpm s = Ok s' ->
  aligned s \/ (time s = [] /\ covering s).
Proof.
  intros H. unfold exclude_1000hPa_gpm in H.
  destruct (time s) as [|x t] eqn:Et.
  - right. split; [reflexivity|]. unfold covering, twelve_series.
    rewrite Et.
    repeat match type of H with
           | bind (attr _ ?o) _ = Ok _ =>
               destruct o; cbn [attr bind] in H; [|discriminate H]
           | bind (bool_index ?a ?m) _ = Ok _ =>
               change (bool_index a m) with (@Ok (list pyfloat) []) in H;
               cbn [bind] in H
           end.
    repeat constructor; eexists; (split; [reflexivity|cbn [length]; lia]).
  - left. unfold aligned, twelve_series. rewrite Et.
    repeat match type of H with
           | bind (attr _ ?o) _ = Ok _ =>
               destruct o; cbn [attr bind] in H; [|discriminate H]
           | bind (bool_index ?a ?m) _ = Ok _ =>
               let E := fresh "E" in
               destruct (bool_index a m) eqn:E;
               cbn [bind] in H; [|discriminate H];
               apply bool_index_Ok_length in E;
               destruct E as [E|E]; [discriminate E|];
               rewrite length_map in E
           end.
    repeat constructor; eexists; (split; [reflexivity|congruence]).
Qed.

(** With an empty time series the mask is empty and selects nothing from
    any series, whatever its length. *)
Lemma exclude_empty_time (s : Sounding ndarray) :
  time s = [] -> covering s ->
  exists s',
    exclude_1000hPa_gpm s = Ok s' /\
    twelve_series s' = map (option_map (fun _ => [])) (twelve_series s) /\
    other_fields s' = other_fields s.
Proof.
  intros Et Hc. unfold covering, twelve_series in Hc.
  repeat match goal with
         | H : Forall _ (_ :: _) |- _ => inversion H; subst; clear H
         | H : exists a, _ |- _ => destruct H as [? [? ?]]
         | H : Some _ = Some _ |- _ => injection H as H; subst
         end.
  unfold exclude_1000hPa_gpm.
  repeat match goal with
         | H : ?o = Some _ |- _ => rewrite H
         end.
  rewrite Et. cbn [map attr bind bool_index].
  eexists. split; [reflexivity|].
  unfold twelve_series, other_fields. cbn.
  repeat match goal with
         | H : ?o = Some _ |- _ => rewrite H
         end.
  repeat split.
Qed.

(** X14.  [exclude_1000hPa_gpm] returns exactly on the soundings whose twelve
    series are all set and either as long as the time series or, the time
    series being empty, of any length: a series of another length makes the
    boolean index raise unless the mask is empty.  The series of the result
    are as long as its time series. *)
Theorem exclude_1000hPa_gpm_returns (s : Sounding ndarray) :
  ((exists s', exclude_1000hPa_gpm s = Ok s') <->
   aligned s \/ (time s = [] /\ covering s)) /\
  (forall s', exclude_1000hPa_gpm s = Ok s' -> aligned s').
Proof.
  split; [split|].
  - intros [s' H]. exact (@exclude_Ok_cases _ _ H).
  - intros [Ha|[Et Hc]].
    + destruct (exclude_rows Ha) as [s' [E _]]. eauto.
    + destruct (@exclude_empty_time _ Et Hc) as [s' [E _]]. eauto.
  - intros s' H. destruct (@exclude_Ok_cases _ _ H) as [Ha|[Et Hc]].
    + destruct (exclude_rows Ha) as [s1 [E [Ht _]]].
      rewrite H in E. injection E as <-.
      assert (Htime : time s' = rows (kept_rows (time s)) (time s)).
      { unfold twelve_series in Ht. cbn [map option_map] in Ht.
        now injection Ht. }
      unfold aligned. rewrite Ht, Htime. apply Forall_map.
      eapply Forall_impl; [|exact Ha].
      intros o [a [-> _]]. eexists. split; [reflexivity|].
      now rewrite !rows_length.
    + destruct (@exclude_empty_time _ Et Hc) as [s1 [E [Ht _]]].
      rewrite H in E. injection E as <-.
      assert (Htime : time s' = []).
      { unfold twelve_series in Ht. cbn [map option_map] in Ht.
        now injection Ht. }
      unfold aligned. rewrite Ht, Htime. apply Forall_map.
      eapply Forall_impl; [|exact Hc].
      intros o [a [-> _]]. eexists. split; reflexivity.
Qed.

Lemma exclude_1000hPa_gpm_returns_witness :
  ~ (exists s',
        exclude_1000hPa_gpm
          (profile 1 [FNaN; FFin (Qz 0); FFin (Qz 2)]
                     [FFin (Qz 1000); FNaN; FFin (Qz 990); FFin (Qz 0)])
        = Ok s') /\
  (exists s',
      exclude_1000hPa_gpm (profile 1 [] [FFin (Qz 1000); FNaN]) = Ok s' /\
      aligned s').
Proof.
  split.
  - intros H.
    apply (proj1 (proj1 (exclude_1000hPa_gpm_returns _))) in H.
    destruct H as [H|[H _]]; [|discriminate H].
    unfold aligned in H. inversion H as [|? ? _ H1]; subst.
    inversion H1 as [|? ? [a [Ha Hl]] _]; subst.
    injection Ha as <-. cbn in Hl. lia.
  - destruct (proj2 (proj1 (exclude_1000hPa_gpm_returns
                              (profile 1 [] [FFin (Qz 1000); FNaN]))))
      as [s' E].
    { right. split; [reflexivity|]. unfold covering.
      repeat constructor; eexists; (split; [reflexivity|cbn; lia]). }
    exists s'. split; [exact E|].
    exact (proj2 (exclude_1000hPa_gpm_returns _) s' E).
Defined.

(* ================================================================= *)
(** ** The extractor: what a successful scan implies *)

Lemma dict_get_dict_set {V : Type} (d : dict V) (k k' : string) (v : V) :
  dict_get (dict_set d k v) k' =
    if String.eqb k k' then Some v else dict_get d k'.
Proof.
  induction d as [|[k0 v0] d IH]; cbn [dict_set dict_get].
  - reflexivity.
  - destruct (String.eqb_spec k0 k) as [->|Hne]; cbn [dict_get].
    + destruct (String.eqb_spec k k'); reflexivity.
    + destruct (String.eqb_spec k0 k') as [->|Hne'].
      * destruct (String.eqb_spec k k'); [congruence|reflexivity].
      * exact IH.
Qed.

Lemma record_sample_meta (v : variable) (json_flat : dict pyval) (k : string)
    (s s' : Sounding pylist) :
  record_sample v json_flat k s = Ok s' -> meta_data s' = meta_data s.
Proof.
  intros H. apply record_sample_Ok in H.
  destruct H as [value [u [_ [_ [_ [_ [_ [_ H]]]]]]]]. apply H.
Qed.

Lemma pre_step_meta (v : variable) (s : Sounding pylist) :
  meta_data (pre_step v s) = meta_data s.
Proof.
  unfold pre_step. destruct (variable_eqb v v_time); [|reflexivity].
  apply (integrity_frame s).
Qed.

Lemma is_field_tracked (json_flat : dict pyval) (k name : string)
    (v : variable) :
  field_of json_flat k = Some v ->
  tracked_var name = None ->
  is_field json_flat k name = false.
Proof.
  unfold field_of, is_field. intros F T.
  destruct (dict_get json_flat (k ++ "_key")) as [[| | | |n]|];
    try reflexivity.
  destruct (String.eqb_spec n name) as [->|]; [congruence|reflexivity].
Qed.

(** One successful iteration: the entry met the input contract, the six
    locals of the launch time and the presence of [bufr_msg] moved as the
    field name of the entry says. *)
Lemma scan_step_bookkeeping (json_flat : dict pyval) (k : string)
    (st st' : scan) :
  scan_step json_flat st k = Ok st' ->
  entry_ok json_flat k = true /\
  (sc_year st' = launch_field json_flat "year" (sc_year st) k /\
   sc_month st' = launch_field json_flat "month" (sc_month st) k /\
   sc_day st' = launch_field json_flat "day" (sc_day st) k /\
   sc_hour st' = launch_field json_flat "hour" (sc_hour st) k /\
   sc_minute st' = launch_field json_flat "minute" (sc_minute st) k /\
   sc_second st' = launch_field json_flat "second" (sc_second st) k) /\
  has_meta (sc_s st') "bufr_msg" =
    has_meta (sc_s st) "bufr_msg"
    || is_field json_flat k "unexpandedDescriptors".
Proof.
  intros H.
  destruct (field_of json_flat k) as [v|] eqn:F.
  - (* a tracked variable *)
    rewrite (@scan_step_tracked _ _ st _ F) in H.
    destruct (record_sample v json_flat k (pre_step v (sc_s st)))
      as [s1|e] eqn:R; cbn [bind] in H; [|discriminate H].
    injection H as <-.
    pose proof (record_sample_meta _ _ _ _ R) as M.
    rewrite pre_step_meta in M.
    apply record_sample_Ok in R.
    destruct R as [value [u [Hv [Hu _]]]].
    unfold launch_field.
    rewrite !(is_field_tracked _ _ _ F) by reflexivity.
    cbn [with_s sc_s sc_year sc_month sc_day sc_hour sc_minute sc_second].
    unfold has_meta. rewrite M, orb_false_r.
    split; [|repeat split].
    unfold entry_ok. unfold field_of in F.
    destruct (dict_get json_flat (k ++ "_key")) as [[| | | |name]|];
      try discriminate F.
    rewrite F, (tracked_reads_value _ F). unfold has_key. rewrite Hv, Hu.
    cbn [negb orb andb].
    destruct (String.eqb_spec name "radiosondeOperatingFrequency")
      as [->|]; [discriminate F|reflexivity].
  - (* any other entry *)
    unfold scan_step, getitem in H. unfold field_of in F.
    unfold entry_ok, launch_field, is_field, has_meta.
    destruct (dict_get json_flat (k ++ "_key")) as [[| | | |name]|];
      cbn [bind] in H; try discriminate H;
      try (injection H as <-; rewrite orb_false_r; repeat split).
    unfold dispatch in H. unfold tracked_var in F. unfold has_key.
    split_name name; try discriminate F; cbn in H |- *;
      repeat (match type of H with
              | context [getitem ?d ?key] =>
                  let x := fresh "x" in
                  let e := fresh "e" in
                  let E := fresh "E" in
                  destruct (getitem d key) as [x|e] eqn:E;
                  [apply getitem_Ok in E
                  |apply getitem_Raise in E; destruct E as [-> E]];
                  rewrite ?E; cbn in H; try discriminate H
              end);
      try match type of H with
          | context [match ?u with PStr _ => _ | _ => _ end] =>
              destruct u; cbn in H; try discriminate H
          end;
      injection H as <-; cbn;
      rewrite ?dict_get_dict_set; cbn;
      try unfold reads_value; try unfold tracked_var; cbn [existsb];
      repeat match goal with
             | n : ?a <> ?b |- _ =>
                 rewrite ?(proj2 (String.eqb_neq a b) n); clear n
             end;
      cbn; rewrite ?orb_false_r, ?orb_true_r; repeat split; reflexivity.
Qed.

Lemma scan_keys_bookkeeping (json_flat : dict pyval) (keys : list string) :
  forall st st',
    scan_keys json_flat keys st = Ok st' ->
    forallb (entry_ok json_flat) keys = true /\
    (sc_year st'
     = fold_left (launch_field json_flat "year") keys (sc_year st) /\
     sc_month st'
     = fold_left (launch_field json_flat "month") keys (sc_month st) /\
     sc_day st' = fold_left (launch_field json_flat "day") keys (sc_day st) /\
     sc_hour st'
     = fold_left (launch_field json_flat "hour") keys (sc_hour st) /\
     sc_minute st'
     = fold_left (launch_field json_flat "minute") keys (sc_minute st) /\
     sc_second st'
     = fold_left (launch_field json_flat "second") keys (sc_second st)) /\
    has_meta (sc_s st') "bufr_msg" =
      has_meta (sc_s st) "bufr_msg"
      || existsb (fun k => is_field json_flat k "unexpandedDescriptors") keys.
Proof.
  induction keys as [|k rest IH]; intros st st' H; cbn [scan_keys] in H.
  - injection H as <-. cbn. rewrite orb_false_r. repeat split.
  - destruct (scan_step json_flat st k) as [st1|e] eqn:Hs; cbn [bind] in H;
      [|discriminate H].
    apply scan_step_bookkeeping in Hs.
    destruct Hs as [Hc [[Hy [Hmo [Hd [Hh [Hmi Hse]]]]] Hm]].
    destruct (IH st1 st' H) as [Hc' [[Hy' [Hmo' [Hd' [Hh' [Hmi' Hse']]]]] Hm']].
    cbn [forallb fold_left existsb].
    rewrite Hc, Hc', <- Hy, <- Hmo, <- Hd, <- Hh, <- Hmi, <- Hse, Hm', Hm.
    rewrite orb_assoc. repeat split; assumption.
Qed.

Lemma make_datetime_Ok (year month day hour minute second : pyval)
    (t : datetime) :
  make_datetime year month day hour minute second = Ok t ->
  valid_datetime t /\
  as_c_int year = Ok (dt_year t) /\ as_c_int month = Ok (dt_month t) /\
  as_c_int day = Ok (dt_day t) /\ as_c_int hour = Ok (dt_hour t) /\
  as_c_int minute = Ok (dt_minute t) /\ as_c_int second = Ok (dt_second t).
Proof.
  unfold make_datetime. intros H.
  destruct (as_c_int year) as [y|]; cbn [bind] in H; [|discriminate H].
  destruct (as_c_int month) as [mo|]; cbn [bind] in H; [|discriminate H].
  destruct (as_c_int day) as [d|]; cbn [bind] in H; [|discriminate H].
  destruct (as_c_int hour) as [h|]; cbn [bind] in H; [|discriminate H].
  destruct (as_c_int minute) as [mi|]; cbn [bind] in H; [|discriminate H].
  destruct (as_c_int second) as [se|]; cbn [bind] in H; [|discriminate H].
  match type of H with
  | (if ?c then _ else _) = _ => destruct c eqn:C; [|discriminate H]
  end.
  injection H as <-. cbn [dt_year dt_month dt_day dt_hour dt_minute dt_second].
  split; [|repeat split].
  repeat (apply andb_prop in C; destruct C as [C ?]).
  unfold valid_datetime.
  cbn [dt_year dt_month dt_day dt_hour dt_minute dt_second].
  repeat match goal with
         | H : (_ <=? _)%Z = true |- _ => apply Z.leb_le in H
         end.
  lia.
Qed.

Lemma convert_Ok_launch (json_flat : dict pyval) (key_keys : list string)
    (s : Sounding pylist) :
  convert_json_to_arrays json_flat key_keys = Ok s ->
  exists st year month day hour minute second t,
    scan_keys json_flat key_keys new_scan = Ok st /\
    sc_year st = Some year /\ sc_month st = Some month /\
    sc_day st = Some day /\ sc_hour st = Some hour /\
    sc_minute st = Some minute /\ sc_second st = Some second /\
    make_datetime year month day hour minute second = Ok t /\
    s = set_sounding_start_time t (_ensure_measurement_integrity (sc_s st)).
Proof.
  unfold convert_json_to_arrays. intros H.
  destruct (scan_keys json_flat key_keys new_scan) as [st|e];
    cbn [bind] in H; [|discriminate H].
  destruct (sc_year st) as [y|] eqn:E1; cbn [local bind] in H;
    [|discriminate H].
  destruct (sc_month st) as [mo|] eqn:E2; cbn [local bind] in H;
    [|discriminate H].
  destruct (sc_day st) as [d|] eqn:E3; cbn [local bind] in H;
    [|discriminate H].
  destruct (sc_hour st) as [h|] eqn:E4; cbn [local bind] in H;
    [|discriminate H].
  destruct (sc_minute st) as [mi|] eqn:E5; cbn [local bind] in H;
    [|discriminate H].
  destruct (sc_second st) as [se|] eqn:E6; cbn [local bind] in H;
    [|discriminate H].
  destruct (make_datetime y mo d h mi se) as [t|] eqn:M; cbn [bind] in H;
    [|discriminate H].
  injection H as <-. exists st, y, mo, d, h, mi, se, t.
  repeat split; assumption.
Qed.

(** X15.  [convert_json_to_arrays] returns only if every entry has the [_key],
    [_value] and [_units] members its branch reads. *)
Theorem convert_needs_contract (json_flat : dict pyval)
    (key_keys : list string) (s : Sounding pylist) :
  convert_json_to_arrays json_flat key_keys = Ok s ->
  forallb (entry_ok json_flat) key_keys = true.
Proof.
  intros H. apply convert_Ok in H. destruct H as [st [t [H _]]].
  now apply scan_keys_bookkeeping in H.
Qed.

Lemma convert_needs_contract_witness :
  forallb (entry_ok no_longitude) no_longitude_keys = true.
Proof.
  destruct (convert_json_to_arrays no_longitude no_longitude_keys)
    as [s|e] eqn:E; [|vm_compute in E; discriminate E].
  exact (convert_needs_contract _ _ E).
Defined.

(** X16.  The launch time of a returned sounding is a valid calendar date and
    time, and each of its six fields is the last value reported for it (as an
    integer). *)
Theorem convert_launch_time (json_flat : dict pyval)
    (key_keys : list string) (s : Sounding pylist) :
  convert_json_to_arrays json_flat key_keys = Ok s ->
  exists t,
    sounding_start_time s = Some t /\
    valid_datetime t /\
    (exists y, last_value json_flat "year" key_keys = Some y /\
               as_c_int y = Ok (dt_year t)) /\
    (exists m, last_value json_flat "month" key_keys = Some m /\
               as_c_int m = Ok (dt_month t)) /\
    (exists d, last_value json_flat "day" key_keys = Some d /\
               as_c_int d = Ok (dt_day t)) /\
    (exists h, last_value json_flat "hour" key_keys = Some h /\
               as_c_int h = Ok (dt_hour t)) /\
    (exists m, last_value json_flat "minute" key_keys = Some m /\
               as_c_int m = Ok (dt_minute t)) /\
    (exists x, last_value json_flat "second" key_keys = Some x /\
               as_c_int x = Ok (dt_second t)).
Proof.
  intros H. apply convert_Ok_launch in H.
  destruct H as [st [y [mo [d [h [mi [se [t H]]]]]]]].
  destruct H as [Hs [E1 [E2 [E3 [E4 [E5 [E6 [M ->]]]]]]]].
  apply scan_keys_bookkeeping in Hs.
  destruct Hs as [_ [[Hy [Hmo [Hd [Hh [Hmi Hse]]]]] _]].
  apply make_datetime_Ok in M.
  destruct M as [V [A1 [A2 [A3 [A4 [A5 A6]]]]]].
  exists t. split; [reflexivity|]. split; [exact V|].
  unfold last_value. cbn [new_scan sc_year sc_month sc_day sc_hour sc_minute
                          sc_second] in *.
  rewrite <- Hy, <- Hmo, <- Hd, <- Hh, <- Hmi, <- Hse.
  repeat split; eauto.
Qed.

Lemma convert_launch_time_witness :
  exists s t,
    convert_json_to_arrays no_longitude no_longitude_keys = Ok s /\
    sounding_start_time s = Some t /\
    valid_datetime t /\
    last_value no_longitude "hour" no_longitude_keys = Some (PInt 10).
Proof.
  destruct (convert_json_to_arrays no_longitude no_longitude_keys)
    as [s|e] eqn:E; [|vm_compute in E; discriminate E].
  destruct (convert_launch_time _ _ E) as [t [Ht [V _]]].
  exists s, t. split; [reflexivity|]. split; [exact Ht|].
  split; [exact V|reflexivity].
Defined.

(** X17.  [bufr_specific_handling] never changes a sounding, and on the result
    of [convert_json_to_arrays] it returns exactly when the message had an
    [unexpandedDescriptors] entry; otherwise the lookup of
    [meta_data['bufr_msg']] raises [KeyError]. *)
Theorem bufr_specific_handling_spec (json_flat : dict pyval)
    (key_keys : list string) (s : Sounding pylist) :
  convert_json_to_arrays json_flat key_keys = Ok s ->
  bufr_specific_handling s =
    if existsb (fun k => is_field json_flat k "unexpandedDescriptors")
               key_keys
    then Ok s
    else Raise (KeyError "bufr_msg").
Proof.
  intros H. apply convert_Ok in H. destruct H as [st [t [H ->]]].
  apply scan_keys_bookkeeping in H. destruct H as [_ [_ Hm]].
  unfold bufr_specific_handling, getitem.
  change (meta_data (set_sounding_start_time t
                       (_ensure_measurement_integrity (sc_s st))))
    with (meta_data (_ensure_measurement_integrity (sc_s st))).
  assert (M : meta_data (_ensure_measurement_integrity (sc_s st))
              = meta_data (sc_s st)) by apply (integrity_frame (sc_s st)).
  rewrite M. unfold has_meta in Hm. cbn [new_scan sc_s new_Sounding
    meta_data dict_get orb] in Hm.
  destruct (dict_get (meta_data (sc_s st)) "bufr_msg");
    rewrite <- Hm; reflexivity.
Qed.

Lemma bufr_specific_handling_spec_witness :
  exists s,
    convert_json_to_arrays no_longitude no_longitude_keys = Ok s /\
    bufr_specific_handling s = Raise (KeyError "bufr_msg").
Proof.
  destruct (convert_json_to_arrays no_longitude no_longitude_keys)
    as [s|e] eqn:E; [|vm_compute in E; discriminate E].
  exists s. split; [reflexivity|].
  exact (bufr_specific_handling_spec _ _ E).
Defined.

(* ================================================================= *)
(** ** The extractor: the contents of the series *)

(** The effect of one successful iteration on the series. *)
Lemma scan_step_series (json_flat : dict pyval) (k : string)
    (st st' : scan) :
  scan_step json_flat st k = Ok st' ->
  match field_of json_flat k with
  | Some v =>
      exists x,
        samples json_flat k = [x] /\
        forall w,
          get_var w (sc_s st') =
            get_var w (pre_step v (sc_s st)) ++
            (if variable_eqb v w then [x] else [])
  | None => forall w, get_var w (sc_s st') = get_var w (sc_s st)
  end.
Proof.
  intros H. apply scan_step_Ok in H.
  destruct (field_of json_flat k) as [v|]; [|apply H].
  apply record_sample_Ok in H.
  destruct H as [value [u [Hv [_ [Hsame [Hother _]]]]]].
  exists value. unfold samples. rewrite Hv. split; [reflexivity|].
  intros w. destruct (variable_eqb v w) eqn:E.
  - apply variable_eqb_eq in E. subst w. exact Hsame.
  - rewrite app_nil_r. apply Hother. intros ->.
    now rewrite variable_eqb_refl in E.
Qed.

Lemma pre_step_unpadded (v w : variable) (s : Sounding pylist) :
  padded w = false -> get_var w (pre_step v s) = get_var w s.
Proof.
  intros Hw. unfold pre_step. destruct (variable_eqb v v_time);
    [|reflexivity].
  now rewrite integrity_get, Hw.
Qed.

Lemma scan_keys_unpadded (json_flat : dict pyval) (keys : list string)
    (w : variable) :
  padded w = false ->
  forall st st',
    scan_keys json_flat keys st = Ok st' ->
    get_var w (sc_s st') = get_var w (sc_s st) ++ reported json_flat w keys.
Proof.
  intros Hw. induction keys as [|k rest IH]; intros st st' H;
    cbn [scan_keys] in H.
  - injection H as <-. cbn. now rewrite app_nil_r.
  - destruct (scan_step json_flat st k) as [st1|e] eqn:Hs; cbn [bind] in H;
      [|discriminate H].
    rewrite (IH st1 st' H). apply scan_step_series in Hs. cbn [reported].
    destruct (field_of json_flat k) as [v|]; [|now rewrite Hs].
    destruct Hs as [x [Hx Hs]]. rewrite Hs, Hx.
    rewrite pre_step_unpadded by exact Hw.
    destruct (variable_eqb v w); [now rewrite <- app_assoc|].
    now rewrite app_nil_r.
Qed.

(** X18.  The time series and the longitude displacement, the two series the
    completeness pass does not touch, hold exactly the values reported for
    them, in the order of [key_keys]. *)
Theorem convert_unpadded_series (json_flat : dict pyval)
    (key_keys : list string) (s : Sounding pylist) (v : variable) :
  convert_json_to_arrays json_flat key_keys = Ok s ->
  v = v_time \/ v = v_displacement_lon ->
  get_var v s = reported json_flat v key_keys.
Proof.
  intros H Hv. apply convert_Ok in H. destruct H as [st [t [H ->]]].
  assert (Hp : padded v = false) by (destruct Hv as [-> | ->]; reflexivity).
  rewrite set_sounding_start_time_get, integrity_get, Hp.
  rewrite (@scan_keys_unpadded _ _ _ Hp _ _ H).
  destruct Hv as [-> | ->]; reflexivity.
Qed.

Lemma convert_unpadded_series_witness :
  exists s,
    convert_json_to_arrays two_pressures two_pressures_keys = Ok s /\
    time s = [PInt 0] /\ displacement_lon s = [].
Proof.
  destruct (convert_json_to_arrays two_pressures two_pressures_keys)
    as [s|e] eqn:E; [|vm_compute in E; discriminate E].
  exists s. split; [reflexivity|]. split.
  - exact (@convert_unpadded_series _ _ _ v_time E (or_introl eq_refl)).
  - exact (@convert_unpadded_series _ _ _ v_displacement_lon E
             (or_intror eq_refl)).
Defined.

(** *** Padded series, one entry per time step *)

Lemma nan_pad_in_step (w : variable) (seen : bool) (s : Sounding pylist) :
  in_step w seen s -> nan_pad w s = get_var w s ++ pad_if_behind seen.
Proof.
  unfold in_step, nan_pad, pad_if_behind. destruct seen; intros H.
  - destruct (Nat.ltb_spec (length (get_var w s)) (length (time s)));
      [lia|now rewrite app_nil_r].
  - destruct (Nat.ltb_spec (length (get_var w s)) (length (time s)));
      [reflexivity|lia].
Qed.

Lemma padded_not_time (w : variable) :
  padded w = true -> variable_eqb v_time w = false.
Proof. destruct w; try reflexivity; discriminate. Qed.

Lemma pad_if_behind_length (w : variable) (seen : bool)
    (s : Sounding pylist) :
  in_step w seen s ->
  length (get_var w s ++ pad_if_behind seen) = length (time s).
Proof.
  unfold in_step, pad_if_behind. rewrite length_app.
  destruct seen; cbn [length]; lia.
Qed.

(** The scan and the final pass append to the series of a padded variable
    what [by_step] lists, and one time stamp per [timePeriod] entry. *)
Lemma scan_keys_by_step (json_flat : dict pyval) (keys : list string)
    (w : variable) :
  padded w = true ->
  forall st st' seen,
    scan_keys json_flat keys st = Ok st' ->
    once_per_step json_flat w keys seen = true ->
    in_step w seen (sc_s st) ->
    get_var w (_ensure_measurement_integrity (sc_s st')) =
      get_var w (sc_s st) ++ by_step json_flat w keys seen /\
    length (time (sc_s st')) =
      length (time (sc_s st)) + time_steps json_flat keys.
Proof.
  intros Hw. induction keys as [|k rest IH]; intros st st' seen H Ho Hi;
    cbn [scan_keys once_per_step] in H, Ho.
  - injection H as <-. cbn [by_step time_steps].
    rewrite integrity_get, Hw. split; [now apply nan_pad_in_step|lia].
  - destruct (scan_step json_flat st k) as [st1|e] eqn:Hs; cbn [bind] in H;
      [|discriminate H].
    apply scan_step_series in Hs. cbn [by_step time_steps].
    destruct (field_of json_flat k) as [v|].
    + destruct Hs as [x [Hx Hs]]. rewrite Hx.
      pose proof (Hs w) as Sw. pose proof (Hs v_time) as St.
      change (get_var v_time (sc_s st1)) with (time (sc_s st1)) in St.
      destruct (variable_eqb v v_time) eqn:Et.
      * (* a time stamp closes the step *)
        apply variable_eqb_eq in Et. subst v.
        rewrite (padded_not_time _ Hw), app_nil_r in Sw.
        unfold pre_step in Sw, St. cbn [variable_eqb] in Sw, St.
        rewrite integrity_get, Hw in Sw.
        rewrite (nan_pad_in_step _ _ _ Hi) in Sw.
        change (get_var v_time (_ensure_measurement_integrity (sc_s st)))
          with (time (_ensure_measurement_integrity (sc_s st))) in St.
        rewrite integrity_time in St.
        destruct (IH st1 st' false H Ho) as [E L].
        { unfold in_step.
          rewrite Sw, St, (pad_if_behind_length _ _ _ Hi), length_app.
          cbn [length]. lia. }
        rewrite E, Sw, L, St, length_app, <- app_assoc. cbn [length].
        split; [reflexivity|lia].
      * assert (Hpre : pre_step v (sc_s st) = sc_s st)
          by (unfold pre_step; now rewrite Et).
        rewrite Hpre in Sw, St.
        try rewrite Et in St. cbv iota in St. rewrite app_nil_r in St.
        change (get_var v_time (sc_s st)) with (time (sc_s st)) in St.
        assert (Hts : match v with
                      | v_time => S (time_steps json_flat rest)
                      | _ => time_steps json_flat rest
                      end = time_steps json_flat rest)
          by (destruct v; try reflexivity; discriminate Et).
        rewrite Hts.
        destruct (variable_eqb v w) eqn:Ew.
        -- apply andb_prop in Ho. destruct Ho as [Hseen Ho].
           destruct seen; [discriminate Hseen|].
           destruct (IH st1 st' true H Ho) as [E L].
           { unfold in_step in *. rewrite Sw, St, length_app.
             cbn [length]. lia. }
           rewrite E, Sw, L, St, <- app_assoc. split; reflexivity.
        -- rewrite app_nil_r in Sw.
           destruct (IH st1 st' seen H Ho) as [E L].
           { unfold in_step in *. now rewrite Sw, St. }
           rewrite E, Sw, L, St. split; reflexivity.
    + destruct (IH st1 st' seen H Ho) as [E L].
      { unfold in_step in *. rewrite (Hs w).
        change (time (sc_s st1)) with (get_var v_time (sc_s st1)).
        now rewrite (Hs v_time). }
      rewrite E, L, (Hs w).
      change (time (sc_s st1)) with (get_var v_time (sc_s st1)).
      rewrite (Hs v_time). split; reflexivity.
Qed.

(** *** Where a sample lands *)


Lemma time_steps_app (json_flat : dict pyval) (a b : list string) :
  time_steps json_flat (a ++ b)
  = time_steps json_flat a + time_steps json_flat b.
Proof.
  induction a as [|k a IH]; [reflexivity|]. cbn [app time_steps].
  destruct (field_of json_flat k) as [[]|]; rewrite IH; reflexivity.
Qed.




Lemma convert_by_step (json_flat : dict pyval) (key_keys : list string)
    (s : Sounding pylist) (v : variable) :
  convert_json_to_arrays json_flat key_keys = Ok s ->
  padded v = true ->
  once_per_step json_flat v key_keys true = true ->
  get_var v s = by_step json_flat v key_keys true /\
  length (time s) = time_steps json_flat key_keys /\
  forallb (entry_ok json_flat) key_keys = true.
Proof.
  intros H Hv Ho. apply convert_Ok in H. destruct H as [st [t [H ->]]].
  rewrite set_sounding_start_time_get.
  change (time (set_sounding_start_time t
                  (_ensure_measurement_integrity (sc_s st))))
    with (time (_ensure_measurement_integrity (sc_s st))).
  rewrite integrity_time.
  destruct (@scan_keys_by_step json_flat key_keys v Hv new_scan st true H Ho)
    as [E L].
  { destruct v; reflexivity. }
  rewrite E, L.
  apply scan_keys_bookkeeping in H. destruct H as [Hc _].
  split; [destruct v; reflexivity|]. split; [reflexivity|exact Hc].
Qed.





(** *** A variable that is never reported *)

Lemma never_once_per_step (json_flat : dict pyval) (v : variable)
    (keys : list string) (seen : bool) :
  (forall k, In k keys -> field_of json_flat k <> Some v) ->
  once_per_step json_flat v keys seen = true.
Proof.
  revert seen. induction keys as [|k keys IH]; intros seen Hn;
    [reflexivity|].
  cbn [once_per_step].
  assert (Hk : field_of json_flat k <> Some v) by (apply Hn; now left).
  assert (Hrest : forall k', In k' keys -> field_of json_flat k' <> Some v)
    by (intros k' Hk'; apply Hn; now right).
  destruct (field_of json_flat k) as [w|]; [|now apply IH].
  destruct (variable_eqb w v_time); [now apply IH|].
  destruct (variable_eqb w v) eqn:E; [|now apply IH].
  apply variable_eqb_eq in E. subst w. now contradiction Hk.
Qed.

Lemma never_by_step (json_flat : dict pyval) (v : variable)
    (keys : list string) (seen : bool) :
  (forall k, In k keys -> field_of json_flat k <> Some v) ->
  by_step json_flat v keys seen =
    repeat (PFloat FNaN)
           (time_steps json_flat keys + if seen then 0 else 1).
Proof.
  revert seen. induction keys as [|k keys IH]; intros seen Hn.
  - destruct seen; reflexivity.
  - cbn [by_step time_steps].
    assert (Hk : field_of json_flat k <> Some v) by (apply Hn; now left).
    assert (Hrest : forall k', In k' keys -> field_of json_flat k' <> Some v)
      by (intros k' Hk'; apply Hn; now right).
    destruct (field_of json_flat k) as [w|]; [|now apply IH].
    destruct (variable_eqb w v_time) eqn:Et.
    + apply variable_eqb_eq in Et. subst w. rewrite (IH false Hrest).
      destruct seen; cbn [pad_if_behind app].
      * replace (time_steps json_flat keys + 1)
          with (S (time_steps json_flat keys) + 0) by lia. reflexivity.
      * replace (S (time_steps json_flat keys) + 1)
          with (S (time_steps json_flat keys + 1)) by lia. reflexivity.
    + assert (Hts : match w with
                    | v_time => S (time_steps json_flat keys)
                    | _ => time_steps json_flat keys
                    end = time_steps json_flat keys)
        by (destruct w; try reflexivity; discriminate Et).
      rewrite Hts.
      destruct (variable_eqb w v) eqn:E; [|now apply IH].
      apply variable_eqb_eq in E. subst w. now contradiction Hk.
Qed.

Lemma never_reported (json_flat : dict pyval) (v : variable)
    (keys : list string) :
  (forall k, In k keys -> field_of json_flat k <> Some v) ->
  reported json_flat v keys = [].
Proof.
  induction keys as [|k keys IH]; intros Hn; [reflexivity|].
  cbn [reported].
  assert (Hk : field_of json_flat k <> Some v) by (apply Hn; now left).
  assert (Hrest : forall k', In k' keys -> field_of json_flat k' <> Some v)
    by (intros k' Hk'; apply Hn; now right).
  destruct (field_of json_flat k) as [w|]; [|now apply IH].
  destruct (variable_eqb w v) eqn:E; [|now apply IH].
  apply variable_eqb_eq in E. subst w. now contradiction Hk.
Qed.

Lemma scan_keys_unit_untouched (json_flat : dict pyval) (keys : list string)
    (v : variable) :
  (forall k, In k keys -> field_of json_flat k <> Some v) ->
  forall st st',
    scan_keys json_flat keys st = Ok st' ->
    get_unit v (sc_s st') = get_unit v (sc_s st).
Proof.
  induction keys as [|k keys IH]; intros Hn st st' H; cbn [scan_keys] in H.
  - now injection H as <-.
  - destruct (scan_step json_flat st k) as [st1|e] eqn:Hs; cbn [bind] in H;
      [|discriminate H].
    rewrite (IH (fun k' Hk' => Hn k' (or_intror Hk')) st1 st' H).
    destruct (@scan_step_unit _ _ _ _ v Hs) as [[Hsame _]|[_ Hocc]];
      [exact Hsame|].
    exfalso. apply (Hn k (or_introl eq_refl)).
    unfold occurrence in Hocc.
    destruct (field_of json_flat k) as [w|]; [|discriminate Hocc].
    destruct (dict_get json_flat (k ++ "_units")); [|discriminate Hocc].
    now injection Hocc as ->.
Qed.

(** X21.  A variable no entry reports keeps the unit label [None]; its series
    is one NaN per time stamp if the completeness pass pads it, and empty
    otherwise. *)
Theorem convert_never_reported (json_flat : dict pyval)
    (key_keys : list string) (s : Sounding pylist) (v : variable) :
  convert_json_to_arrays json_flat key_keys = Ok s ->
  (forall k, In k key_keys -> field_of json_flat k <> Some v) ->
  get_unit v s = PNone /\
  get_var v s =
    if padded v then repeat (PFloat FNaN) (length (time s)) else [].
Proof.
  intros H Hn. split.
  - apply convert_Ok in H. destruct H as [st [t [H ->]]].
    assert (U : forall w s0, get_unit w (set_sounding_start_time t s0)
                             = get_unit w s0)
      by (intros w s0; destruct w; reflexivity).
    rewrite U, integrity_unit, (@scan_keys_unit_untouched _ _ _ Hn _ _ H).
    destruct v; reflexivity.
  - destruct (padded v) eqn:Hp.
    + destruct (@convert_by_step _ _ _ _ H Hp
                (@never_once_per_step _ _ _ true Hn))
        as [E [L _]].
      rewrite E, L, never_by_step by exact Hn.
      now rewrite Nat.add_0_r.
    + apply convert_Ok in H. destruct H as [st [t [H ->]]].
      rewrite set_sounding_start_time_get, integrity_get, Hp.
      rewrite (@scan_keys_unpadded _ _ _ Hp _ _ H), never_reported
        by exact Hn.
      destruct v; reflexivity.
Qed.

Lemma convert_never_reported_witness :
  exists s,
    convert_json_to_arrays two_steps two_steps_keys = Ok s /\
    dewpoint_unit s = PNone /\
    dewpoint s = [PFloat FNaN; PFloat FNaN].
Proof.
  destruct (convert_json_to_arrays two_steps two_steps_keys)
    as [s|e] eqn:E; [|vm_compute in E; discriminate E].
  exists s. split; [reflexivity|].
  destruct (@convert_never_reported _ _ _ v_dewpoint E) as [U V].
  { intros k Hk. cbn in Hk.
    repeat (destruct Hk as [<-|Hk]; [vm_compute; discriminate|]).
    destruct Hk. }
  split; [exact U|].
  change (dewpoint s) with (get_var v_dewpoint s). rewrite V.
  assert (L : length (time s) = 2)
    by (vm_compute in E; injection E as <-; reflexivity).
  now rewrite L.
Defined.

(* ================================================================= *)
(** ** [flatten_json] and [read_json] on a list of records *)

Lemma flatten_as_json_cons (rec : list (string * pyval))
    (records : list (list (string * pyval))) (r : N) (out : dict pyval) :
  flatten (as_json (rec :: records)) "" (r, out) =
    flatten (as_json records) ""
      ((r + 1)%N,
       fold_left (fun o '(n, v) => dict_set o (flat_key r n) v) rec out).
Proof.
  unfold as_json. cbn [map]. rewrite flatten_list_cons, flatten_record.
  reflexivity.
Qed.

(** The flattening of a list of records, from any counter and any dict
    whose keys were made with smaller counters. *)
Lemma flatten_records (records : list (list (string * pyval))) :
  Forall (fun rec => NoDup (map fst rec)) records ->
  forall (r : N) (out : dict pyval),
    (r + N.of_nat (length records) <= 10 ^ 6)%N ->
    Forall (key_below r) (dict_keys out) ->
    flatten (as_json records) "" (r, out) =
      ((r + N.of_nat (length records))%N, out ++ flat_from r records).
Proof.
  induction 1 as [|rec records Hrec _ IH]; intros r out Hr Hout.
  - cbn [length flat_from N.of_nat]. now rewrite N.add_0_r, app_nil_r.
  - cbn [length flat_from] in *. rewrite Nat2N.inj_succ in *.
    rewrite flatten_as_json_cons, record_appended.
    + rewrite IH.
      * rewrite <- app_assoc. f_equal. lia.
      * lia.
      * rewrite dict_keys_app. apply Forall_app. split.
        -- eapply Forall_impl; [|exact Hout].
           intros k. apply key_below_mono. lia.
        -- apply Forall_forall. intros k Hk. unfold dict_keys in Hk.
           rewrite map_map in Hk. apply in_map_iff in Hk.
           destruct Hk as [[n v] [<- _]]. exists r, n.
           split; [lia|reflexivity].
    + exact Hrec.
    + intros n Hn Hin. rewrite Forall_forall in Hout.
      destruct (Hout _ Hin) as [c [n' [Hc E]]].
      apply flat_key_inj in E; [|lia|lia]. lia.
Qed.

Lemma flatten_json_as_json (records : list (list (string * pyval))) :
  Forall (fun rec => NoDup (map fst rec)) records ->
  (N.of_nat (length records) <= 10 ^ 6)%N ->
  flatten_json (as_json records) = flat_from 0 records.
Proof.
  intros Hnd Hlen. unfold flatten_json.
  rewrite (@flatten_records records Hnd 0%N []); [reflexivity|lia|constructor].
Qed.

(** *** Looking a field up *)

Lemma dict_get_app {V : Type} (a b : dict V) (k : string) :
  dict_get (a ++ b) k =
    match dict_get a k with
    | Some v => Some v
    | None => dict_get b k
    end.
Proof.
  induction a as [|[k0 v0] a IH]; [reflexivity|].
  cbn [app dict_get]. destruct (String.eqb k0 k); [reflexivity|exact IH].
Qed.

Lemma dict_get_record_other (rec : list (string * pyval)) (c r : N)
    (n : string) :
  (c < 10 ^ 6)%N -> (r < 10 ^ 6)%N -> c <> r ->
  dict_get (map (fun '(n, v) => (flat_key c n, v)) rec) (flat_key r n) = None.
Proof.
  intros Hc Hr Hne. induction rec as [|[n0 v0] rec IH]; [reflexivity|].
  cbn [map dict_get].
  destruct (String.eqb_spec (flat_key c n0) (flat_key r n)) as [E|_];
    [|exact IH].
  apply flat_key_inj in E; [|assumption|assumption]. now destruct E.
Qed.

Lemma dict_get_record_same (rec : list (string * pyval)) (r : N)
    (n : string) :
  dict_get (map (fun '(n, v) => (flat_key r n, v)) rec) (flat_key r n)
  = dict_get rec n.
Proof.
  induction rec as [|[n0 v0] rec IH]; [reflexivity|].
  cbn [map dict_get].
  destruct (String.eqb_spec (flat_key r n0) (flat_key r n)) as [E|Hne].
  - unfold flat_key in E. apply append_inj_l in E. injection E as ->.
    now rewrite String.eqb_refl.
  - destruct (String.eqb_spec n0 n) as [->|_]; [contradiction|exact IH].
Qed.

Lemma dict_get_flat_from_later (records : list (list (string * pyval))) :
  forall (r1 r : N) (n : string),
    (r < r1)%N ->
    (r1 + N.of_nat (length records) <= 10 ^ 6)%N ->
    dict_get (flat_from r1 records) (flat_key r n) = None.
Proof.
  induction records as [|rec records IH]; intros r1 r n L1 L2;
    [reflexivity|].
  cbn [flat_from length] in *. rewrite Nat2N.inj_succ in L2.
  rewrite dict_get_app, dict_get_record_other by lia.
  apply IH; lia.
Qed.

Lemma dict_get_flat_from (records : list (list (string * pyval))) :
  forall (r : N) (i : nat) (rec : list (string * pyval)) (n : string),
    (r + N.of_nat (length records) <= 10 ^ 6)%N ->
    nth_error records i = Some rec ->
    dict_get (flat_from r records) (flat_key (r + N.of_nat i) n)
    = dict_get rec n.
Proof.
  induction records as [|rec0 records IH]; intros r i rec n Hr Hi.
  - destruct i; discriminate Hi.
  - cbn [flat_from length] in *. rewrite Nat2N.inj_succ in Hr.
    rewrite dict_get_app. destruct i as [|i].
    + injection Hi as ->. cbn [N.of_nat]. rewrite N.add_0_r.
      rewrite dict_get_record_same.
      destruct (dict_get rec n) eqn:E; [reflexivity|].
      apply dict_get_flat_from_later; lia.
    + cbn [nth_error] in Hi.
      assert (Hlt : i < length records)
        by (apply nth_error_Some; congruence).
      rewrite dict_get_record_other by lia.
      replace (r + N.of_nat (S i))%N with (r + 1 + N.of_nat i)%N by lia.
      apply IH; [lia|exact Hi].
Qed.

(** X22.  Looking a field up after flattening: in the flattening of a list of
    at most [10^6] records with distinct field names, the key made of the
    position of a record and a field name holds the value that record has for
    the name, or is absent when the record has no such field. *)
Theorem flatten_json_lookup (records : list (list (string * pyval)))
    (i : nat) (rec : list (string * pyval)) (n : string) :
  Forall (fun rec => NoDup (map fst rec)) records ->
  (N.of_nat (length records) <= 10 ^ 6)%N ->
  nth_error records i = Some rec ->
  dict_get (flatten_json (as_json records)) (flat_key (N.of_nat i) n)
  = dict_get rec n.
Proof.
  intros Hnd Hlen Hi. rewrite flatten_json_as_json by assumption.
  rewrite <- (N.add_0_l (N.of_nat i)).
  apply dict_get_flat_from; [lia|exact Hi].
Qed.

Lemma flatten_json_lookup_witness :
  dict_get (flatten_json (dump sample_dump)) "0000002_units"
  = Some (PStr "Pa").
Proof.
  apply (@flatten_json_lookup (map entry_fields sample_dump) 2
           (entry_fields (mkEntry "pressure" (PInt 101300)
                                  (Some (PStr "Pa")))) "units").
  - repeat constructor; cbn; intuition discriminate.
  - cbn. lia.
  - reflexivity.
Defined.

(** *** The key list of [read_json] *)
















(** *** From the message to the series *)






(* ================================================================= *)
(** ** Excluding after sorting *)

Lemma kept_rows_cons (x : pyfloat) (t : ndarray) :
  kept_rows (x :: t) =
    (if isnan x then [] else [0]) ++ map S (kept_rows t).
Proof.
  unfold kept_rows. cbn [length seq filter nth].
  rewrite filter_seq_shift. cbn [nth].
  destruct (isnan x); reflexivity.
Qed.

Lemma nan_first_tail (x : pyfloat) (t : ndarray) :
  nan_first (x :: t) -> nan_first t.
Proof.
  intros H p q Hpq. apply (H (S p) (S q)). cbn [length]. lia.
Qed.

Lemma nan_last_tail (x : pyfloat) (t : ndarray) :
  nan_last (x :: t) -> nan_last t.
Proof.
  intros H p q Hpq. apply (H (S p) (S q)). cbn [length]. lia.
Qed.

Lemma missing_le (t : ndarray) : missing t <= length t.
Proof. apply filter_length_le. Qed.

Lemma kept_rows_nan_first (t : ndarray) :
  nan_first t -> kept_rows t = seq (missing t) (length t - missing t).
Proof.
  induction t as [|x t IH]; intros H; [reflexivity|].
  rewrite kept_rows_cons. unfold missing in *. cbn [filter length].
  destruct (isnan x) eqn:Ex.
  - cbn [app length]. rewrite (IH (nan_first_tail H)).
    rewrite seq_shift. f_equal.
  - (* the first time stamp is not missing, so none is *)
    assert (Hnone : Forall (fun y => isnan y = false) t).
    { apply Forall_forall. intros y Hy.
      apply In_nth with (d := FNaN) in Hy. destruct Hy as [q [Hq <-]].
      destruct (isnan (nth q t FNaN)) eqn:E; [|reflexivity].
      assert (C := H 0 (S q) ltac:(cbn [length]; lia) E).
      cbn [nth] in C. congruence. }
    rewrite (kept_rows_no_nan Hnone).
    assert (F : filter isnan t = []).
    { clear - Hnone. induction Hnone as [|y t Hy _ IHt]; [reflexivity|].
      cbn [filter]. now rewrite Hy. }
    rewrite F. cbn [length app]. rewrite seq_shift, Nat.sub_0_r.
    reflexivity.
Qed.

Lemma kept_rows_nan_last (t : ndarray) :
  nan_last t -> kept_rows t = seq 0 (length t - missing t).
Proof.
  induction t as [|x t IH]; intros H; [reflexivity|].
  rewrite kept_rows_cons. unfold missing in *. cbn [filter length].
  destruct (isnan x) eqn:Ex.
  - (* the first time stamp is missing, so all are *)
    assert (Hall : Forall (fun y => isnan y = true) t).
    { apply Forall_forall. intros y Hy.
      apply In_nth with (d := FNaN) in Hy. destruct Hy as [q [Hq <-]].
      apply (H 0 (S q)); [cbn [length]; lia|exact Ex]. }
    assert (F : filter isnan t = t).
    { clear - Hall. induction Hall as [|y t Hy _ IHt]; [reflexivity|].
      cbn [filter]. now rewrite Hy, IHt. }
    assert (K : kept_rows t = []).
    { rewrite (IH (nan_last_tail H)), F, Nat.sub_diag. reflexivity. }
    rewrite K, F. cbn [app map length]. now rewrite Nat.sub_diag.
  - cbn [app]. rewrite (IH (nan_last_tail H)), seq_shift.
    pose proof (filter_length_le isnan t) as L.
    replace (S (length t) - length (filter isnan t))
      with (S (length t - length (filter isnan t))) by lia.
    reflexivity.
Qed.

Lemma rows_seq_skipn (a : ndarray) (k m : nat) :
  k + m = length a -> rows (seq k m) a = skipn k a.
Proof.
  revert k m. induction a as [|x a IH]; intros k m H.
  - cbn [length] in H. assert (k = 0) by lia. assert (m = 0) by lia.
    subst. reflexivity.
  - destruct k as [|k].
    + cbn [Nat.add] in H. subst m. apply rows_seq.
    + cbn [skipn]. rewrite <- (IH k m) by (cbn [length] in H; lia).
      unfold rows. rewrite <- seq_shift, map_map. reflexivity.
Qed.

Lemma rows_seq_firstn (a : ndarray) (m : nat) :
  m <= length a -> rows (seq 0 m) a = firstn m a.
Proof.
  revert m. induction a as [|x a IH]; intros m H.
  - cbn [length] in H. replace m with 0 by lia. reflexivity.
  - destruct m as [|m]; [reflexivity|].
    cbn [firstn seq]. unfold rows in *. cbn [map nth]. f_equal.
    rewrite <- seq_shift, map_map. apply IH. cbn [length] in H. lia.
Qed.

Lemma rows_In (idx : list nat) (a : ndarray) (x : pyfloat) :
  Forall (fun i => i < length a) idx -> In x (rows idx a) -> In x a.
Proof.
  intros Hb Hx. unfold rows in Hx. apply in_map_iff in Hx.
  destruct Hx as [i [<- Hi]]. apply nth_In.
  rewrite Forall_forall in Hb. now apply Hb.
Qed.

Lemma sorted_time_perm (argsort : ndarray -> list nat)
    (s s1 : Sounding ndarray) (d : Z) :
  argsort_spec argsort ->
  direction s = Some d ->
  sort_sounding_by_time argsort s = Ok s1 ->
  Permutation (time s1) (time s).
Proof.
  intros Hok Hd Hsort.
  rewrite (@sorted_time argsort s s1 d Hd Hsort).
  apply (Permutation_trans (l' := rows (seq 0 (length (time s))) (time s))).
  - unfold rows. apply Permutation_map, (nan_argsort_perm Hok).
  - rewrite rows_seq. apply Permutation_refl.
Qed.

Lemma filter_perm_length {A : Type} (f : A -> bool) (l l' : list A) :
  Permutation l l' -> length (filter f l) = length (filter f l').
Proof.
  induction 1 as [|x l l' _ IH|x y l|l l' l'' _ IH1 _ IH2]; cbn [filter].
  - reflexivity.
  - destruct (f x); cbn [length]; now rewrite IH.
  - destruct (f x), (f y); reflexivity.
  - congruence.
Qed.

Lemma sorted_keys_order (argsort : ndarray -> list nat)
    (s s1 : Sounding ndarray) (d : Z) (p q : nat) :
  argsort_spec argsort ->
  direction s = Some d ->
  sort_sounding_by_time argsort s = Ok s1 ->
  p < q < length (time s1) ->
  fle (nth p (sort_keys (time s1) d) FNaN)
      (nth q (sort_keys (time s1) d) FNaN) = true.
Proof.
  intros Hok Hd Hsort Hpq.
  pose proof (@sorted_keys argsort Hok s s1 d Hd Hsort) as Hk.
  pose proof (@sorted_keys_in_order argsort Hok (sort_keys (time s) d)) as Hs.
  rewrite <- Hk in Hs.
  assert (Hlen : length (time s1) = length (time s))
    by apply (Permutation_length (@sorted_time_perm _ _ _ _ Hok Hd Hsort)).
  pose proof (@StronglySorted_nth _ _ _ 0 Hs p q) as H.
  rewrite length_seq, sort_keys_length, <- Hlen in H.
  specialize (H Hpq). rewrite !seq_nth in H by lia. exact H.
Qed.

Lemma sorted_nan_first (argsort : ndarray -> list nat)
    (s s1 : Sounding ndarray) :
  argsort_spec argsort ->
  direction s = Some 1%Z ->
  sort_sounding_by_time argsort s = Ok s1 ->
  (forall x, In x (time s) -> x <> FInf true) ->
  nan_first (time s1).
Proof.
  intros Hok Hd Hsort Hinf p q Hpq Nq.
  pose proof (@sorted_keys_order _ _ _ _ _ _ Hok Hd Hsort Hpq) as H.
  rewrite !sort_keys_nth in H by lia. rewrite Nq in H.
  destruct (isnan (nth p (time s1) FNaN)) eqn:Np; [reflexivity|].
  apply fle_neg_inf in H. exfalso. apply (Hinf (nth p (time s1) FNaN)).
  - apply (Permutation_in _ (@sorted_time_perm _ _ _ _ Hok Hd Hsort)),
      nth_In.
    lia.
  - exact H.
Qed.

Lemma sorted_nan_last (argsort : ndarray -> list nat)
    (s s1 : Sounding ndarray) :
  argsort_spec argsort ->
  direction s = Some (-1)%Z ->
  sort_sounding_by_time argsort s = Ok s1 ->
  (forall x, In x (time s) -> x <> FInf false) ->
  nan_last (time s1).
Proof.
  intros Hok Hd Hsort Hinf p q Hpq Np.
  pose proof (@sorted_keys_order _ _ _ _ _ _ Hok Hd Hsort Hpq) as H.
  rewrite !sort_keys_nth in H by lia. rewrite Np in H.
  destruct (isnan (nth q (time s1) FNaN)) eqn:Nq; [reflexivity|].
  apply fle_pos_inf in H. destruct H as [H|H].
  - exfalso. apply (Hinf (nth q (time s1) FNaN)).
    + apply (Permutation_in _ (@sorted_time_perm _ _ _ _ Hok Hd Hsort)),
        nth_In.
      lia.
    + exact H.
  - rewrite H in Nq. discriminate Nq.
Qed.

Lemma map_rows_aligned (s : Sounding ndarray) (idx : list nat)
    (f : ndarray -> ndarray) :
  aligned s ->
  (forall a : ndarray, length a = length (time s) -> rows idx a = f a) ->
  map (option_map (rows idx)) (twelve_series s)
  = map (option_map f) (twelve_series s).
Proof.
  intros Ha Hf. unfold aligned in Ha.
  induction Ha as [|o l [a [-> Hl]] _ IH]; [reflexivity|].
  cbn [map option_map]. now rewrite IH, Hf.
Qed.

(** X25.  Excluding the rows without a time stamp from a sounding that has
    just been sorted removes one block of rows: with direction [+1] the first
    [k] rows, with direction [-1] the last [k] rows, where [k] is the number
    of missing time stamps (the time series holding no infinity of the sign
    the sort uses as key for a missing time). *)
Theorem exclude_after_sort (argsort : ndarray -> list nat)
    (s s1 s2 : Sounding ndarray) :
  argsort_spec argsort ->
  sort_sounding_by_time argsort s = Ok s1 ->
  exclude_1000hPa_gpm s1 = Ok s2 ->
  let k := missing (time s) in
  (direction s = Some 1%Z ->
   (forall x, In x (time s) -> x <> FInf true) ->
   twelve_series s2 = map (option_map (skipn k)) (twelve_series s1)) /\
  (direction s = Some (-1)%Z ->
   (forall x, In x (time s) -> x <> FInf false) ->
   twelve_series s2 =
     map (option_map (firstn (length (time s) - k))) (twelve_series s1)).
Proof.
  intros Hok Hsort Hex k.
  pose proof (@sort_Ok_aligned _ Hok _ _ Hsort) as Ha.
  destruct (exclude_rows Ha) as [s2' [E [Ht _]]].
  rewrite E in Hex. injection Hex as <-.
  split; intros Hd Hinf; rewrite Ht;
    pose proof (@sorted_time_perm _ _ _ _ Hok Hd Hsort) as P;
    assert (Hm : missing (time s1) = k)
      by (apply filter_perm_length; exact P);
    pose proof (missing_le (time s1)) as L;
    pose proof (Permutation_length P) as Hlen.
  - rewrite (kept_rows_nan_first
               (@sorted_nan_first _ _ _ Hok Hd Hsort Hinf)), Hm.
    apply map_rows_aligned; [exact Ha|].
    intros a Hl. apply rows_seq_skipn. lia.
  - rewrite (kept_rows_nan_last (@sorted_nan_last _ _ _ Hok Hd Hsort Hinf)), Hm.
    rewrite Hlen.
    apply map_rows_aligned; [exact Ha|].
    intros a Hl. apply rows_seq_firstn. lia.
Qed.

Lemma exclude_after_sort_witness :
  exists s1 s2,
    sort_sounding_by_time argsort_stable
      (profile 1 [FFin (Qz 4); FNaN; FFin (Qz 2)]
                 [FFin (Qz 990); FFin (Qz 1000); FFin (Qz 995)]) = Ok s1 /\
    exclude_1000hPa_gpm s1 = Ok s2 /\
    twelve_series s2 = map (option_map (skipn 1)) (twelve_series s1).
Proof.
  destruct (sort_sounding_by_time argsort_stable
              (profile 1 [FFin (Qz 4); FNaN; FFin (Qz 2)]
                         [FFin (Qz 990); FFin (Qz 1000); FFin (Qz 995)]))
    as [s1|e] eqn:E1; [|vm_compute in E1; discriminate E1].
  destruct (exclude_1000hPa_gpm s1) as [s2|e] eqn:E2.
  2:{ vm_compute in E1. injection E1 as <-. vm_compute in E2.
      discriminate E2. }
  exists s1, s2. split; [reflexivity|]. split; [exact E2|].
  apply (proj1 (@exclude_after_sort argsort_stable _ s1 s2
                  argsort_stable_spec E1 E2)); [reflexivity|].
  intros x Hx. cbn in Hx. intuition (subst; discriminate).
Defined.

(* ================================================================= *)
(** ** [flatten_json] on any document *)

Lemma store_app (out : dict pyval) (a b : list (string * pyval)) :
  store out (a ++ b) = store (store out a) b.
Proof. apply fold_left_app. Qed.

Lemma keyed_list_cons (a : json) (l : list json) (name : string) (r : N) :
  keyed (JList (a :: l)) name r =
    keyed a "" r ++ keyed (JList l) name (r + list_elements a + 1)%N.
Proof. reflexivity. Qed.

Lemma keyed_dict_cons (a : string) (xa : json) (d : list (string * json))
    (name : string) (r : N) :
  keyed (JDict ((a, xa) :: d)) name r =
    keyed xa a r ++ keyed (JDict d) name (r + list_elements xa)%N.
Proof. reflexivity. Qed.

Lemma flatten_dict_cons (a : string) (xa : json) (d : list (string * json))
    (name : string) (st : flat_state) :
  flatten (JDict ((a, xa) :: d)) name st =
    flatten (JDict d) name (flatten xa a st).
Proof. reflexivity. Qed.

Lemma list_elements_dict_cons (a : string) (xa : json)
    (d : list (string * json)) :
  list_elements (JDict ((a, xa) :: d))
  = (list_elements xa + list_elements (JDict d))%N.
Proof. reflexivity. Qed.

(** [flatten] writes the keyed leaves into the dict, in order. *)
Lemma flatten_keyed (x : json) :
  forall name r out,
    flatten x name (r, out) =
      ((r + list_elements x)%N, store out (keyed x name r)).
Proof.
  induction x as [v|l IH|d IH] using json_induction; intros name r out.
  - cbn [flatten keyed list_elements store fold_left fst snd].
    now rewrite N.add_0_r.
  - revert r out. induction IH as [|a l Ha _ IHl]; intros r out.
    + cbn [flatten keyed list_elements store fold_left].
      now rewrite N.add_0_r.
    + rewrite flatten_list_cons, Ha, IHl, keyed_list_cons, store_app,
        list_elements_list_cons.
      f_equal. lia.
  - revert r out. induction IH as [|[a xa] d Ha _ IHd]; intros r out.
    + cbn [flatten keyed list_elements store fold_left].
      now rewrite N.add_0_r.
    + cbn [snd] in Ha.
      rewrite flatten_dict_cons, Ha, IHd, keyed_dict_cons, store_app,
        list_elements_dict_cons.
      f_equal. lia.
Qed.

Lemma dict_get_store (l : list (string * pyval)) :
  forall (out : dict pyval) (k : string),
    dict_get (store out l) k =
      match last_of k l with
      | Some w => Some w
      | None => dict_get out k
      end.
Proof.
  induction l as [|[k' v] l IH]; intros out k; [reflexivity|].
  cbn [store fold_left fst snd last_of].
  change (fold_left (fun o kv => dict_set o (fst kv) (snd kv)) l
                    (dict_set out k' v))
    with (store (dict_set out k' v) l).
  rewrite IH, dict_get_dict_set.
  destruct (last_of k l); [reflexivity|].
  destruct (String.eqb k' k); reflexivity.
Qed.

Lemma leaves_dict_cons (a : string) (xa : json) (d : list (string * json))
    (name : string) :
  leaves (JDict ((a, xa) :: d)) name = leaves xa a ++ leaves (JDict d) name.
Proof. reflexivity. Qed.

Lemma keyed_values (x : json) :
  forall name r, map snd (keyed x name r) = map snd (leaves x name).
Proof.
  induction x as [v|l IH|d IH] using json_induction; intros name r.
  - reflexivity.
  - revert r. induction IH as [|a l Ha _ IHl]; intros r; [reflexivity|].
    rewrite keyed_list_cons, leaves_list_cons, !map_app, Ha, IHl.
    reflexivity.
  - revert r. induction IH as [|[a xa] d Ha _ IHd]; intros r; [reflexivity|].
    cbn [snd] in Ha.
    rewrite keyed_dict_cons, leaves_dict_cons, !map_app, Ha, IHd.
    reflexivity.
Qed.

(** X26.  [flatten_json] on any document: the leaves are written in traversal
    order, each under the key [keyed] gives it, so the value found under a key
    is the one of the last leaf that got this key, and a key is absent exactly
    when no leaf got it. *)
Theorem flatten_json_last_write (y : json) (k : string) :
  dict_get (flatten_json y) k = last_of k (keyed y "" 0) /\
  map snd (keyed y "" 0) = map snd (leaves y "") /\
  fst (flatten y "" (0%N, [])) = list_elements y.
Proof.
  unfold flatten_json. rewrite flatten_keyed. cbn [fst snd].
  rewrite dict_get_store. cbn [dict_get].
  split; [now destruct (last_of k (keyed y "" 0))|].
  split; [apply keyed_values|apply N.add_0_l].
Qed.

(* ================================================================= *)
(** ** The extractor: header fields *)

Lemma record_sample_frame (v : variable) (json_flat : dict pyval)
    (k : string) (s s' : Sounding pylist) :
  record_sample v json_flat k s = Ok s' -> same_frame s s'.
Proof.
  intros H. apply record_sample_Ok in H.
  destruct H as [value [u [_ [_ [_ [_ [_ [_ H]]]]]]]]. exact H.
Qed.

Lemma pre_step_frame (v : variable) (s : Sounding pylist) :
  same_frame s (pre_step v s).
Proof.
  unfold pre_step. destruct (variable_eqb v v_time);
    [apply integrity_frame|apply same_frame_refl].
Qed.

Lemma scan_step_header (json_flat : dict pyval) (k : string)
    (st st' : scan) :
  scan_step json_flat st k = Ok st' ->
  dict_get (meta_data (sc_s st')) "bufr_msg" =
    bufr_msg_after json_flat (dict_get (meta_data (sc_s st)) "bufr_msg") k /\
  station_lat (sc_s st') =
    station_after json_flat "latitude" (station_lat (sc_s st)) k /\
  station_lon (sc_s st') =
    station_after json_flat "longitude" (station_lon (sc_s st)) k.
Proof.
  intros H. unfold bufr_msg_after, station_after.
  destruct (field_of json_flat k) as [v|] eqn:F.
  - rewrite (@scan_step_tracked _ _ st _ F) in H.
    destruct (record_sample v json_flat k (pre_step v (sc_s st)))
      as [s1|e] eqn:R; cbn [bind] in H; [|discriminate H].
    injection H as <-.
    apply record_sample_frame in R.
    pose proof (same_frame_trans (pre_step_frame v (sc_s st)) R) as Fr.
    destruct Fr as [F1 [F2 [_ [F4 _]]]].
    rewrite !(is_field_tracked _ _ _ F) by reflexivity.
    cbn [with_s sc_s]. rewrite F1, F2, F4. repeat split.
  - unfold scan_step, getitem in H. unfold field_of in F.
    unfold is_field.
    destruct (dict_get json_flat (k ++ "_key")) as [[| | | |name]|];
      cbn [bind] in H; try discriminate H;
      try (injection H as <-; repeat split).
    unfold dispatch in H. unfold tracked_var in F.
    split_name name; try discriminate F; cbn in H |- *;
      repeat (match type of H with
              | context [getitem ?d ?key] =>
                  let x := fresh "x" in
                  let e := fresh "e" in
                  let E := fresh "E" in
                  destruct (getitem d key) as [x|e] eqn:E;
                  [apply getitem_Ok in E
                  |apply getitem_Raise in E; destruct E as [-> E]];
                  rewrite ?E; cbn in H; try discriminate H
              end);
      try match type of H with
          | context [match ?u with PStr _ => _ | _ => _ end] =>
              destruct u; cbn in H; try discriminate H
          end;
      injection H as <-; cbn;
      rewrite ?dict_get_dict_set; cbn;
      repeat match goal with
             | n : ?a <> ?b |- _ =>
                 rewrite ?(proj2 (String.eqb_neq a b) n); clear n
             end;
      cbn; repeat split; reflexivity.
Qed.

Lemma scan_keys_header (json_flat : dict pyval) (keys : list string) :
  forall st st',
    scan_keys json_flat keys st = Ok st' ->
    dict_get (meta_data (sc_s st')) "bufr_msg" =
      fold_left (bufr_msg_after json_flat) keys
                (dict_get (meta_data (sc_s st)) "bufr_msg") /\
    station_lat (sc_s st') =
      fold_left (station_after json_flat "latitude") keys
                (station_lat (sc_s st)) /\
    station_lon (sc_s st') =
      fold_left (station_after json_flat "longitude") keys
                (station_lon (sc_s st)).
Proof.
  induction keys as [|k rest IH]; intros st st' H; cbn [scan_keys] in H.
  - injection H as <-. repeat split.
  - destruct (scan_step json_flat st k) as [st1|e] eqn:Hs; cbn [bind] in H;
      [|discriminate H].
    apply scan_step_header in Hs. destruct Hs as [H1 [H2 H3]].
    destruct (IH st1 st' H) as [I1 [I2 I3]].
    cbn [fold_left]. rewrite <- H1, <- H2, <- H3. repeat split; assumption.
Qed.

(** X27.  The header of a returned sounding: [meta_data['bufr_msg']] is the
    value of the last [unexpandedDescriptors] entry, [309053] when that entry
    has no [_value] member, and is absent when the message has no such entry;
    the station coordinates are the last [latitude] and [longitude] values
    reported, [None] when there are none. *)
Theorem convert_header (json_flat : dict pyval) (key_keys : list string)
    (s : Sounding pylist) :
  convert_json_to_arrays json_flat key_keys = Ok s ->
  dict_get (meta_data s) "bufr_msg" =
    fold_left (bufr_msg_after json_flat) key_keys None /\
  station_lat s =
    fold_left (station_after json_flat "latitude") key_keys PNone /\
  station_lon s =
    fold_left (station_after json_flat "longitude") key_keys PNone.
Proof.
  intros H. apply convert_Ok in H. destruct H as [st [t [H ->]]].
  apply scan_keys_header in H. destruct H as [H1 [H2 H3]].
  destruct (integrity_frame (sc_s st)) as [F1 [F2 [_ [F4 _]]]].
  cbn [set_sounding_start_time meta_data station_lat station_lon].
  rewrite F1, F2, F4. repeat split; assumption.
Qed.

Lemma convert_header_witness :
  exists s,
    convert_json_to_arrays no_descriptor_value no_descriptor_value_keys
    = Ok s /\
    dict_get (meta_data s) "bufr_msg" = Some (MVal (PInt 309053)) /\
    station_lon s = PNone.
Proof.
  destruct (convert_json_to_arrays no_descriptor_value
                                   no_descriptor_value_keys)
    as [s|e] eqn:E; [|vm_compute in E; discriminate E].
  exists s. split; [reflexivity|].
  destruct (@convert_header _ _ _ E) as [H1 [_ H3]].
  split; [exact H1|exact H3].
Defined.

(* ================================================================= *)
(** ** An entry whose value is a list *)

















